(** * WebSDR device communication layer: a shallow embedding and its properties

    The development follows the TypeScript sources of the repository:

    - [packages/core/src/transform/converters.ts]      (module [Converters])
    - [packages/core/src/utils/circularbuffer.ts]      (module [CircularBuffer])
    - [packages/core/src/utils/promiseHelper.ts]       (module [PromiseHelper])
    - [webUsbWsdr.ts] / [webUsbLimeSdr.ts]             (modules [WebUsbWsdr], [WebUsbLimeSdr])
    - [webUsbBase.ts]                                  (modules [WebUsb], [TxPipeline], [CommandPool])
    - [webUsbDeviceManager.ts], [webUsb.ts]            (module [WebUsbDeviceManager])
    - [webUsbManager.ts]                               (module [WebUsbWorkerManager])
    - [controlWebUsb.ts]                               (module [ControlWebUsb])

    Conventions.  A JavaScript [number] that holds an integer is a [Z]; this is
    exact while magnitudes stay below 2^53, which byte lengths, offsets and
    sample counts do.  The 32-bit behaviour of the bit operators is written out
    ([JS.ToInt32]).  A [bigint] is a [Z] without any wrap-around.  Floating
    point sample values are rationals (module [Converters] says why this is
    exact for the two conversions).  Asynchronous methods are cut at their
    [await]s: every piece of code that runs without suspension is one
    transition of a step function on an explicit state. *)

From Stdlib Require Import ZArith List Bool Lia QArith Qround.
From stdpp Require Import base option list gmap strings.
Import ListNotations.

Local Open Scope Z_scope.

(* ===================================================================== *)
(** * Part I: the model                                                   *)
(* ===================================================================== *)

(** ** JavaScript arithmetic on integer-valued numbers *)
Module JS.

Definition ToInt32 (x : Z) : Z := (x + 2 ^ 31) mod 2 ^ 32 - 2 ^ 31.
Definition ToUint16 (x : Z) : Z := x mod 2 ^ 16.
Definition ToInt16 (x : Z) : Z := (x + 2 ^ 15) mod 2 ^ 16 - 2 ^ 15.
Definition ToUint8 (x : Z) : Z := x mod 2 ^ 8.
Definition ToBigUint64 (x : Z) : Z := x mod 2 ^ 64.
Definition ToUint32 (x : Z) : Z := x mod 2 ^ 32.

(** [a & b] *)
Definition band (a b : Z) : Z := Z.land (ToInt32 a) (ToInt32 b).
(** [a << n] *)
Definition shl (a n : Z) : Z := ToInt32 (Z.shiftl (ToInt32 a) (n mod 32)).
(** [(a / b) >> 0]: the quotient truncated toward zero, as a 32-bit integer *)
Definition div_sar0 (a b : Z) : Z := ToInt32 (Z.quot a b).
(** [a % b]: the sign follows the dividend *)
Definition rem (a b : Z) : Z := Z.rem a b.
(** [Math.floor(a / b)] and [Math.ceil(a / b)] for a positive [b] *)
Definition floor_div (a b : Z) : Z := a / b.
Definition ceil_div (a b : Z) : Z := - ((- a) / b).

(** What a throwing piece of code raises. *)
Inductive Exn : Type :=
  | Error (msg : string)
  | RangeError.

(** The outcome of a promise-returning function. *)
Inductive Outcome (A : Type) : Type :=
  | Resolved (v : A)
  | Rejected (e : Exn).
Arguments Resolved {A} v.
Arguments Rejected {A} e.

Definition is_resolved {A} (o : Outcome A) : bool :=
  match o with Resolved _ => true | Rejected _ => false end.

End JS.

(** ** Byte buffers and the views the code creates on them *)
Module Buf.

(** An [ArrayBuffer]: its bytes, each in 0..255. *)
Definition ArrayBuffer := list Z.

Definition byteLength (b : ArrayBuffer) : Z := Z.of_nat (length b).

(** [new XxxArray(buf, offset)] (no length argument) for an element size of
    [esz] bytes: the constructor throws a [RangeError] unless the offset is a
    non-negative multiple of the element size, the buffer length is a multiple
    of it too, and the offset is inside the buffer. *)
Definition typed_view_ok (esz : Z) (buf : ArrayBuffer) (offset : Z) : bool :=
  (0 <=? offset) && (offset mod esz =? 0) && (byteLength buf mod esz =? 0)
  && (offset <=? byteLength buf).

(** [new XxxArray(buf, offset, len)] for a buffer of [blen] bytes. *)
Definition typed_view_len_ok (esz blen offset len : Z) : bool :=
  (0 <=? offset) && (offset mod esz =? 0) && (0 <=? len)
  && (offset + len * esz <=? blen).

(** [new DataView(buf, offset, len)] *)
Definition data_view_ok (buf : ArrayBuffer) (offset len : Z) : bool :=
  (0 <=? offset) && (offset <=? byteLength buf) && (0 <=? len)
  && (offset + len <=? byteLength buf).

(** The [n] little-endian bytes of [v], low byte first. *)
Fixpoint le_bytes (n : nat) (v : Z) : list Z :=
  match n with
  | O => []
  | S n' => (v mod 256) :: le_bytes n' (v / 256)
  end.

(** The value of little-endian bytes. *)
Fixpoint le_value (bs : list Z) : Z :=
  match bs with
  | [] => 0
  | b :: bs' => b + 256 * le_value bs'
  end.

(** Overwrite [buf] from byte [off] on with [bs]; the callers have checked
    that the bytes fit. *)
Definition write_bytes (buf : ArrayBuffer) (off : Z) (bs : list Z) : ArrayBuffer :=
  firstn (Z.to_nat off) buf ++ bs ++ skipn (Z.to_nat off + length bs) buf.

Definition read_bytes (buf : ArrayBuffer) (off : Z) (n : nat) : list Z :=
  firstn n (skipn (Z.to_nat off) buf).

(** A [DataView] as the code receives it from a transfer. *)
Record DataView : Type := mkDataView {
  buffer : ArrayBuffer;
  byteOffset : Z;
  viewLength : Z
}.

(** [data.getBigUint64(pos, true)]: [None] stands for the [RangeError] of a
    read outside the view. *)
Definition getBigUint64 (d : DataView) (pos : Z) : option Z :=
  if (0 <=? pos) && (pos + 8 <=? viewLength d)
  then Some (le_value (read_bytes (buffer d) (byteOffset d + pos) 8))
  else None.

(** The [n] signed 16-bit elements of [new Int16Array(buf, off, n)]. *)
Fixpoint read_i16s (bs : list Z) (n : nat) : list Z :=
  match n with
  | O => []
  | S n' =>
      match bs with
      | lo :: hi :: rest => JS.ToInt16 (lo + 256 * hi) :: read_i16s rest n'
      | _ => []
      end
  end.

End Buf.

(** Modelled from the spec: the enumeration [DataType] of
    [packages/core/src/common/types.ts], which is not among the sources.  The
    spec names the two complex sample formats (16-bit integer pairs, 32-bit
    float pairs); the code under [src] also mentions [DataType.f32]. *)
Inductive DataType : Type := ci16 | cf32 | f32.

Definition DataType_eqb (a b : DataType) : bool :=
  match a, b with
  | ci16, ci16 | cf32, cf32 | f32, f32 => true
  | _, _ => false
  end.

(** [packages/core/src/common/defines.ts] *)
Definition CHUNK_SIZE : Z := 8192.
Definition FLOAT_SIZE : Z := 4.
Definition COMPLEX_FLOAT_SIZE : Z := 2 * FLOAT_SIZE.
Definition INT16_SIZE : Z := 2.
Definition COMPLEX_INT16_SIZE : Z := 2 * INT16_SIZE.

(** ** [converters.ts] *)
Module Converters.

(** An element of a [Float32Array].  A finite value is the rational it
    denotes.  Both conversions below are exact on such values: an [Int16]
    divided by 2^15 has at most 16 significant bits, so storing it into a
    [Float32Array] does not round; a float32 (24 significant bits) times 32767
    (15 bits) has at most 39 significant bits, so the binary64 product is the
    exact product. *)
Inductive Float : Type :=
  | Finite (q : Q)
  | NaN
  | PosInf
  | NegInf.

(** Storing a number into an [Int16Array]: [ToInt16], which maps the
    non-finite values to 0, truncates toward zero and wraps modulo 2^16. *)
Definition Qtrunc (q : Q) : Z := Z.quot (Qnum q) (Zpos (Qden q)).

Definition store_Int16 (x : Float) : Z :=
  match x with
  | Finite q => JS.ToInt16 (Qtrunc q)
  | _ => 0
  end.

Definition fmul (x : Float) (k : Z) : Float :=
  match x with
  | Finite q => Finite (q * inject_Z k)
  | other => other
  end.

(** One iteration of each loop. *)
Definition I16ToF32 (x : Z) : Float := Finite (x # 32768).
Definition F32ToI16 (y : Float) : Z := store_Int16 (fmul y 32767).

(** The loops write [len = min(input.length, output.length)] elements at the
    front of [output] and leave the rest of it as it was. *)
Definition convert_into {A B} (f : A -> B) (input : list A) (output : list B) : list B :=
  let len := Nat.min (length input) (length output) in
  map f (firstn len input) ++ skipn len output.

(** [bufferI16ToF32(input, outbuf)]; without [outbuf] a fresh array of the
    input's length is filled. *)
Definition bufferI16ToF32 (input : list Z) (outbuf : option (list Float)) : list Float :=
  match outbuf with
  | Some output => convert_into I16ToF32 input output
  | None => map I16ToF32 input
  end.

(** [bufferF32ToI16(input, outbuf)] *)
Definition bufferF32ToI16 (input : list Float) (outbuf : option (list Z)) : list Z :=
  match outbuf with
  | Some output => convert_into F32ToI16 input output
  | None => map F32ToI16 input
  end.

(** The conversion as the specification words it: [round(y * 32767)], wrapped
    to 16 bits.  [Math.round] is [floor(x + 1/2)]. *)
Definition spec_round (q : Q) : Z := Qfloor (q + (1 # 2)).
Definition spec_F32ToI16 (q : Q) : Z := JS.ToInt16 (spec_round (q * inject_Z 32767)).

(** [x > 1.0] and [x < -1.0] on an element; both are false on [NaN]. *)
Definition gt_one (x : Float) : bool :=
  match x with
  | Finite q => negb (Qle_bool q 1)
  | PosInf => true
  | _ => false
  end.

Definition lt_minus_one (x : Float) : bool :=
  match x with
  | Finite q => negb (Qle_bool (-1) q)
  | NegInf => true
  | _ => false
  end.

(** The value the loop of [clipF32Buffer] stores for an element, if any. *)
Definition clipped (x : Float) : option Float :=
  if gt_one x then Some (Finite 1)
  else if lt_minus_one x then Some (Finite (-1))
  else None.

(** One iteration: [buffer[i]] is read and [output[i]] possibly written; a
    store past the end of a typed array does nothing. *)
Definition clip_step (buffer output : list Float) (i : nat) : list Float :=
  match buffer !! i with
  | Some x => match clipped x with
              | Some y => <[i := y]> output
              | None => output
              end
  | None => output
  end.

(** [clipF32Buffer(buffer, outbuf)]: the output array afterwards, which is
    [buffer] itself when no [outbuf] is given. *)
Definition clipF32Buffer (buffer : list Float) (outbuf : option (list Float)) : list Float :=
  match outbuf with
  | Some output => fold_left (clip_step buffer) (seq 0 (length buffer)) output
  | None => fold_left (fun out i => clip_step out out i) (seq 0 (length buffer)) buffer
  end.

End Converters.

(** ** [webUsbBase.ts]: the static helpers of [WebUsb] and the buffer records *)
Module WebUsb.

Definition MAX_SEND_DATA_REQUEST : Z := 128.

Definition getSampleByteLength (datatype : DataType) : Z :=
  if DataType_eqb datatype cf32 then COMPLEX_FLOAT_SIZE else COMPLEX_INT16_SIZE.

Definition getSamplesCnt (datatype : DataType) (byteLength : Z) : Z :=
  JS.floor_div byteLength (getSampleByteLength datatype).

(** What one call of [fillData] stored at [outBufOffset] of the output. *)
Inductive Filled : Type :=
  | FilledI16 (l : list Z)
  | FilledF32 (l : list Converters.Float)
  | FilledNothing.

(** [WebUsb.fillData(outBufDataType, outBuf, outBufOffset, DataType.ci16,
    iqBuf, iqBufOffset, iqBufLength)]: the call with a [ci16] source, which is
    how both decoders call it.  Of the four branches the second (copy) and
    the fourth (conversion to float) can then be taken; any other output type
    stores nothing.  The output buffer is given by its byte length; [None] is
    the [RangeError] of a view that does not fit. *)
Definition fillData_from_ci16 (outBufDataType : DataType) (outLen outBufOffset : Z)
    (iqBuf : Buf.ArrayBuffer) (iqBufOffset iqBufLength : Z) : option Filled :=
  let src_ok := Buf.typed_view_len_ok 2 (Buf.byteLength iqBuf) iqBufOffset iqBufLength in
  let src := Buf.read_i16s (skipn (Z.to_nat iqBufOffset) iqBuf) (Z.to_nat iqBufLength) in
  match outBufDataType with
  | ci16 =>
      if Buf.typed_view_len_ok 2 outLen outBufOffset iqBufLength && src_ok
      then Some (FilledI16 src) else None
  | cf32 =>
      if Buf.typed_view_len_ok 4 outLen outBufOffset iqBufLength && src_ok
      then Some (FilledF32 (Converters.bufferI16ToF32 src None)) else None
  | f32 => Some FilledNothing
  end.

Record RXDecoderOptions : Type := mkRXOpts {
  extra_meta : option bool;
  datatype : option DataType;
  data : option Z;           (* the byte length of a caller-supplied output buffer *)
  id : option Z
}.

Record RXBuffer : Type := mkRXBuffer {
  rx_data_len : Z;                       (* byte length of [data] *)
  rx_filled : list (Z * Filled);         (* what was stored into [data], by offset *)
  rx_datatype : DataType;
  rx_id : Z;
  rx_samples : Z;
  rx_timestamp : Z;
  rx_overrun : Z;
  rx_realigned : Z;
  rx_dropped : Z;
  rx_recvsize : Z
}.

(** How [decodeRxData] ends. *)
Inductive DecodeResult : Type :=
  | Decoded (r : RXBuffer)
  | SizeMismatch (received : Z) (id : option Z)   (* [Promise.reject({err, id})] *)
  | Thrown (e : JS.Exn).

Definition opt_extra_meta (opts : option RXDecoderOptions) : bool :=
  match opts with
  | Some o => match extra_meta o with Some true => true | _ => false end
  | None => false
  end.

Definition opt_id (opts : option RXDecoderOptions) : option Z :=
  match opts with Some o => id o | None => None end.

Definition opt_datatype (opts : option RXDecoderOptions) : DataType :=
  match opts with
  | Some o => match datatype o with Some d => d | None => ci16 end
  | None => ci16
  end.

Definition opt_data (opts : option RXDecoderOptions) : option Z :=
  match opts with Some o => data o | None => None end.

Definition elementSize_of (datatype : DataType) : Z :=
  match datatype with
  | cf32 | f32 => COMPLEX_FLOAT_SIZE
  | ci16 => COMPLEX_INT16_SIZE
  end.

End WebUsb.

(** ** [webUsbWsdr.ts]: codec variant A *)
Module WebUsbWsdr.
Import WebUsb.

Definition MAX_PACKET_SIZE : Z := 0x000fffff.
Definition PACKET_ALIGN : Z := 512.
Definition PACKET_ALIGN_MASK : Z := PACKET_ALIGN - 1.
Definition MAX_PACKET_MASK : Z := MAX_PACKET_SIZE - PACKET_ALIGN_MASK.
Definition HEADER_SIZE : Z := 16.
Definition TRAILER_SIZE : Z := 8.
Definition TRAILER_EXTRA_SIZE : Z := 8.
Definition EXTRA_RX_DATA : Z := 512 + 2048.
Definition MIN_SAMPLES_IN_PKT : Z := 128.
Definition MAX_SAMPLES_IN_PKT : Z := 8192.

Definition getRXSamplesCount (samples : Z) : Z := samples.

Definition getRXPacketSize (samples : Z) : Z :=
  JS.band (samples * COMPLEX_INT16_SIZE + PACKET_ALIGN_MASK) MAX_PACKET_MASK + EXTRA_RX_DATA.

Definition getTXPacketSize (samples : Z) : Z :=
  samples * COMPLEX_INT16_SIZE + HEADER_SIZE.

(** [_fillHeader(buf, offset, discard_timestamp, timestamp, samples)]: the
    exception it raises, if any, and the buffer afterwards.  The two typed
    arrays are created after the two checks and before the first store; their
    stores use the byte order of the platform, which is little-endian. *)
Definition _fillHeader (buf : Buf.ArrayBuffer) (offset : Z) (discard_timestamp : bool)
    (timestamp : Z) (samples : Z) : option JS.Exn * Buf.ArrayBuffer :=
  let discard_timestamp_flag := if discard_timestamp then 1 else 0 in
  let bufLen := Buf.byteLength buf in
  if bufLen - offset <? HEADER_SIZE then
    (Some (JS.Error "WebUsbWsdr.fillHeader: Error: buffer slice must be at least 16 bytes"), buf)
  else if (samples <? MIN_SAMPLES_IN_PKT) || (samples >? MAX_SAMPLES_IN_PKT) then
    (Some (JS.Error "WebUsbWsdr.fillHeader: Error: count of samples in the packet must be in range"), buf)
  else if negb (Buf.typed_view_ok 2 buf offset) then (Some JS.RangeError, buf)
  else if negb (Buf.typed_view_ok 8 buf offset) then (Some JS.RangeError, buf)
  else
    let b1 := Buf.write_bytes buf offset
                (Buf.le_bytes 8 (JS.ToBigUint64 (Z.land timestamp 0x0000ffffffffffff))) in
    let b2 := Buf.write_bytes b1 (offset + 8) (Buf.le_bytes 8 0) in
    let b3 := Buf.write_bytes b2 (offset + 6)
                (Buf.le_bytes 2 (JS.ToUint16 (JS.shl discard_timestamp_flag 15
                                              + JS.band (samples - 1) 0x7fff))) in
    (None, b3).

(** The precondition the specification states for [_fillHeader]. *)
Definition header_precondition (buf : Buf.ArrayBuffer) (offset samples : Z) : Prop :=
  HEADER_SIZE <= Buf.byteLength buf - offset
  /\ MIN_SAMPLES_IN_PKT <= samples <= MAX_SAMPLES_IN_PKT.

(** What the two typed arrays of [_fillHeader] need besides. *)
Definition views_fit (buf : Buf.ArrayBuffer) (offset : Z) : Prop :=
  0 <= offset /\ offset mod 8 = 0 /\ Buf.byteLength buf mod 8 = 0.

(** [decodeRxData(data, samples, opts)] on a session whose running timestamp
    is [_timestamp]: how the call ends and the running timestamp afterwards. *)
Definition decodeRxData (_timestamp : Z) (data : Buf.DataView) (samples : Z)
    (opts : option RXDecoderOptions) : DecodeResult * Z :=
  let id := match opt_id opts with Some i => i | None => -1 end in
  let extraMeta := opt_extra_meta opts in
  let trailerSize := TRAILER_SIZE + (if extraMeta then TRAILER_EXTRA_SIZE else 0) in
  let dataSize := Buf.viewLength data - trailerSize in
  let samplesRecv := JS.div_sar0 dataSize COMPLEX_INT16_SIZE in
  if negb (samples =? samplesRecv) then (SizeMismatch samplesRecv (opt_id opts), _timestamp)
  else
    match Buf.getBigUint64 data dataSize with
    | None => (Thrown JS.RangeError, _timestamp)
    | Some ts =>
        let overrun := Z.land ts 0x0000000000ffffff in
        match (if extraMeta then Buf.getBigUint64 data (dataSize + TRAILER_SIZE) else Some 0) with
        | None => (Thrown JS.RangeError, _timestamp)
        | Some extra =>
            let realigned := if extraMeta then Z.shiftr extra (64 - 20) else 0 in
            let dropped := if extraMeta then Z.land extra 0xffff else 0 in
            let datatype := opt_datatype opts in
            let elementSize := elementSize_of datatype in
            let alloc := samplesRecv * elementSize in
            if (match opt_data opts with None => alloc <? 0 | Some _ => false end)
            then (Thrown JS.RangeError, _timestamp)
            else
              let outLen := match opt_data opts with Some l => l | None => alloc end in
              match fillData_from_ci16 datatype outLen 0 (Buf.buffer data) 0
                      (JS.div_sar0 dataSize INT16_SIZE) with
              | None => (Thrown JS.RangeError, _timestamp)
              | Some filled =>
                  let ts1 := _timestamp + overrun * samplesRecv in
                  let ret := {| rx_data_len := outLen;
                                rx_filled := [(0, filled)];
                                rx_datatype := datatype;
                                rx_id := id;
                                rx_samples := samplesRecv;
                                rx_timestamp := ts1;
                                rx_overrun := overrun;
                                rx_realigned := realigned;
                                rx_dropped := dropped;
                                rx_recvsize := Buf.viewLength data |} in
                  (Decoded ret, ts1 + samplesRecv)
              end
        end
    end.

End WebUsbWsdr.

(** ** [webUsbLimeSdr.ts]: codec variant B *)
Module WebUsbLimeSdr.
Import WebUsb.

Definition PACKET_SIZE : Z := 4096.
Definition HEADER_SIZE : Z := 16.
Definition SAMPLES_PER_PACKET : Z := (PACKET_SIZE - HEADER_SIZE) / COMPLEX_INT16_SIZE.
Definition ELEMENTS_PER_PACKET : Z := Z.shiftl SAMPLES_PER_PACKET 1.
Definition SAMPLES_MULTIPLY : Z := 4.

Definition getRXSamplesCount (samples : Z) : Z :=
  JS.floor_div samples SAMPLES_PER_PACKET * SAMPLES_PER_PACKET.

Definition getRXPacketSize (samples : Z) : Z :=
  JS.ceil_div samples SAMPLES_PER_PACKET * PACKET_SIZE.

Definition getTXPacketSize (samples : Z) : Z :=
  let lastPktFill := JS.rem samples SAMPLES_PER_PACKET in
  JS.floor_div samples SAMPLES_PER_PACKET * PACKET_SIZE
  + (if lastPktFill >? 0 then HEADER_SIZE + lastPktFill * COMPLEX_INT16_SIZE else 0).

(** [_fillHeader]: all stores go through one [DataView] of 16 bytes. *)
Definition _fillHeader (buf : Buf.ArrayBuffer) (offset : Z) (discard_timestamp : bool)
    (timestamp : Z) (samples : Z) : option JS.Exn * Buf.ArrayBuffer :=
  let discard_timestamp_flag := if discard_timestamp then 1 else 0 in
  let bufLen := Buf.byteLength buf in
  if bufLen - offset <? HEADER_SIZE then
    (Some (JS.Error "WebUsbLimeSdr.fillHeader: Error: buffer slice must be at least 16 bytes"), buf)
  else if negb (JS.rem samples 4 =? 0) then
    (Some (JS.Error "WebUsbLimeSdr.fillHeader: Error: count of samples must be a multiple of 4"), buf)
  else if negb (Buf.data_view_ok buf offset HEADER_SIZE) then (Some JS.RangeError, buf)
  else
    let b1 := Buf.write_bytes buf offset [JS.ToUint8 (JS.shl discard_timestamp_flag 4)] in
    let b2 := Buf.write_bytes b1 (offset + 1)
                (Buf.le_bytes 2 (JS.ToUint16 (samples * COMPLEX_INT16_SIZE))) in
    let b3 := Buf.write_bytes b2 (offset + 3) [0] in
    let b4 := Buf.write_bytes b3 (offset + 4) [0; 0; 0; 0] in
    let b5 := Buf.write_bytes b4 (offset + 8) (Buf.le_bytes 8 (JS.ToBigUint64 timestamp)) in
    (None, b5).

(** The precondition the specification states for [_fillHeader]. *)
Definition header_precondition (buf : Buf.ArrayBuffer) (offset samples : Z) : Prop :=
  HEADER_SIZE <= Buf.byteLength buf - offset /\ samples mod 4 = 0.

(** The state of the loop over the sub-packets of a received buffer. *)
Record LoopState : Type := mkLoop {
  prevPacketTS : Z;
  overrun : Z;
  freeSamples : Z;
  fills : list (Z * Filled)
}.

(** [n] more iterations of the loop from index [i]; [None] when a read or a
    view inside the loop raises a [RangeError]. *)
Fixpoint decode_loop (datatype : DataType) (outLen : Z) (data : Buf.DataView)
    (n : nat) (i : Z) (s : LoopState) : option LoopState :=
  match n with
  | O => Some s
  | S n' =>
      let elementSize := elementSize_of datatype in
      let outBufOffset := i * SAMPLES_PER_PACKET * elementSize in
      let packetOffset := i * PACKET_SIZE in
      match Buf.getBigUint64 data (packetOffset + 8) with
      | None => None
      | Some packetTS =>
          let samplesDelta := (packetTS - prevPacketTS s) - SAMPLES_PER_PACKET in
          let overrun' :=
            if samplesDelta >? 0
            then overrun s + JS.div_sar0 samplesDelta SAMPLES_PER_PACKET
            else overrun s in
          let samplesCur := Z.min SAMPLES_PER_PACKET (freeSamples s) in
          if samplesCur >? 0 then
            match fillData_from_ci16 datatype outLen outBufOffset (Buf.buffer data)
                    (packetOffset + HEADER_SIZE) (JS.shl samplesCur 1) with
            | None => None
            | Some f =>
                decode_loop datatype outLen data n' (i + 1)
                  {| prevPacketTS := packetTS; overrun := overrun';
                     freeSamples := freeSamples s - samplesCur;
                     fills := fills s ++ [(outBufOffset, f)] |}
            end
          else
            decode_loop datatype outLen data n' (i + 1)
              {| prevPacketTS := packetTS; overrun := overrun';
                 freeSamples := freeSamples s; fills := fills s |}
      end
  end.

(** [decodeRxData(data, samples, opts)] on a session whose
    [_lastRecvTimestamp] is given: how the call ends and [_lastRecvTimestamp]
    afterwards.  The class keeps no other timestamp. *)
Definition decodeRxData (_lastRecvTimestamp : Z) (data : Buf.DataView) (samples : Z)
    (opts : option RXDecoderOptions) : DecodeResult * Z :=
  let id := match opt_id opts with Some i => i | None => -1 end in
  let packetCnt := JS.div_sar0 (Buf.viewLength data) PACKET_SIZE in
  let dataSize := Buf.viewLength data - HEADER_SIZE * packetCnt in
  let samplesRecv := JS.div_sar0 dataSize COMPLEX_INT16_SIZE in
  if samplesRecv <? samples then
    (Thrown (JS.Error "WebUsbLimeSdr.parseRxData: Unexpected usb packet size"), _lastRecvTimestamp)
  else
    match Buf.getBigUint64 data 8 with
    | None => (Thrown JS.RangeError, _lastRecvTimestamp)
    | Some timestamp =>
        let datatype := opt_datatype opts in
        let elementSize := elementSize_of datatype in
        let alloc := samplesRecv * elementSize in
        if (match opt_data opts with None => alloc <? 0 | Some _ => false end)
        then (Thrown JS.RangeError, _lastRecvTimestamp)
        else
          let outLen := match opt_data opts with Some l => l | None => alloc end in
          match decode_loop datatype outLen data (Z.to_nat packetCnt) 0
                  {| prevPacketTS := timestamp; overrun := 0;
                     freeSamples := samples; fills := [] |} with
          | None => (Thrown JS.RangeError, _lastRecvTimestamp)
          | Some s =>
              let ret := {| rx_data_len := outLen;
                            rx_filled := fills s;
                            rx_datatype := datatype;
                            rx_id := id;
                            rx_samples := samplesRecv;
                            rx_timestamp := timestamp;
                            rx_overrun := overrun s;
                            rx_realigned := 0;
                            rx_dropped := 0;
                            rx_recvsize := Buf.viewLength data |} in
              (Decoded ret, timestamp)
          end
    end.

End WebUsbLimeSdr.

(** ** Received buffers used in the examples *)

(** A received buffer of variant B: one sub-packet whose header carries the
    timestamp 1000, followed by 1020 zero samples. *)
Definition lime_packet : Buf.DataView :=
  let buf := (WebUsbLimeSdr._fillHeader (repeat 0 (Z.to_nat 4096)) 0 false 1000 1020).2 in
  Buf.mkDataView buf 0 4096.

(** A received buffer of variant A: two samples and the 8-byte trailer, whose
    low 24 bits report an overrun of 3. *)
Definition wsdr_packet : Buf.DataView :=
  Buf.mkDataView ([1; 0; 2; 0; 3; 0; 4; 0] ++ [3; 0; 0; 0; 0; 0; 0; 0]) 0 16.

(** ** [circularbuffer.ts] *)
Module CircularBuffer.

(** The fields of the class.  [_buffer] is the JavaScript array: a slot that
    was never written holds [undefined], here [None].  The observer
    [onChangeSize] is called at the end of every mutating method; it does not
    touch the fields and is left out. *)
Record t (T : Type) : Type := mk {
  _bufferLen : Z;
  _buffer : list (option T);
  _bufferHead : Z;
  _bufferTail : Z;
  _bufferFull : bool
}.
Arguments mk {T}.
Arguments _bufferLen {T}.
Arguments _buffer {T}.
Arguments _bufferHead {T}.
Arguments _bufferTail {T}.
Arguments _bufferFull {T}.

Section Ops.
Context {T : Type}.

(** [arr[i] = v] on a JavaScript array: inside the array the slot is
    replaced, past its end the array grows (the slots in between are holes),
    and a negative index sets a property and leaves the elements alone. *)
Definition array_set (arr : list (option T)) (i : Z) (v : option T) : list (option T) :=
  if i <? 0 then arr
  else if i <? Z.of_nat (length arr) then <[Z.to_nat i := v]> arr
  else arr ++ repeat None (Z.to_nat i - length arr) ++ [v].

(** [arr[i]]: [undefined] outside the array. *)
Definition array_get (arr : list (option T)) (i : Z) : option T :=
  if i <? 0 then None else default None (arr !! Z.to_nat i).

(** [new CircularBuffer(len)] *)
Definition create (len : Z) : t T :=
  mk len (repeat None (Z.to_nat len)) 0 0 false.

Definition clear (b : t T) : t T :=
  mk (_bufferLen b) (_buffer b) 0 0 false.

Definition capacity (b : t T) : Z := _bufferLen b.

Definition size (b : t T) : Z :=
  if _bufferFull b then _bufferLen b
  else if _bufferHead b <=? _bufferTail b then _bufferTail b - _bufferHead b
  else _bufferTail b + _bufferLen b - _bufferHead b.

Definition isFull (b : t T) : bool := _bufferFull b.

Definition isEmpty (b : t T) : bool :=
  (_bufferHead b =? _bufferTail b) && negb (_bufferFull b).

Definition checkIndex (b : t T) (index : Z) : bool :=
  if _bufferFull b then (0 <=? index) && (index <? _bufferLen b)
  else if _bufferHead b <=? _bufferTail b
       then (_bufferHead b <=? index) && (index <? _bufferTail b)
       else ((0 <=? index) && (index <? _bufferTail b))
            || ((_bufferHead b <=? index) && (index <? _bufferLen b)).

Definition pop_front (cnt : Z) (b : t T) : t T :=
  if cnt <? 1 then b
  else
    let cntBiggerSize := cnt >=? size b in
    let head := JS.rem (_bufferHead b + cnt) (_bufferLen b) in
    let tail := if cntBiggerSize then head else _bufferTail b in
    mk (_bufferLen b) (_buffer b) head tail false.

Definition pop_back (cnt : Z) (b : t T) : t T :=
  if cnt <? 1 then b
  else
    let cntBiggerSize := cnt >=? size b in
    let cnt' := JS.rem cnt (_bufferLen b) in
    let tail := if _bufferTail b - cnt' <? 0
                then _bufferLen b - (cnt' - _bufferTail b)
                else _bufferTail b - cnt' in
    let head := if cntBiggerSize then tail else _bufferHead b in
    mk (_bufferLen b) (_buffer b) head tail false.

Definition push_front (val : T) (b : t T) : t T :=
  let b1 := if _bufferFull b then pop_back 1 b else b in
  let head := if _bufferHead b1 - 1 <? 0 then _bufferLen b1 - 1 else _bufferHead b1 - 1 in
  mk (_bufferLen b1) (array_set (_buffer b1) head (Some val)) head (_bufferTail b1)
     (head =? _bufferTail b1).

Definition push_back (val : T) (b : t T) : t T :=
  let b1 := if _bufferFull b then pop_front 1 b else b in
  let tail := JS.rem (_bufferTail b1 + 1) (_bufferLen b1) in
  mk (_bufferLen b1) (array_set (_buffer b1) (_bufferTail b1) (Some val))
     (_bufferHead b1) tail (_bufferHead b1 =? tail).

Definition front (b : t T) : option T := array_get (_buffer b) (_bufferHead b).

Definition back (b : t T) : option T :=
  array_get (_buffer b)
    (if _bufferTail b >? 0 then _bufferTail b - 1 else _bufferLen b - 1).

(** [set(index, val)]: [None] when it throws. *)
Definition set (index : Z) (val : T) (b : t T) : option (t T) :=
  let tabIndex := JS.rem (_bufferHead b + index) (_bufferLen b) in
  if checkIndex b tabIndex
  then Some (mk (_bufferLen b) (array_set (_buffer b) tabIndex (Some val))
                (_bufferHead b) (_bufferTail b) (_bufferFull b))
  else None.

(** [get(index)]: the outer [None] when it throws. *)
Definition get (index : Z) (b : t T) : option (option T) :=
  let tabIndex := JS.rem (_bufferHead b + index) (_bufferLen b) in
  if checkIndex b tabIndex then Some (array_get (_buffer b) tabIndex) else None.

Definition alloc_front (cnt : Z) (b : t T) : t T :=
  if cnt <? 1 then b
  else
    let free := capacity b - size b in
    let b1 :=
      if free <? cnt then
        let p := pop_back (cnt - free) b in
        mk (_bufferLen p) (_buffer p) (_bufferTail p) (_bufferTail p) (_bufferFull p)
      else
        let head := if _bufferHead b - cnt <? 0
                    then _bufferLen b - (cnt - _bufferHead b)
                    else _bufferHead b - cnt in
        mk (_bufferLen b) (_buffer b) head (_bufferTail b) (_bufferFull b) in
    mk (_bufferLen b1) (_buffer b1) (_bufferHead b1) (_bufferTail b1)
       (_bufferHead b1 =? _bufferTail b1).

Definition alloc_back (cnt : Z) (b : t T) : t T :=
  if cnt <? 1 then b
  else
    let free := capacity b - size b in
    let b1 :=
      if free <? cnt then
        let p := pop_front (cnt - free) b in
        mk (_bufferLen p) (_buffer p) (_bufferHead p) (_bufferHead p) (_bufferFull p)
      else
        mk (_bufferLen b) (_buffer b) (_bufferHead b)
           (JS.rem (_bufferTail b + cnt) (_bufferLen b)) (_bufferFull b) in
    mk (_bufferLen b1) (_buffer b1) (_bufferHead b1) (_bufferTail b1)
       (_bufferHead b1 =? _bufferTail b1).

(** The mutating methods, as data, with the arguments a caller passes. *)
Inductive Op : Type :=
  | OpClear
  | OpPushFront (val : T)
  | OpPushBack (val : T)
  | OpPopFront (cnt : Z)
  | OpPopBack (cnt : Z)
  | OpAllocFront (cnt : Z)
  | OpAllocBack (cnt : Z)
  | OpSet (index : Z) (val : T).

Definition apply (o : Op) (b : t T) : t T :=
  match o with
  | OpClear => clear b
  | OpPushFront v => push_front v b
  | OpPushBack v => push_back v b
  | OpPopFront c => pop_front c b
  | OpPopBack c => pop_back c b
  | OpAllocFront c => alloc_front c b
  | OpAllocBack c => alloc_back c b
  | OpSet i v => match set i v b with Some b' => b' | None => b end
  end.

Definition run (ops : list Op) (b : t T) : t T := fold_left (fun b o => apply o b) ops b.

(** The logical content, front first: the slots at [head], [head + 1], ...
    (modulo the length), [size] of them. *)
Definition to_list (b : t T) : list (option T) :=
  map (fun k => array_get (_buffer b) ((_bufferHead b + Z.of_nat k) mod _bufferLen b))
      (seq 0 (Z.to_nat (size b))).

(** The slot of the [k]-th element. *)
Definition slot_at (b : t T) (k : nat) : option T :=
  array_get (_buffer b) ((_bufferHead b + Z.of_nat k) mod _bufferLen b).

(** The indices are inside the array. *)
Definition wf (b : t T) : Prop :=
  0 < _bufferLen b
  /\ Z.of_nat (length (_buffer b)) = _bufferLen b
  /\ 0 <= _bufferHead b < _bufferLen b
  /\ 0 <= _bufferTail b < _bufferLen b
  /\ (_bufferFull b = true -> _bufferHead b = _bufferTail b).

End Ops.
End CircularBuffer.

(** ** [promiseHelper.ts] *)
Module PromiseHelper.

(** The map from correlation id to the pending continuation pair.  The pair
    itself is opaque here: an entry says that the promise of that id is still
    pending. *)
Record t : Type := mk {
  _promiseMap : gmap Z unit;
  _promiseMapId : Z
}.

Definition create : t := mk ∅ 0.

(** [createPromise()]: the id and the helper afterwards. *)
Definition createPromise (h : t) : Z * t :=
  let id := _promiseMapId h + 1 in
  (id, mk (<[id := tt]> (_promiseMap h)) id).

Definition getPromise (h : t) (id : Z) : option unit := _promiseMap h !! id.

Definition deletePromise (h : t) (id : Z) : t :=
  mk (delete id (_promiseMap h)) (_promiseMapId h).

(** [clear()]: a new map, and the ids start again from 1. *)
Definition clear (h : t) : t := mk ∅ 0.

(** The mutating methods, as data. *)
Inductive Op : Type :=
  | OpCreate
  | OpDelete (id : Z)
  | OpClear.

Definition apply (o : Op) (h : t) : t :=
  match o with
  | OpCreate => (createPromise h).2
  | OpDelete id => deletePromise h id
  | OpClear => clear h
  end.

Definition run (ops : list Op) (h : t) : t := fold_left (fun h o => apply o h) ops h.

(** The ids of the pending promises lie between 1 and the last id given. *)
Definition ids_bounded (h : t) : Prop :=
  0 <= _promiseMapId h
  /\ forall j, _promiseMap h !! j <> None -> 1 <= j <= _promiseMapId h.

End PromiseHelper.

(** ** [webUsbBase.ts]: the transmit pipeline of a session

    [sendTxRawPacket] and [_sendTxPacket] are cut at their suspension points.
    A submission is identified by the number of the call.  One transition is
    one piece of code that runs without suspension: the start of a call
    ([Submit]), the continuation of a caller whose wait promise was resolved
    ([Resume]), and the [then]/[catch] handler of a finished transfer
    ([Complete]).  Transitions may interleave in any order. *)
Module TxPipeline.

(** A caller suspended in [await this.waitForChangeSendDataReq()]. *)
Inductive Sub : Type :=
  | Waiting    (* its promise is pending *)
  | Woken.     (* its promise was resolved; the continuation has not run yet *)

Record State : Type := mk {
  _sendDataReqCnt : Z;
  _onChangeSendDataReq : option nat;  (* the caller the installed callback resolves *)
  out_ : Z;
  in_ : Z;
  suspended : gmap nat Sub;
  inflight : list nat;                (* calls whose [transferOut] is outstanding *)
  dropped : list nat;                 (* calls rejected with "packet dropped" *)
  finished : list (nat * bool);       (* calls whose transfer ended: resolved or rejected *)
  next_id : nat
}.

Definition init : State := mk 0 None 0 0 ∅ [] [] [] 0.

(** One outstanding transfer ends: its entry leaves the list. *)
Fixpoint remove_first (id : nat) (l : list nat) : list nat :=
  match l with
  | [] => []
  | x :: l' => if Nat.eqb x id then l' else x :: remove_first id l'
  end.

(** [set sendDataReqCnt(val)]: the callback, when one is installed, runs
    first (it resolves the waiter's promise and uninstalls itself), then the
    counter is stored. *)
Definition set_sendDataReqCnt (val : Z) (s : State) : State :=
  match _onChangeSendDataReq s with
  | Some w =>
      mk val None (out_ s) (in_ s) (<[w := Woken]> (suspended s))
         (inflight s) (dropped s) (finished s) (next_id s)
  | None =>
      mk val None (out_ s) (in_ s) (suspended s)
         (inflight s) (dropped s) (finished s) (next_id s)
  end.

(** [++this.sendDataReqCnt; ++this.out; return this._sendTxPacket(pkt)] *)
Definition start (id : nat) (s : State) : State :=
  let s1 := set_sendDataReqCnt (_sendDataReqCnt s + 1) s in
  mk (_sendDataReqCnt s1) (_onChangeSendDataReq s1) (out_ s1 + 1) (in_ s1)
     (delete id (suspended s1)) (inflight s1 ++ [id]) (dropped s1) (finished s1)
     (next_id s1).

(** [while (this.sendDataReqCnt >= MAX) await this.waitForChangeSendDataReq()]
    up to the next suspension, followed by [start] when the loop ends. *)
Definition wait_or_start (id : nat) (s : State) : State :=
  if _sendDataReqCnt s >=? WebUsb.MAX_SEND_DATA_REQUEST then
    mk (_sendDataReqCnt s) (Some id) (out_ s) (in_ s) (<[id := Waiting]> (suspended s))
       (inflight s) (dropped s) (finished s) (next_id s)
  else start id s.

Inductive Event : Type :=
  | Submit (allowDrop : bool)          (* a call of [sendTxRawPacket] *)
  | Resume (id : nat)                  (* the continuation of a woken caller *)
  | Complete (id : nat) (ok : bool).   (* the transfer of call [id] ended *)

Definition step (e : Event) (s : State) : State :=
  match e with
  | Submit allowDrop =>
      let id := next_id s in
      let s0 := mk (_sendDataReqCnt s) (_onChangeSendDataReq s) (out_ s) (in_ s)
                   (suspended s) (inflight s) (dropped s) (finished s) (S id) in
      if _sendDataReqCnt s >=? WebUsb.MAX_SEND_DATA_REQUEST then
        if allowDrop then
          mk (_sendDataReqCnt s0) (_onChangeSendDataReq s0) (out_ s0) (in_ s0)
             (suspended s0) (inflight s0) (dropped s0 ++ [id]) (finished s0) (next_id s0)
        else wait_or_start id s0
      else start id s0
  | Resume id =>
      match suspended s !! id with
      | Some Woken => wait_or_start id s
      | _ => s
      end
  | Complete id ok =>
      if bool_decide (id ∈ inflight s) then
        let s1 := set_sendDataReqCnt (_sendDataReqCnt s - 1) s in
        mk (_sendDataReqCnt s1) (_onChangeSendDataReq s1) (out_ s1) (in_ s1 + 1)
           (suspended s1) (remove_first id (inflight s1)) (dropped s1)
           (finished s1 ++ [(id, ok)]) (next_id s1)
      else s
  end.

Definition run (evs : list Event) (s : State) : State :=
  fold_left (fun s e => step e s) evs s.

Definition is_complete (e : Event) : bool :=
  match e with Complete _ _ => true | _ => false end.

(** The counter is the number of outstanding transfers and stays within the
    configured maximum. *)
Definition tx_inv (s : State) : Prop :=
  _sendDataReqCnt s = Z.of_nat (length (inflight s))
  /\ _sendDataReqCnt s <= WebUsb.MAX_SEND_DATA_REQUEST.

End TxPipeline.

(** ** [webUsbBase.ts]: the command channel of a session

    [sendCommand], [runCommandPool] and [_sendCommand] are cut at their
    [await]s.  Every call of [runCommandPool] that passes the test of
    [_sendCommandInProcess] is an activation of the loop; it is suspended
    either inside [_sendCommand] (awaiting the native call, or awaiting the
    parsed reply) or in the loop itself (awaiting the promise of
    [_sendCommand], which is already settled).  A transition runs one piece of
    code up to its next suspension. *)
Module CommandPool.

(** A queued request: [req] and the continuation pair made by [sendCommand],
    which the number of the call stands for. *)
Record CommandRequest : Type := mkReq {
  cmd_id : nat;
  req : Z
}.

(** What [_sendCommand] returns: the reply of the firmware, or [{error: ..}]. *)
Inductive Reply : Type :=
  | ReplyOk (payload : Z)     (* [rep['error'] === undefined] *)
  | ReplyErr (err : Z)        (* an object with an [error] field *)
  | ReplyNull.                (* [null]: reading [rep['error']] throws *)

(** [JSON.parse(AsciiToString(out_res))] *)
Inductive Parse : Type :=
  | Parsed (r : Reply)
  | ParseThrows.

(** Where an activation of [runCommandPool] is suspended. *)
Inductive Kont : Type :=
  | AwaitNative (c : CommandRequest)
      (* in [_sendCommand]: [await this.module.ccall("send_command", ..)] *)
  | AwaitParse (c : CommandRequest) (r : Reply)
      (* in [_sendCommand]: [ret = await JSON.parse(out_res_str)] *)
  | AwaitSend (c : CommandRequest) (r : option Reply).
      (* in the loop: [await this._sendCommand(com_req.req)], whose promise is
         fulfilled with [Some rep] or rejected ([None]) *)

(** What an observer of the session sees. *)
Inductive Obs : Type :=
  | NativeBegin (c : nat)     (* [ccall("send_command")] is entered for request [c] *)
  | NativeEnd (c : nat)       (* its promise is settled *)
  | Resolve (c : nat) (payload : Z)   (* [com_req.resolve(rep)] *)
  | Reject (c : nat).                 (* [com_req.reject(errmsg)] *)

Record State : Type := mk {
  _commands : CircularBuffer.t CommandRequest;
  _sendCommandInProcess : bool;
  module_device : bool;          (* [this.module] and [this.device] are defined *)
  pools : gmap nat Kont;         (* the suspended activations *)
  next_pool : nat;
  next_cmd : nat;
  log : list Obs
}.

(** A session after [open]: [new CircularBuffer<CommandRequest>(100)]. *)
Definition init (module_device : bool) : State :=
  mk (CircularBuffer.create 100) false module_device ∅ 0 0 [].

(** The loop of [runCommandPool] as activation [k] runs it, from the test of
    the [while] to the next suspension or to the end of the method.  A front
    slot holding [undefined] is popped without a call; [fuel] bounds these
    iterations by the length of the queue. *)
Fixpoint pool_loop (fuel : nat) (k : nat) (s : State) : State :=
  if CircularBuffer.isEmpty (_commands s) then
    mk (_commands s) false (module_device s) (delete k (pools s))
       (next_pool s) (next_cmd s) (log s)
  else
    match CircularBuffer.front (_commands s) with
    | Some com_req =>
        (* [_sendCommand(com_req.req)] up to its first suspension *)
        if module_device s then
          mk (_commands s) true (module_device s)
             (<[k := AwaitNative com_req]> (pools s))
             (next_pool s) (next_cmd s) (log s ++ [NativeBegin (cmd_id com_req)])
        else
          mk (_commands s) true (module_device s)
             (<[k := AwaitSend com_req (Some (ReplyErr (-1)))]> (pools s))
             (next_pool s) (next_cmd s) (log s)
    | None =>
        match fuel with
        | O => s
        | S fuel' =>
            pool_loop fuel' k
              (mk (CircularBuffer.pop_front 1 (_commands s)) (_sendCommandInProcess s)
                  (module_device s) (pools s) (next_pool s) (next_cmd s) (log s))
        end
    end.

Definition loop_fuel (s : State) : nat :=
  S (Z.to_nat (CircularBuffer.size (_commands s))).

(** [runCommandPool()] up to its first suspension. *)
Definition runCommandPool (s : State) : State :=
  if _sendCommandInProcess s then s
  else
    let k := next_pool s in
    let s1 := mk (_commands s) true (module_device s) (pools s) (S k) (next_cmd s) (log s) in
    pool_loop (loop_fuel s1) k s1.

(** [sendCommand(req)] *)
Definition sendCommand (r : Z) (s : State) : State :=
  let com_req := mkReq (next_cmd s) r in
  runCommandPool
    (mk (CircularBuffer.push_back com_req (_commands s)) (_sendCommandInProcess s)
        (module_device s) (pools s) (next_pool s) (S (next_cmd s)) (log s)).

(** The settlement of a request's continuation by the loop. *)
Definition settle (c : CommandRequest) (r : option Reply) : Obs :=
  match r with
  | Some (ReplyOk payload) => Resolve (cmd_id c) payload
  | Some (ReplyErr _) => Reject (cmd_id c)
  | Some ReplyNull => Reject (cmd_id c)
  | None => Reject (cmd_id c)
  end.

Inductive Event : Type :=
  | EvSendCommand (r : Z)
      (* a call of [sendCommand] *)
  | EvNativeDone (k : nat) (res : Z) (out : Parse)
      (* the native call of activation [k] returns [res]; [out] is what
         parsing the reply buffer gives *)
  | EvResume (k : nat).
      (* the continuation of activation [k] runs *)

Definition step (e : Event) (s : State) : State :=
  match e with
  | EvSendCommand r => sendCommand r s
  | EvNativeDone k res out =>
      match pools s !! k with
      | Some (AwaitNative c) =>
          let lg := log s ++ [NativeEnd (cmd_id c)] in
          if negb (res =? 0) then
            (* [ret = { error: res }]; free; flag off; return *)
            mk (_commands s) false (module_device s)
               (<[k := AwaitSend c (Some (ReplyErr res))]> (pools s))
               (next_pool s) (next_cmd s) lg
          else
            match out with
            | ParseThrows =>
                mk (_commands s) (_sendCommandInProcess s) (module_device s)
                   (<[k := AwaitSend c None]> (pools s))
                   (next_pool s) (next_cmd s) lg
            | Parsed r =>
                mk (_commands s) (_sendCommandInProcess s) (module_device s)
                   (<[k := AwaitParse c r]> (pools s))
                   (next_pool s) (next_cmd s) lg
            end
      | _ => s
      end
  | EvResume k =>
      match pools s !! k with
      | Some (AwaitParse c r) =>
          (* free; [this._sendCommandInProcess = false; return ret] *)
          mk (_commands s) false (module_device s)
             (<[k := AwaitSend c (Some r)]> (pools s))
             (next_pool s) (next_cmd s) (log s)
      | Some (AwaitSend c r) =>
          (* settle the continuation, [this._commands.pop_front()], loop *)
          let s1 := mk (CircularBuffer.pop_front 1 (_commands s)) (_sendCommandInProcess s)
                       (module_device s) (pools s) (next_pool s) (next_cmd s)
                       (log s ++ [settle c r]) in
          pool_loop (loop_fuel s1) k s1
      | _ => s
      end
  end.

Definition run (evs : list Event) (s : State) : State :=
  fold_left (fun s e => step e s) evs s.

(** The native round trips in progress: the activations awaiting [ccall]. *)
Definition is_native (k : Kont) : bool :=
  match k with AwaitNative _ => true | _ => false end.

Definition natives_in_progress (s : State) : nat :=
  length (filter (fun p => is_native p.2 = true) (map_to_list (pools s))).

(** The requests the queue holds, front first. *)
Definition queued (s : State) : list (option CommandRequest) :=
  CircularBuffer.to_list (_commands s).

(** The request an observation is about, and the request an activation
    holds. *)
Definition obs_id (o : Obs) : nat :=
  match o with
  | NativeBegin c => c
  | NativeEnd c => c
  | Resolve c _ => c
  | Reject c => c
  end.

Definition kont_req (k : Kont) : CommandRequest :=
  match k with
  | AwaitNative c => c
  | AwaitParse c _ => c
  | AwaitSend c _ => c
  end.


(** The three pieces by which activation [k] takes a reply that parses. *)
Definition reply (k : nat) (rep : Reply) : list Event :=
  [EvNativeDone k 0 (Parsed rep); EvResume k; EvResume k].

(** Request [i] was issued and is gone: the queue does not hold it and no
    activation holds it. *)
Definition gone (i : nat) (s : State) : Prop :=
  CircularBuffer.wf (_commands s)
  /\ (forall c, In (Some c) (queued s) -> cmd_id c <> i)
  /\ (forall k a, pools s !! k = Some a -> cmd_id (kont_req a) <> i)
  /\ (i < next_cmd s)%nat.

(** [s'] comes after [s] without request [i]: the request is gone in [s'],
    and the log has grown by observations of other requests. *)
Definition after (i : nat) (s s' : State) : Prop :=
  gone i s'
  /\ exists l, log s' = log s ++ l /\ Forall (fun o => obs_id o <> i) l.

(** [close()] of the session, as far as the command channel goes: its
    first piece runs [this._commands.clear()] before anything is awaited. *)
Definition close_begin (s : State) : State :=
  mk (CircularBuffer.clear (_commands s)) (_sendCommandInProcess s) (module_device s)
     (pools s) (next_pool s) (next_cmd s) (log s).

(** A session at rest: nothing queued, the flag off. *)
Definition idle (s : State) : Prop :=
  CircularBuffer.wf (_commands s)
  /\ CircularBuffer.isEmpty (_commands s) = true
  /\ _sendCommandInProcess s = false.




(** The request whose native call a step from [s] to [s'] has entered, if it
    has entered one: the log has grown and ends with [NativeBegin];
    [_sendCommand] is called with the front of the queue, which stays there
    until the settlement. *)
Definition entered (s s' : State) : option CommandRequest :=
  if (length (log s) <? length (log s'))%nat then
    match List.last (log s') (Reject 0) with
    | NativeBegin _ => CircularBuffer.front (_commands s')
    | _ => None
    end
  else None.

End CommandPool.

(** ** [webUsb.ts] and [webUsbDeviceManager.ts]: the registry of sessions *)
Module WebUsbDeviceManager.

(** The classes [webUsbMap] constructs. *)
Inductive DeviceClass : Type := WebUsbUsdr | WebUsbXsdr | WebUsbLimeSdr.

(** The fields of a session the registry reads. *)
Record Session : Type := mkSession {
  fd : Z;
  vid : Z;
  pid : Z;
  cls : DeviceClass
}.

(** [getDeviceHash({vendorId, productId})] *)
Definition getDeviceHash (vendorId productId : Z) : Z :=
  let v := JS.ToUint32 (JS.band vendorId 0xffff) in
  let p := JS.ToUint32 (JS.band productId 0xffff) in
  JS.ToUint32 (Z.lor (JS.shl v 16) (JS.ToInt32 p)).

(** [SDRDevicesIds] and [webUsbMap] *)
Definition SDRDevicesIds : list (Z * Z) :=
  [ (0xfaee, 0xdea9); (0xfaef, 0xdea9); (0x3727, 0x1001); (0x3727, 0x1011);
    (0x0403, 0x601f) ].

Definition webUsbMap : list (Z * DeviceClass) :=
  [ (getDeviceHash 0xfaee 0xdea9, WebUsbUsdr);
    (getDeviceHash 0xfaef 0xdea9, WebUsbXsdr);
    (getDeviceHash 0x3727 0x1001, WebUsbUsdr);
    (getDeviceHash 0x3727 0x1011, WebUsbXsdr);
    (getDeviceHash 0x0403 0x601f, WebUsbLimeSdr) ].

(** [new Map(entries).get(key)]: of two entries with one key the later wins. *)
Fixpoint map_get (key : Z) (entries : list (Z * DeviceClass)) : option DeviceClass :=
  match entries with
  | [] => None
  | (k, c) :: rest =>
      match map_get key rest with
      | Some c' => Some c'
      | None => if k =? key then Some c else None
      end
  end.

(** [getWebUsbInstance(key, {fd, module, vid, pid})] *)
Definition getWebUsbInstance (key : Z) (fd vid pid : Z) : option Session :=
  match map_get key webUsbMap with
  | None => None
  | Some c => Some (mkSession fd vid pid c)
  end.

(** [webUsbDevices]: a slot holds a session or [undefined]. *)
Definition Table := list (option Session).

(** [arr[i]] and [arr[i] = v] on the table. *)
Definition slot (devs : Table) (i : Z) : option Session :=
  CircularBuffer.array_get devs i.
Definition set_slot (devs : Table) (i : Z) (v : option Session) : Table :=
  CircularBuffer.array_set devs i v.

(** The first loop of [open]: the first session with the same ids. *)
Fixpoint find_opened (vid pid : Z) (devs : Table) : option Session :=
  match devs with
  | [] => None
  | Some dev :: rest =>
      if (WebUsbDeviceManager.vid dev =? vid) && (WebUsbDeviceManager.pid dev =? pid)
      then Some dev else find_opened vid pid rest
  | None :: rest => find_opened vid pid rest
  end.

(** The second loop: the index of the first slot holding [undefined], from
    index [i] on; -1 when there is none. *)
Fixpoint find_free (i : Z) (devs : Table) : Z :=
  match devs with
  | [] => -1
  | None :: _ => i
  | Some _ :: rest => find_free (i + 1) rest
  end.

(** How the first piece of [open] ends: with the value the call returns,
    or, for a new session, suspended at
    [await this.webUsbDevices[fd]?.open()]. *)
Inductive OpenResult : Type :=
  | NoModule                      (* returns [undefined]: the control module is missing *)
  | AlreadyOpen (dev : Session)   (* returns the session found in the table *)
  | Unsupported                   (* returns [undefined]: no class for these ids *)
  | Created (dev : Session).      (* the new session [dev] is stored in slot [fd dev];
                                     the call awaits [dev.open()] *)

(** [open(vid, pid)] up to [await this.webUsbDevices[fd]?.open()]: how this
    piece ends, and the table.  The session is created with the chosen [fd]
    and stored in its slot before anything is awaited. *)
Definition open (module_defined : bool) (vid pid : Z) (devs : Table) : OpenResult * Table :=
  if negb module_defined then (NoModule, devs)
  else
    match find_opened vid pid devs with
    | Some dev => (AlreadyOpen dev, devs)
    | None =>
        let fd0 := find_free 0 devs in
        let fd := if fd0 <? 0 then 0 else fd0 in
        match getWebUsbInstance (getDeviceHash vid pid) fd vid pid with
        | None => (Unsupported, set_slot devs fd None)
        | Some dev => (Created dev, set_slot devs fd (Some dev))
        end
    end.

(** What the call returns.  After the await a call that created a session
    runs [return this.webUsbDevices[fd]] with its local [fd]: the slot is read
    again, from the table [devs] as it is by then. *)
Definition open_return (r : OpenResult) (devs : Table) : option Session :=
  match r with
  | NoModule => None
  | AlreadyOpen dev => Some dev
  | Unsupported => None
  | Created dev => slot devs (fd dev)
  end.

(** The handle [open] chooses for a new session. *)
Definition chosen_fd (devs : Table) : Z :=
  if find_free 0 devs <? 0 then 0 else find_free 0 devs.

(** The session object is shared with the table: when the session's own
    [open] fails (its [catch] runs [this.fd = -1]), or when it is closed, its
    [fd] becomes -1 there too. *)
Definition invalidate (i : Z) (devs : Table) : Table :=
  match slot devs i with
  | Some dev => set_slot devs i (Some (mkSession (-1) (vid dev) (pid dev) (cls dev)))
  | None => devs
  end.

(** The last statement of [close(fd)]: [this.webUsbDevices[fd] = undefined],
    for an [fd] that passed the test at the start of [close]. *)
Definition clear_slot (i : Z) (devs : Table) : Table :=
  if (0 <=? i) && (i <? Z.of_nat (length devs)) then set_slot devs i None else devs.

(** The tables the registry can hold: from the empty array of the
    constructor, by the pieces of [open] and [close] in any interleaving. *)
Inductive reachable : Table -> Prop :=
  | reach_new : reachable []
  | reach_open module_defined vid pid devs :
      reachable devs -> reachable (open module_defined vid pid devs).2
  | reach_invalidate i devs :
      reachable devs -> reachable (invalidate i devs)
  | reach_clear i devs :
      reachable devs -> reachable (clear_slot i devs).

(** Slot [i] is the first one holding [undefined]; no slot holds it. *)
Definition first_free (devs : Table) (i : Z) : Prop :=
  0 <= i < Z.of_nat (length devs)
  /\ slot devs i = None
  /\ forall j, 0 <= j < i -> slot devs j <> None.

Definition no_free (devs : Table) : Prop :=
  forall j, 0 <= j < Z.of_nat (length devs) -> slot devs j <> None.

(** A stored session carries the index of its slot as handle, unless it was
    invalidated. *)
Definition handles_ok (devs : Table) : Prop :=
  forall j d, slot devs j = Some d -> fd d = j \/ fd d = -1.

(** [getDevice(fd)] *)
Definition getDevice (fd : Z) (devs : Table) : option Session :=
  if (fd <? 0) || (fd >=? Z.of_nat (length devs)) then None else slot devs fd.

(** [getDevices()]: the handle each stored session carries, in slot order. *)
Definition getDevices (devs : Table) : list Z :=
  omap (fun x : option Session => WebUsbDeviceManager.fd <$> x) devs.

(** [close(fd)] when no other call runs between its pieces: it returns
    [false] under the condition under which [getDevice] returns [undefined];
    otherwise the session is closed (its handle becomes -1), its slot is set
    to [undefined], and [true] is returned. *)
Definition close (fd : Z) (devs : Table) : bool * Table :=
  match getDevice fd devs with
  | None => (false, devs)
  | Some _ => (true, clear_slot fd (invalidate fd devs))
  end.

(** [closeAll()]: [close(fd)] for every index of the table. *)
Definition closeAll (devs : Table) : Table :=
  fold_left (fun d (i : nat) => (close (Z.of_nat i) d).2) (seq 0 (length devs)) devs.

End WebUsbDeviceManager.

(** ** [webUsbManager.ts]: the remote (worker) implementation of the façade *)
Module WebUsbWorkerManager.

(** [WebUsbRequestType] of [webUsb.worker.types.ts] *)
Inductive WebUsbRequestType : Type :=
  | START | STOP | OPEN | CLOSE | CLOSE_ALL
  | GET_DEV_NAME | GET_SERIAL_NUMBER | GET_RX_SAMPLES_COUNT
  | SEND_COMMAND | SEND_DEBUG_COMMAND | SUBMIT_RX_PACKET | SEND_TX_PACKET
  | GET_STREAM_STATUS | SET_STREAM_STATUS | GET_CONFIGURATION | GET_OPENED_DEVICE_LIST.

(** A posted request: its type and correlation id (the other fields do not
    influence the manager). *)
Record Request : Type := mkRequest {
  rtype : WebUsbRequestType;
  rid : Z
}.

(** The manager.  A [Worker] object is named by the order of its creation.
    [handshaken] is not a field of the class: it records, for the properties
    below, the workers whose [START] request was answered with ["ok"]. *)
Record State : Type := mk {
  worker : option nat;
  _promiseHelper : PromiseHelper.t;
  created : nat;                    (* [new Worker(..)] calls so far *)
  posted : list (nat * Request);    (* [postMessage] calls: the worker and the request *)
  listening : list nat;             (* workers carrying the manager's listeners *)
  terminated : list nat;
  handshaken : list nat
}.

(** How a façade method ends when it is called. *)
Inductive Result : Type :=
  | Throws (msg : string)       (* the returned promise is rejected at once *)
  | Returns (v : Z)             (* it is fulfilled at once ([-1], or 0 for [undefined]) *)
  | Pending (id : Z)            (* it is the pending promise of correlation id [id] *)
  | StartingWorker (id : Z).    (* [open] awaits the [START] handshake of id [id] *)

Definition not_running : string := "WebUsbManager: worker is not running".

Definition post (w : nat) (ty : WebUsbRequestType) (s : State) : Z * State :=
  let (id, h) := PromiseHelper.createPromise (_promiseHelper s) in
  (id, mk (worker s) h (created s) (posted s ++ [(w, mkRequest ty id)])
          (listening s) (terminated s) (handshaken s)).

(** [stopWorker()] *)
Definition stopWorker (s : State) : State :=
  match worker s with
  | Some w => (post w STOP s).2
  | None => s
  end.

(** [startWorker()]: the correlation id of its handshake and the manager. *)
Definition startWorker (s : State) : Z * State :=
  let s1 := stopWorker s in
  let w := created s1 in
  let s2 := mk (Some w) (_promiseHelper s1) (S w) (posted s1)
               (listening s1 ++ [w]) (terminated s1) (handshaken s1) in
  post w START s2.

(** The state the constructor leaves: the fields' initial values, then
    [this.startWorker()]. *)
Definition initial : State := mk None PromiseHelper.create 0 [] [] [] [].
Definition constructed : State := (startWorker initial).2.

(** The common shape of the methods:
    [if (!this.worker) throw ..; createPromise; postMessage; return ret]. *)
Definition request (ty : WebUsbRequestType) (s : State) : Result * State :=
  match worker s with
  | None => (Throws not_running, s)
  | Some w => let (id, s') := post w ty s in (Pending id, s')
  end.

Definition open (vendorId productId : option Z) (s : State) : Result * State :=
  match vendorId, productId with
  | Some _, Some _ =>
      match worker s with
      | None => let (id, s') := startWorker s in (StartingWorker id, s')
      | Some w => let (id, s') := post w OPEN s in (Pending id, s')
      end
  | _, _ => (Returns (-1), s)
  end.

Definition close (fd : Z) (s : State) : Result * State :=
  match worker s with
  | None => (Throws not_running, s)
  | Some w => if fd <? 0 then (Returns 0, s)
              else let (id, s') := post w CLOSE s in (Pending id, s')
  end.

Definition closeAll := request CLOSE_ALL.
Definition getName (fd : Z) := request GET_DEV_NAME.
Definition getSerialNumber (fd : Z) := request GET_SERIAL_NUMBER.
Definition getRXSamplesCount (fd samples : Z) := request GET_RX_SAMPLES_COUNT.
Definition sendCommand (fd req : Z) := request SEND_COMMAND.
Definition sendDebugCommand (fd req : Z) := request SEND_DEBUG_COMMAND.
Definition submitRxPacket (fd samples : Z) := request SUBMIT_RX_PACKET.
Definition sendTxPacket (fd data : Z) := request SEND_TX_PACKET.
Definition getStreamStatus (fd : Z) := request GET_STREAM_STATUS.
Definition setStreamStatus (fd status : Z) := request SET_STREAM_STATUS.
Definition getConfiguration (fd : Z) := request GET_CONFIGURATION.
Definition getOpenedDeviceList := request GET_OPENED_DEVICE_LIST.

(** The operations of the façade with their arguments. *)
Inductive Call : Type :=
  | CallOpen (vendorId productId : option Z)
  | CallClose (fd : Z)
  | CallCloseAll
  | CallGetName (fd : Z)
  | CallGetSerialNumber (fd : Z)
  | CallGetRXSamplesCount (fd samples : Z)
  | CallSendCommand (fd req : Z)
  | CallSendDebugCommand (fd req : Z)
  | CallSubmitRxPacket (fd samples : Z)
  | CallSendTxPacket (fd data : Z)
  | CallGetStreamStatus (fd : Z)
  | CallSetStreamStatus (fd status : Z)
  | CallGetConfiguration (fd : Z)
  | CallGetOpenedDeviceList.

Definition invoke (c : Call) (s : State) : Result * State :=
  match c with
  | CallOpen v p => open v p s
  | CallClose fd => close fd s
  | CallCloseAll => closeAll s
  | CallGetName fd => getName fd s
  | CallGetSerialNumber fd => getSerialNumber fd s
  | CallGetRXSamplesCount fd n => getRXSamplesCount fd n s
  | CallSendCommand fd r => sendCommand fd r s
  | CallSendDebugCommand fd r => sendDebugCommand fd r s
  | CallSubmitRxPacket fd n => submitRxPacket fd n s
  | CallSendTxPacket fd d => sendTxPacket fd d s
  | CallGetStreamStatus fd => getStreamStatus fd s
  | CallSetStreamStatus fd st => setStreamStatus fd st s
  | CallGetConfiguration fd => getConfiguration fd s
  | CallGetOpenedDeviceList => getOpenedDeviceList s
  end.

Definition is_open (c : Call) : bool :=
  match c with CallOpen _ _ => true | _ => false end.

(** The request type a call posts. *)
Definition request_type (c : Call) : WebUsbRequestType :=
  match c with
  | CallOpen _ _ => OPEN
  | CallClose _ => CLOSE
  | CallCloseAll => CLOSE_ALL
  | CallGetName _ => GET_DEV_NAME
  | CallGetSerialNumber _ => GET_SERIAL_NUMBER
  | CallGetRXSamplesCount _ _ => GET_RX_SAMPLES_COUNT
  | CallSendCommand _ _ => SEND_COMMAND
  | CallSendDebugCommand _ _ => SEND_DEBUG_COMMAND
  | CallSubmitRxPacket _ _ => SUBMIT_RX_PACKET
  | CallSendTxPacket _ _ => SEND_TX_PACKET
  | CallGetStreamStatus _ => GET_STREAM_STATUS
  | CallSetStreamStatus _ _ => SET_STREAM_STATUS
  | CallGetConfiguration _ => GET_CONFIGURATION
  | CallGetOpenedDeviceList => GET_OPENED_DEVICE_LIST
  end.

(** A call that returns at once whatever the worker: [open] without both
    ids, [close] of a negative handle. *)
Definition returns_early (c : Call) : bool :=
  match c with
  | CallOpen (Some _) (Some _) => false
  | CallOpen _ _ => true
  | CallClose fd => fd <? 0
  | _ => false
  end.

(** [onStopWorker()] *)
Definition onStopWorker (s : State) : State :=
  match worker s with
  | Some w =>
      mk None (_promiseHelper s) (created s) (posted s)
         (filter (fun x => x ≠ w) (listening s)) (terminated s ++ [w]) (handshaken s)
  | None => s
  end.

(** [onWorkerMessage(event)] for a response [{type, id, res}] sent by worker
    [from]; a worker without the manager's listener is not heard.  Settling
    the promise is the removal of its entry. *)
Definition onWorkerMessage (from : nat) (ty : WebUsbRequestType) (id : option Z)
    (ok : bool) (s : State) : State :=
  if bool_decide (from ∈ listening s) then
    let s1 := match ty with STOP => onStopWorker s | _ => s end in
    let h := match id with
             | Some i => match PromiseHelper.getPromise (_promiseHelper s) i with
                         | Some _ => PromiseHelper.deletePromise (_promiseHelper s1) i
                         | None => _promiseHelper s1
                         end
             | None => _promiseHelper s1
             end in
    let hs := match ty with
              | START => if ok then handshaken s1 ++ [from] else handshaken s1
              | _ => handshaken s1
              end in
    mk (worker s1) h (created s1) (posted s1) (listening s1) (terminated s1) hs
  else s.

(** A handshake has completed for the worker the manager holds. *)
Definition handshake_completed (s : State) : bool :=
  match worker s with
  | Some w => bool_decide (w ∈ handshaken s)
  | None => false
  end.

(** What happens to a manager: a call of a façade method, or a response
    [{type, id, res}] delivered from worker [from]. *)
Inductive Event : Type :=
  | EvCall (c : Call)
  | EvMessage (from : nat) (ty : WebUsbRequestType) (id : option Z) (ok : bool).

Definition step (e : Event) (s : State) : State :=
  match e with
  | EvCall c => (invoke c s).2
  | EvMessage from ty id ok => onWorkerMessage from ty id ok s
  end.

Definition run (evs : list Event) (s : State) : State :=
  fold_left (fun s e => step e s) evs s.

End WebUsbWorkerManager.

(** ** [controlWebUsb.ts]: the debounced parameter setter *)
Module ControlWebUsb.

Definition SET_PARAMETER_TIMEOUT : Z := 250.

(** The argument of [setParameter]: an object, or a function returning one.
    The object is a number here; a function reads the state of the
    application ([Env]) when it is called. *)
Definition Env := Z.
Inductive Args : Type :=
  | ArgsObject (v : Z)
  | ArgsFunction (f : Env -> Z).

(** [typeof args === 'function' ? args() : args] *)
Definition eval_args (a : Args) (env : Env) : Z :=
  match a with
  | ArgsObject v => v
  | ArgsFunction f => f env
  end.

Record DeferredParameter : Type := mkDeferred {
  timer : option nat;
  lastTime : Z
}.

(** A pending [setTimeout]: the closure keeps the [parm] and [args] of the
    call that created it. *)
Record Timeout : Type := mkTimeout {
  t_parm : string;
  t_args : Args
}.

(** A call [this.sendCommand(parm, a)] made by [setParameterNow]. *)
Record Sent : Type := mkSent {
  s_time : Z;
  s_parm : string;
  s_value : Z
}.

Record State : Type := mk {
  _changeParmTimers : gmap string DeferredParameter;
  timeouts : gmap nat Timeout;      (* the timers of the event loop set by this object *)
  next_timer : nat;
  sent : list Sent
}.

Definition init : State := mk ∅ ∅ 0 [].

(** [setParameterNow(parm, args)] at time [now] *)
Definition setParameterNow (now : Z) (env : Env) (parm : string) (args : Args)
    (s : State) : State :=
  mk (_changeParmTimers s) (timeouts s) (next_timer s)
     (sent s ++ [mkSent now parm (eval_args args env)]).

(** [setParameter(parm, args, now)] called when [Date.now()] is [curtime]. *)
Definition setParameter (curtime : Z) (env : Env) (parm : string) (args : Args)
    (now : bool) (s : State) : State :=
  if now then setParameterNow curtime env parm args s
  else
    let m := match _changeParmTimers s !! parm with
             | Some _ => _changeParmTimers s
             | None => <[parm := mkDeferred None 0]> (_changeParmTimers s)
             end in
    let defferedParm := default (mkDeferred None 0) (m !! parm) in
    if curtime - lastTime defferedParm >? SET_PARAMETER_TIMEOUT then
      setParameterNow curtime env parm args
        (mk (<[parm := mkDeferred (timer defferedParm) curtime]> m)
            (timeouts s) (next_timer s) (sent s))
    else
      match timer defferedParm with
      | None =>
          let id := next_timer s in
          mk (<[parm := mkDeferred (Some id) (lastTime defferedParm)]> m)
             (<[id := mkTimeout parm args]> (timeouts s)) (S id) (sent s)
      | Some _ => mk m (timeouts s) (next_timer s) (sent s)
      end.

(** The callback of timer [id] running when [Date.now()] is [curtime]. *)
Definition fire (curtime : Z) (env : Env) (id : nat) (s : State) : State :=
  match timeouts s !! id with
  | None => s
  | Some (mkTimeout parm args) =>
      let m := match _changeParmTimers s !! parm with
               | Some d => <[parm := mkDeferred None curtime]> (_changeParmTimers s)
               | None => _changeParmTimers s
               end in
      setParameterNow curtime env parm args
        (mk m (delete id (timeouts s)) (next_timer s) (sent s))
  end.

(** The part of [close()] that concerns the timers: every pending one is
    cleared and the map is emptied. *)
Definition close (s : State) : State := mk ∅ ∅ (next_timer s) (sent s).

Inductive Event : Type :=
  | EvSetParameter (curtime : Z) (env : Env) (parm : string) (args : Args) (now : bool)
  | EvTimer (curtime : Z) (env : Env) (id : nat)
  | EvClose.

Definition step (e : Event) (s : State) : State :=
  match e with
  | EvSetParameter t env parm args now => setParameter t env parm args now s
  | EvTimer t env id => fire t env id s
  | EvClose => close s
  end.

Definition run (evs : list Event) (s : State) : State :=
  fold_left (fun s e => step e s) evs s.


(** The values sent for a key, oldest first. *)
Definition sent_values (parm : string) (s : State) : list Z :=
  map s_value (filter (fun x => s_parm x = parm) (sent s)).


(** *** [getRequest] and [sendCommand]: the request objects and the stream
    status *)

(** The values of the properties of a request object: numbers, and flat
    objects of numbers such as [req_params].  The properties holding strings
    ([req_method], [req_data]) are left out of the objects. *)
Inductive Value : Type :=
  | VNum (n : Z)
  | VObj (o : gmap string Z).

Abbreviation Request := (gmap string Value).

(** [getRequest(req, args, ext_args)].  The object it returns is [req]
    itself: [Object.assign] has written [args] into its [req_params], when
    that is an object, and [ext_args] into [req].  ([Object.assign] to a
    number writes to a temporary wrapper.) *)
Definition getRequest (req : Request) (args ext_args : gmap string Z) : Request :=
  let ret := match req !! "req_params" with
             | Some (VObj p) => <["req_params" := VObj (args ∪ p)]> req
             | _ => req
             end in
  (VNum <$> ext_args) ∪ ret.

(** [req.req_params], when it is an object *)
Definition req_params (req : Request) : option (gmap string Z) :=
  match req !! "req_params" with
  | Some (VObj p) => Some p
  | _ => None
  end.

(** [ControlWebUsb.Requests[cmd]]: the static table names one object for
    each key ([table] gives its address), and the objects live in a store
    shared by every user of the class. *)
Definition template (table : gmap string Z) (heap : gmap Z Request) (cmd : string)
    : option (Z * Request) :=
  match table !! cmd with
  | Some a => match heap !! a with
              | Some t => Some (a, t)
              | None => None
              end
  | None => None
  end.

(** [StreamStatus] of [webUsbBase.ts] *)
Inductive StreamStatus : Type := INVALID | STOPPED | STARTED | PREPARED | PENDING.

Definition is_pending (st : StreamStatus) : bool :=
  match st with PENDING => true | _ => false end.

(** [(args as any).param === 0] *)
Definition param_is_0 (args : gmap string Z) : bool :=
  match args !! "param" with
  | Some n => n =? 0
  | None => false
  end.

(** [cmd === 'START_STREAMING' || cmd === 'STOP_STREAMING' ||
     (cmd === 'CONTROL_STREAMING' && args.param === 0)] *)
Definition is_stream (cmd : string) (args : gmap string Z) : bool :=
  String.eqb cmd "START_STREAMING" || String.eqb cmd "STOP_STREAMING"
  || (String.eqb cmd "CONTROL_STREAMING" && param_is_0 args).

(** The test under which [sendCommand] returns [{}] without sending. *)
Definition already (st : StreamStatus) (cmd : string) (args : gmap string Z) : bool :=
  match st with
  | STARTED => String.eqb cmd "CONTROL_STREAMING" && param_is_0 args
  | PREPARED => String.eqb cmd "START_STREAMING"
  | STOPPED => String.eqb cmd "STOP_STREAMING"
  | _ => false
  end.

(** The status written after a reply without [error]. *)
Definition status_after (cmd : string) (args : gmap string Z) (st : StreamStatus)
    : StreamStatus :=
  if String.eqb cmd "START_STREAMING" then PREPARED
  else if String.eqb cmd "STOP_STREAMING" then STOPPED
  else if String.eqb cmd "CONTROL_STREAMING" && param_is_0 args then STARTED
  else st.

(** What [await this.sendRawCommand(req)] gives: data, with or without an
    [error] property, or a rejection. *)
Inductive Raw : Type :=
  | RawData (error : bool)
  | RawRejected.

Inductive Result : Type :=
  | Throws            (* the promise of [sendCommand] is rejected *)
  | ReturnsEmpty      (* [return {}] of the stream commands *)
  | ReturnsData.      (* [return data] *)

(** The object seen by one call of [sendCommand] that runs alone, that is
    with no other call of a stream command between its statements: the
    descriptor, the store of the request objects, the stream status of the
    device the manager finds for [fd], and the requests handed to
    [sendRawCommand], by address. *)
Record Control : Type := mkControl {
  fd : Z;
  heap : gmap Z Request;
  streamStatus : StreamStatus;
  raw : list Z
}.

(** [while (await this.getStreamStatus() === 'PENDING') await sleep(0.01)]
    followed by [await this.getStreamStatus()].  No statement of the call
    writes the status here, so every round reads the same value; [fuel]
    bounds the rounds. *)
Fixpoint wait_not_pending (fuel : nat) (st : StreamStatus) : option StreamStatus :=
  if is_pending st then
    match fuel with
    | O => None
    | S fuel' => wait_not_pending fuel' st
    end
  else Some st.

(** [sendCommand] from [getRequest] on: [reply] is what the raw command
    gives. *)
Definition send_request (a : Z) (t : Request) (cmd : string) (args ext_args : gmap string Z)
    (reply : Raw) (c : Control) : Result * Control :=
  let c1 := mkControl (fd c) (<[a := getRequest t args ext_args]> (heap c))
                      (streamStatus c) (raw c ++ [a]) in
  match reply with
  | RawRejected => (Throws, c1)
  | RawData error =>
      if is_stream cmd args then
        (ReturnsData,
         mkControl (fd c1) (heap c1)
                   (if error then INVALID else status_after cmd args (streamStatus c1))
                   (raw c1))
      else (ReturnsData, c1)
  end.

(** [sendCommand(cmd, args, ext_args)] running alone; [None] when the call
    is still polling after [fuel] rounds. *)
Definition sendCommand (table : gmap string Z) (fuel : nat) (cmd : string)
    (args ext_args : gmap string Z) (reply : Raw) (c : Control)
    : option (Result * Control) :=
  if fd c <? 0 then Some (Throws, c)
  else
    match template table (heap c) cmd with
    | None => Some (Throws, c)
    | Some (a, t) =>
        if is_stream cmd args then
          match wait_not_pending fuel (streamStatus c) with
          | None => None
          | Some st =>
              if already st cmd args then Some (ReturnsEmpty, c)
              else
                Some (send_request a t cmd args ext_args reply
                        (mkControl (fd c) (heap c) PENDING (raw c)))
          end
        else Some (send_request a t cmd args ext_args reply c)
    end.

(** *** The commands of a control object in single mode

    [sendRawCommand(req)] goes through [WebUsbSingleManager.sendCommand] to
    [sendCommand] of the device the registry holds for [fd], if it holds
    one: the queued [com_req.req] is the address of the request object.
    [wire] lists, for each native call entered, the number of the request
    and what [JSON.stringify(req)] reads at that moment. *)
Record Single : Type := mkSingle {
  ctl_fd : Z;
  requests : gmap Z Request;
  device : option CommandPool.State;
  wire : list (nat * option Request)
}.

(** A piece of the device's command loop. *)
Definition pool_step (e : CommandPool.Event) (s : Single) : Single :=
  match device s with
  | None => s
  | Some d =>
      let d' := CommandPool.step e d in
      mkSingle (ctl_fd s) (requests s) (Some d')
               (wire s ++ match CommandPool.entered d d' with
                          | Some c => [(CommandPool.cmd_id c, requests s !! CommandPool.req c)]
                          | None => []
                          end)
  end.

(** [sendCommand(cmd, args, ext_args)] up to its first suspension.  A stream
    command stops at [await this.getStreamStatus()], before any write. *)
Definition sendCommand_begin (table : gmap string Z) (cmd : string)
    (args ext_args : gmap string Z) (s : Single) : Single :=
  if ctl_fd s <? 0 then s
  else
    match template table (requests s) cmd with
    | None => s
    | Some (a, t) =>
        if is_stream cmd args then s
        else
          pool_step (CommandPool.EvSendCommand a)
            (mkSingle (ctl_fd s) (<[a := getRequest t args ext_args]> (requests s))
                      (device s) (wire s))
    end.

Inductive SingleEvent : Type :=
  | EvCommand (cmd : string) (args ext_args : gmap string Z)
  | EvDevice (e : CommandPool.Event).

Definition single_step (table : gmap string Z) (e : SingleEvent) (s : Single) : Single :=
  match e with
  | EvCommand cmd args ext_args => sendCommand_begin table cmd args ext_args s
  | EvDevice e => pool_step e s
  end.

Definition single_run (table : gmap string Z) (evs : list SingleEvent) (s : Single) : Single :=
  fold_left (fun s e => single_step table e s) evs s.

(** The three pieces by which activation [k] takes a reply that parses. *)
Definition reply_events (k : nat) (rep : CommandPool.Reply) : list SingleEvent :=
  [EvDevice (CommandPool.EvNativeDone k 0 (CommandPool.Parsed rep));
   EvDevice (CommandPool.EvResume k); EvDevice (CommandPool.EvResume k)].

End ControlWebUsb.

(* ===================================================================== *)
(** * Part II: properties                                                 *)
(* ===================================================================== *)

(** ** Arithmetic of the JavaScript operators *)

Lemma ToInt32_small x : - 2 ^ 31 <= x < 2 ^ 31 -> JS.ToInt32 x = x.
Proof. intros H. unfold JS.ToInt32. rewrite Z.mod_small; lia. Qed.

Lemma ToInt32_range x : - 2 ^ 31 <= JS.ToInt32 x < 2 ^ 31.
Proof.
  unfold JS.ToInt32.
  pose proof (Z.mod_pos_bound (x + 2 ^ 31) (2 ^ 32) ltac:(lia)). lia.
Qed.

Lemma ToInt16_range x : - 2 ^ 15 <= JS.ToInt16 x < 2 ^ 15.
Proof.
  unfold JS.ToInt16.
  pose proof (Z.mod_pos_bound (x + 2 ^ 15) (2 ^ 16) ltac:(lia)). lia.
Qed.

Lemma ToInt16_congr x : (JS.ToInt16 x - x) mod 2 ^ 16 = 0.
Proof.
  unfold JS.ToInt16.
  rewrite (Z.mod_eq (x + 2 ^ 15) (2 ^ 16)) by lia.
  replace (x + 2 ^ 15 - 2 ^ 16 * ((x + 2 ^ 15) / 2 ^ 16) - 2 ^ 15 - x)
    with (- ((x + 2 ^ 15) / 2 ^ 16) * 2 ^ 16) by ring.
  apply Z.mod_mul. lia.
Qed.

Lemma band_nonneg x m : 0 <= m < 2 ^ 31 -> 0 <= JS.band x m <= m.
Proof.
  intros Hm. unfold JS.band. rewrite (ToInt32_small m) by lia.
  split.
  - apply Z.land_nonneg. right. lia.
  - destruct (Z.eq_dec m 0) as [-> | Hne].
    + rewrite Z.land_0_r. lia.
    + assert (Hsub : Z.land (JS.ToInt32 x) m = Z.land m (Z.land (JS.ToInt32 x) m)).
      { rewrite (Z.land_comm (JS.ToInt32 x) m), Z.land_assoc, Z.land_diag. reflexivity. }
      assert (H0 : 0 <= Z.land (JS.ToInt32 x) m) by (apply Z.land_nonneg; right; lia).
      pose proof (Z.sub_nocarry_ldiff m (Z.land (JS.ToInt32 x) m)) as Hs.
      assert (Hl : Z.ldiff (Z.land (JS.ToInt32 x) m) m = 0).
      { apply Z.bits_inj'. intros n Hn.
        rewrite Z.ldiff_spec, Z.land_spec, Z.bits_0.
        destruct (Z.testbit m n), (Z.testbit (JS.ToInt32 x) n); reflexivity. }
      specialize (Hs Hl).
      assert (0 <= Z.ldiff m (Z.land (JS.ToInt32 x) m)).
      { apply Z.ldiff_nonneg. left. lia. }
      lia.
Qed.

(** The mask of [getRXPacketSize] clears the low nine bits of a value below
    2^20. *)
Lemma land_align_mask x :
  0 <= x < 2 ^ 20 -> Z.land x WebUsbWsdr.MAX_PACKET_MASK = 512 * (x / 512).
Proof.
  intros Hx.
  change WebUsbWsdr.MAX_PACKET_MASK with (Z.ldiff (Z.ones 20) (Z.ones 9)).
  rewrite Z.ldiff_land, Z.land_assoc, Z.land_ones by lia.
  rewrite Z.mod_small by lia.
  rewrite <- Z.ldiff_land, Z.ldiff_ones_r by lia.
  rewrite Z.shiftl_mul_pow2, Z.shiftr_div_pow2 by lia.
  change (2 ^ 9) with 512. lia.
Qed.

(** ** Packet sizes (C8) *)

Lemma wsdr_rx_size_small samples :
  0 <= samples <= 262016 ->
  WebUsbWsdr.getRXPacketSize samples = 512 * ((samples * 4 + 511) / 512) + 2560.
Proof.
  intros H. unfold WebUsbWsdr.getRXPacketSize, JS.band.
  change COMPLEX_INT16_SIZE with 4. change WebUsbWsdr.PACKET_ALIGN_MASK with 511.
  change WebUsbWsdr.EXTRA_RX_DATA with 2560.
  rewrite (ToInt32_small (samples * 4 + 511)) by lia.
  rewrite (ToInt32_small WebUsbWsdr.MAX_PACKET_MASK) by (vm_compute; split; congruence).
  rewrite land_align_mask by lia. reflexivity.
Qed.

Lemma wsdr_rx_size_mono a b :
  0 <= a <= b -> b <= 262016 ->
  WebUsbWsdr.getRXPacketSize a <= WebUsbWsdr.getRXPacketSize b.
Proof.
  intros H Hb. rewrite !wsdr_rx_size_small by lia.
  pose proof (Z.div_le_mono (a * 4 + 511) (b * 4 + 511) 512 ltac:(lia) ltac:(lia)). lia.
Qed.

Lemma wsdr_rx_size_min samples : 2560 <= WebUsbWsdr.getRXPacketSize samples.
Proof.
  unfold WebUsbWsdr.getRXPacketSize. change WebUsbWsdr.EXTRA_RX_DATA with 2560.
  pose proof (band_nonneg (samples * COMPLEX_INT16_SIZE + WebUsbWsdr.PACKET_ALIGN_MASK)
                WebUsbWsdr.MAX_PACKET_MASK ltac:(vm_compute; split; congruence)).
  lia.
Qed.

Lemma lime_rx_size_mono a b :
  0 <= a <= b -> WebUsbLimeSdr.getRXPacketSize a <= WebUsbLimeSdr.getRXPacketSize b.
Proof.
  intros H. unfold WebUsbLimeSdr.getRXPacketSize, JS.ceil_div.
  change WebUsbLimeSdr.SAMPLES_PER_PACKET with 1020.
  change WebUsbLimeSdr.PACKET_SIZE with 4096.
  pose proof (Z.div_le_mono (- b) (- a) 1020 ltac:(lia) ltac:(lia)). lia.
Qed.

Lemma lime_tx_size_mono a b :
  0 <= a <= b -> WebUsbLimeSdr.getTXPacketSize a <= WebUsbLimeSdr.getTXPacketSize b.
Proof.
  intros H. unfold WebUsbLimeSdr.getTXPacketSize, JS.rem, JS.floor_div.
  change WebUsbLimeSdr.SAMPLES_PER_PACKET with 1020.
  change WebUsbLimeSdr.PACKET_SIZE with 4096.
  change WebUsbLimeSdr.HEADER_SIZE with 16.
  change COMPLEX_INT16_SIZE with 4.
  rewrite !Z.rem_mod_nonneg by lia.
  pose proof (Z.div_mod a 1020 ltac:(lia)) as Ea.
  pose proof (Z.div_mod b 1020 ltac:(lia)) as Eb.
  pose proof (Z.mod_pos_bound a 1020 ltac:(lia)) as Ba.
  pose proof (Z.mod_pos_bound b 1020 ltac:(lia)) as Bb.
  generalize dependent (a / 1020). generalize dependent (b / 1020).
  generalize dependent (a mod 1020). generalize dependent (b mod 1020).
  intros rb Bb ra Ba qb Eb qa Ea.
  destruct (Z.gtb_spec ra 0), (Z.gtb_spec rb 0); lia.
Qed.

Lemma lime_sizes_min samples :
  0 < samples ->
  4096 <= WebUsbLimeSdr.getRXPacketSize samples
  /\ 20 <= WebUsbLimeSdr.getTXPacketSize samples.
Proof.
  intros H. unfold WebUsbLimeSdr.getRXPacketSize, WebUsbLimeSdr.getTXPacketSize,
    JS.ceil_div, JS.rem, JS.floor_div.
  change WebUsbLimeSdr.SAMPLES_PER_PACKET with 1020.
  change WebUsbLimeSdr.PACKET_SIZE with 4096.
  change WebUsbLimeSdr.HEADER_SIZE with 16.
  change COMPLEX_INT16_SIZE with 4.
  rewrite Z.rem_mod_nonneg by lia.
  split.
  - pose proof (Z.div_le_mono (- samples) (- 1) 1020 ltac:(lia) ltac:(lia)) as Hd.
    change (-1 / 1020) with (-1) in Hd. lia.
  - pose proof (Z.div_mod samples 1020 ltac:(lia)) as Ea.
    pose proof (Z.mod_pos_bound samples 1020 ltac:(lia)) as Ba.
    generalize dependent (samples / 1020). generalize dependent (samples mod 1020).
    intros r Br q Eq.
    destruct (Z.gtb_spec r 0); lia.
Qed.

(** C8, as stated, fails twice: past 262016 samples the mask of variant A's
    [getRXPacketSize] wraps the size instead of capping it, and variant B's
    sizes are 0, below the 16 bytes of a header, for a sample count of 0. *)
Lemma packet_size_counterexample :
  0 <= 262016 <= 262017
  /\ WebUsbWsdr.getRXPacketSize 262017 < WebUsbWsdr.getRXPacketSize 262016
  /\ WebUsbLimeSdr.getRXPacketSize 0 < 16
  /\ WebUsbLimeSdr.getTXPacketSize 0 < 16.
Proof. vm_compute. repeat split; congruence. Qed.

(** C8 (amended): for non-negative sample counts [a <= b], the TX size of
    variant A and both sizes of variant B are non-decreasing, and variant A's
    RX size is non-decreasing up to 262016 samples (where the rounded payload
    reaches the 20-bit mask); variant A's sizes are at least the 16-byte
    header for every non-negative count (its RX size is at least 2560 for any
    count), variant B's for every positive count. *)
Theorem packet_size_monotone (a b : Z) :
  0 <= a <= b ->
  WebUsbWsdr.getTXPacketSize a <= WebUsbWsdr.getTXPacketSize b
  /\ WebUsbLimeSdr.getRXPacketSize a <= WebUsbLimeSdr.getRXPacketSize b
  /\ WebUsbLimeSdr.getTXPacketSize a <= WebUsbLimeSdr.getTXPacketSize b
  /\ (b <= 262016 -> WebUsbWsdr.getRXPacketSize a <= WebUsbWsdr.getRXPacketSize b)
  /\ 16 <= WebUsbWsdr.getTXPacketSize a
  /\ 16 <= WebUsbWsdr.getRXPacketSize a
  /\ (0 < a -> 16 <= WebUsbLimeSdr.getRXPacketSize a /\ 16 <= WebUsbLimeSdr.getTXPacketSize a).
Proof.
  intros H. repeat split.
  - unfold WebUsbWsdr.getTXPacketSize. change COMPLEX_INT16_SIZE with 4. lia.
  - apply lime_rx_size_mono; lia.
  - apply lime_tx_size_mono; lia.
  - intros Hb. apply wsdr_rx_size_mono; lia.
  - unfold WebUsbWsdr.getTXPacketSize.
    change COMPLEX_INT16_SIZE with 4. change WebUsbWsdr.HEADER_SIZE with 16. lia.
  - pose proof (wsdr_rx_size_min a). lia.
  - pose proof (lime_sizes_min a H0). lia.
  - pose proof (lime_sizes_min a H0). lia.
Qed.

Lemma packet_size_monotone_witness :
  0 <= 1000 <= 8192
  /\ WebUsbWsdr.getRXPacketSize 1000 <= WebUsbWsdr.getRXPacketSize 8192
  /\ 16 <= WebUsbLimeSdr.getTXPacketSize 1000.
Proof.
  pose proof (packet_size_monotone 1000 8192 ltac:(lia)) as H.
  split; [lia |].
  split; [apply H; lia | apply H; lia].
Defined.

(** ** Header writing (C5) *)

Lemma mod8_mod2 x : x mod 8 = 0 -> x mod 2 = 0.
Proof.
  intros H. apply Z.mod_divide; [lia |]. apply Z.mod_divide in H; [| lia].
  apply (Z.divide_trans 2 8 x); [exists 4; lia | exact H].
Qed.

Lemma typed_views_fit buf offset :
  WebUsbWsdr.HEADER_SIZE <= Buf.byteLength buf - offset ->
  (Buf.typed_view_ok 2 buf offset && Buf.typed_view_ok 8 buf offset = true
   <-> WebUsbWsdr.views_fit buf offset).
Proof.
  intros Hlen. change WebUsbWsdr.HEADER_SIZE with 16 in Hlen.
  unfold Buf.typed_view_ok, WebUsbWsdr.views_fit.
  rewrite !andb_true_iff, !Z.leb_le, !Z.eqb_eq.
  split.
  - tauto.
  - intros (H0 & Ho & Hb).
    pose proof (mod8_mod2 _ Ho). pose proof (mod8_mod2 _ Hb).
    repeat split; lia.
Qed.

Lemma wsdr_fillHeader_cases buf offset d ts n :
  let r := WebUsbWsdr._fillHeader buf offset d ts n in
  (~ WebUsbWsdr.header_precondition buf offset n
   /\ (exists msg, r.1 = Some (JS.Error msg)) /\ r.2 = buf)
  \/ (WebUsbWsdr.header_precondition buf offset n /\ ~ WebUsbWsdr.views_fit buf offset
      /\ r.1 = Some JS.RangeError /\ r.2 = buf)
  \/ (WebUsbWsdr.header_precondition buf offset n /\ WebUsbWsdr.views_fit buf offset
      /\ r.1 = None).
Proof.
  cbv zeta. unfold WebUsbWsdr._fillHeader, WebUsbWsdr.header_precondition.
  destruct (Z.ltb_spec (Buf.byteLength buf - offset) WebUsbWsdr.HEADER_SIZE) as [Hl | Hl].
  { left. split; [lia |]. split; [eexists; reflexivity | reflexivity]. }
  destruct (Z.ltb_spec n WebUsbWsdr.MIN_SAMPLES_IN_PKT) as [Hmin | Hmin]; cbn [orb].
  { left. split; [lia |]. split; [eexists; reflexivity | reflexivity]. }
  destruct (Z.gtb_spec n WebUsbWsdr.MAX_SAMPLES_IN_PKT) as [Hmax | Hmax].
  { left. split; [lia |]. split; [eexists; reflexivity | reflexivity]. }
  right. pose proof (typed_views_fit buf offset Hl) as Hv.
  destruct (Buf.typed_view_ok 2 buf offset) eqn:E2; cbn [negb].
  - destruct (Buf.typed_view_ok 8 buf offset) eqn:E8; cbn [negb].
    + right. repeat split; try lia. all: try (apply Hv; reflexivity).
    + left. split; [split; lia |]. split; [| split; reflexivity].
      intros Hf. apply Hv in Hf. discriminate.
  - left. split; [split; lia |]. split; [| split; reflexivity].
    intros Hf. apply Hv in Hf. discriminate.
Qed.

Lemma lime_fillHeader_cases buf offset d ts n :
  let r := WebUsbLimeSdr._fillHeader buf offset d ts n in
  (~ WebUsbLimeSdr.header_precondition buf offset n
   /\ (exists msg, r.1 = Some (JS.Error msg)) /\ r.2 = buf)
  \/ (WebUsbLimeSdr.header_precondition buf offset n /\ offset < 0
      /\ r.1 = Some JS.RangeError /\ r.2 = buf)
  \/ (WebUsbLimeSdr.header_precondition buf offset n /\ 0 <= offset /\ r.1 = None).
Proof.
  cbv zeta. unfold WebUsbLimeSdr._fillHeader, WebUsbLimeSdr.header_precondition, JS.rem.
  destruct (Z.ltb_spec (Buf.byteLength buf - offset) WebUsbLimeSdr.HEADER_SIZE) as [Hl | Hl].
  { left. split; [lia |]. split; [eexists; reflexivity | reflexivity]. }
  assert (Hrem : Z.rem n 4 = 0 <-> n mod 4 = 0).
  { rewrite Z.rem_divide, Z.mod_divide by lia. reflexivity. }
  destruct (Z.eqb_spec (Z.rem n 4) 0) as [Hr | Hr]; cbn [negb].
  2:{ left. split; [intros [_ Hm]; apply Hr, Hrem, Hm |].
      split; [eexists; reflexivity | reflexivity]. }
  right. apply Hrem in Hr.
  change WebUsbLimeSdr.HEADER_SIZE with 16 in *.
  unfold Buf.data_view_ok.
  destruct (Z.leb_spec 0 offset) as [Ho | Ho]; cbn [andb negb].
  - right.
    destruct (Z.leb_spec offset (Buf.byteLength buf)); [| lia].
    destruct (Z.leb_spec (offset + 16) (Buf.byteLength buf)); [| lia].
    cbn. repeat split; lia.
  - left. repeat split; lia.
Qed.

(** C5, as stated, fails for variant A: with a region of 20 bytes and 128
    samples the stated precondition holds, and [_fillHeader] still throws (the
    [BigUint64Array] cannot start at offset 4). *)
Lemma fillHeader_counterexample :
  WebUsbWsdr.header_precondition (repeat 0 24) 4 128
  /\ (WebUsbWsdr._fillHeader (repeat 0 24) 4 false 1 128).1 = Some JS.RangeError.
Proof.
  split.
  - unfold WebUsbWsdr.header_precondition. vm_compute. repeat split; congruence.
  - reflexivity.
Qed.

(** C5 (amended): [_fillHeader] leaves the buffer untouched whenever it
    throws, and it throws its validation [Error] exactly when the stated
    precondition is violated (region shorter than 16 bytes; variant A: sample
    count outside 128..8192; variant B: sample count not a multiple of 4).
    It completes exactly when, besides, the views it stores through can be
    created: for variant A the offset is non-negative and both the offset and
    the buffer length are multiples of 8, for variant B the offset is
    non-negative. *)
Theorem fillHeader_throws (buf : Buf.ArrayBuffer) (offset : Z) (d : bool) (ts n : Z) :
  let a := WebUsbWsdr._fillHeader buf offset d ts n in
  let b := WebUsbLimeSdr._fillHeader buf offset d ts n in
  ((exists msg, a.1 = Some (JS.Error msg)) <-> ~ WebUsbWsdr.header_precondition buf offset n)
  /\ (a.1 = None <-> WebUsbWsdr.header_precondition buf offset n /\ WebUsbWsdr.views_fit buf offset)
  /\ (a.1 <> None -> a.2 = buf)
  /\ ((exists msg, b.1 = Some (JS.Error msg)) <-> ~ WebUsbLimeSdr.header_precondition buf offset n)
  /\ (b.1 = None <-> WebUsbLimeSdr.header_precondition buf offset n /\ 0 <= offset)
  /\ (b.1 <> None -> b.2 = buf).
Proof.
  cbv zeta.
  pose proof (wsdr_fillHeader_cases buf offset d ts n) as Ha.
  pose proof (lime_fillHeader_cases buf offset d ts n) as Hb.
  cbv zeta in Ha, Hb.
  destruct (WebUsbWsdr._fillHeader buf offset d ts n) as [ea ba].
  destruct (WebUsbLimeSdr._fillHeader buf offset d ts n) as [eb bb].
  cbn [fst snd] in *.
  split; [| split; [| split; [| split; [| split]]]].
  - split.
    + intros [msg Hm]. destruct Ha as [(Hn & _) | [(_ & _ & He & _) | (_ & _ & He)]];
        [exact Hn | congruence | congruence].
    + intros Hn. destruct Ha as [(_ & He & _) | [(Hp & _) | (Hp & _)]];
        [exact He | contradiction | contradiction].
  - split.
    + intros He0.
      destruct Ha as [(_ & [m He] & _) | [(_ & _ & He & _) | (Hp & Hv & _)]];
        [congruence | congruence | exact (conj Hp Hv)].
    + intros [Hp Hv]. destruct Ha as [(Hn & _) | [(_ & Hnv & _) | (_ & _ & He)]];
        [contradiction | contradiction | exact He].
  - intros Hne. destruct Ha as [(_ & _ & Hbuf) | [(_ & _ & _ & Hbuf) | (_ & _ & He)]];
      [exact Hbuf | exact Hbuf | contradiction].
  - split.
    + intros [msg Hm]. destruct Hb as [(Hn & _) | [(_ & _ & He & _) | (_ & _ & He)]];
        [exact Hn | congruence | congruence].
    + intros Hn. destruct Hb as [(_ & He & _) | [(Hp & _) | (Hp & _)]];
        [exact He | contradiction | contradiction].
  - split.
    + intros He0.
      destruct Hb as [(_ & [m He] & _) | [(_ & _ & He & _) | (Hp & Ho & _)]];
        [congruence | congruence | exact (conj Hp Ho)].
    + intros [Hp Ho]. destruct Hb as [(Hn & _) | [(_ & Hneg & _) | (_ & _ & He)]];
        [contradiction | lia | exact He].
  - intros Hne. destruct Hb as [(_ & _ & Hbuf) | [(_ & _ & _ & Hbuf) | (_ & _ & He)]];
      [exact Hbuf | exact Hbuf | contradiction].
Qed.

(** ** Timestamps of decoded packets (C1) *)

Example wsdr_decode_example :
  WebUsbWsdr.decodeRxData 100 wsdr_packet 2 None
  = (WebUsb.Decoded
       {| WebUsb.rx_data_len := 8;
          WebUsb.rx_filled := [(0, WebUsb.FilledI16 [1; 2; 3; 4])];
          WebUsb.rx_datatype := ci16;
          WebUsb.rx_id := -1;
          WebUsb.rx_samples := 2;
          WebUsb.rx_timestamp := 106;
          WebUsb.rx_overrun := 3;
          WebUsb.rx_realigned := 0;
          WebUsb.rx_dropped := 0;
          WebUsb.rx_recvsize := 16 |}, 108).
Proof. reflexivity. Qed.

(** C1, as stated, fails for variant B: decoding one sub-packet of 1020
    samples with header timestamp 1000 on a session whose stored timestamp is
    0 returns the header's timestamp, not [0 + overrun * 1020], and stores
    that same timestamp, not the returned one advanced by 1020. *)
Lemma decode_timestamp_counterexample :
  exists r,
    WebUsbLimeSdr.decodeRxData 0 lime_packet 1020 None = (WebUsb.Decoded r, 1000)
    /\ WebUsb.rx_samples r = 1020
    /\ WebUsb.rx_overrun r = 0
    /\ WebUsb.rx_timestamp r = 1000
    /\ WebUsb.rx_timestamp r <> 0 + WebUsb.rx_overrun r * WebUsb.rx_samples r
    /\ 1000 <> WebUsb.rx_timestamp r + WebUsb.rx_samples r.
Proof.
  eexists. split; [vm_compute; reflexivity |].
  cbn. repeat split; lia.
Qed.

(** C1 (amended): a successful decode of variant A advances the running
    timestamp by overrun times the packet's sample count, returns that value
    as the buffer's timestamp, and then advances the running timestamp by the
    sample count, which is the requested count.  A successful decode of
    variant B returns the timestamp read from the first header of the
    received data and stores it as the last received timestamp; it adds
    nothing to it.  A decode that fails leaves the stored timestamp as it
    was. *)
Theorem decodeRxData_timestamp (ts : Z) (data : Buf.DataView) (samples : Z)
    (opts : option WebUsb.RXDecoderOptions) :
  match WebUsbWsdr.decodeRxData ts data samples opts with
  | (WebUsb.Decoded r, ts') =>
      WebUsb.rx_samples r = samples
      /\ WebUsb.rx_timestamp r = ts + WebUsb.rx_overrun r * WebUsb.rx_samples r
      /\ ts' = WebUsb.rx_timestamp r + WebUsb.rx_samples r
  | (_, ts') => ts' = ts
  end
  /\ match WebUsbLimeSdr.decodeRxData ts data samples opts with
     | (WebUsb.Decoded r, ts') =>
         Buf.getBigUint64 data 8 = Some (WebUsb.rx_timestamp r)
         /\ ts' = WebUsb.rx_timestamp r
     | (_, ts') => ts' = ts
     end.
Proof.
  split.
  - unfold WebUsbWsdr.decodeRxData.
    destruct (Z.eqb_spec samples
                (JS.div_sar0 (Buf.viewLength data
                              - (WebUsbWsdr.TRAILER_SIZE
                                 + (if WebUsb.opt_extra_meta opts
                                    then WebUsbWsdr.TRAILER_EXTRA_SIZE else 0)))
                   COMPLEX_INT16_SIZE)) as [Heq | Hne]; cbn [negb]; [| reflexivity].
    repeat case_match; simplify_eq; try reflexivity.
    all: cbn; repeat split; congruence.
  - unfold WebUsbLimeSdr.decodeRxData.
    repeat case_match; simplify_eq; try reflexivity.
    all: cbn; split; reflexivity.
Qed.

(** ** Sample conversion (C7) *)

(** Truncation toward zero is the floor of a non-negative value and the
    ceiling of a negative one. *)
Lemma Qtrunc_spec (q : Q) :
  Converters.Qtrunc q = if Qle_bool 0 q then Qfloor q else Qceiling q.
Proof.
  destruct q as [n d]. unfold Converters.Qtrunc, Qceiling, Qfloor, Qle_bool, Qopp.
  cbn [Qnum Qden]. rewrite Z.mul_1_r. change (0 * Z.pos d) with 0.
  destruct (Z.leb_spec 0 n) as [Hn | Hn].
  - apply Z.quot_div_nonneg; lia.
  - rewrite <- (Z.opp_involutive n) at 1.
    rewrite Z.quot_opp_l by lia.
    rewrite Z.quot_div_nonneg by lia. reflexivity.
Qed.

Lemma convert_into_spec {A B} (f : A -> B) (input : list A) (output : list B) :
  let len := Nat.min (length input) (length output) in
  let r := Converters.convert_into f input output in
  length r = length output
  /\ firstn len r = map f (firstn len input)
  /\ skipn len r = skipn len output.
Proof.
  cbv zeta. unfold Converters.convert_into.
  set (len := Nat.min (length input) (length output)).
  assert (Hl : length (map f (firstn len input)) = len).
  { rewrite length_map, length_firstn. unfold len. lia. }
  split; [| split].
  - rewrite length_app, Hl, length_skipn. unfold len. lia.
  - rewrite firstn_app, Hl, Nat.sub_diag. cbn [firstn].
    rewrite app_nil_r. apply firstn_all2. lia.
  - rewrite skipn_app, Hl, Nat.sub_diag. cbn [skipn].
    rewrite skipn_all2 by lia. reflexivity.
Qed.

(** C7, as stated, fails: a quarter converts to 8191, the product 8191.75
    truncated, while rounding it gives 8192. *)
Lemma sample_conversion_counterexample :
  Converters.bufferF32ToI16 [Converters.Finite (1 # 4)] None = [8191]
  /\ Converters.spec_F32ToI16 (1 # 4) = 8192.
Proof. split; reflexivity. Qed.

(** C7 (amended): both conversions write the first
    [min(input.length, output.length)] elements of the output and leave the
    rest.  [bufferI16ToF32] produces x/32768.  [bufferF32ToI16] produces the
    product y*32767 truncated toward zero (its floor when it is non-negative,
    its ceiling when it is negative; not rounded to nearest), wrapped to 16
    bits without clamping (2.0 becomes -2); the non-finite values become 0. *)
Theorem sample_conversion (input16 : list Z) (out32 : list Converters.Float)
    (input32 : list Converters.Float) (out16 : list Z) (x : Z) (y : Q) :
  let n16 := Nat.min (length input16) (length out32) in
  let r32 := Converters.bufferI16ToF32 input16 (Some out32) in
  let n32 := Nat.min (length input32) (length out16) in
  let r16 := Converters.bufferF32ToI16 input32 (Some out16) in
  let p := (y * inject_Z 32767)%Q in
  (length r32 = length out32
   /\ firstn n16 r32 = map Converters.I16ToF32 (firstn n16 input16)
   /\ skipn n16 r32 = skipn n16 out32)
  /\ (length r16 = length out16
      /\ firstn n32 r16 = map Converters.F32ToI16 (firstn n32 input32)
      /\ skipn n32 r16 = skipn n32 out16)
  /\ (exists v, Converters.I16ToF32 x = Converters.Finite v
                /\ (v * inject_Z 32768 == inject_Z x)%Q)
  /\ Converters.F32ToI16 (Converters.Finite y)
     = JS.ToInt16 (if Qle_bool 0 p then Qfloor p else Qceiling p)
  /\ - 2 ^ 15 <= Converters.F32ToI16 (Converters.Finite y) < 2 ^ 15
  /\ Converters.F32ToI16 (Converters.Finite (2 # 1)) = -2
  /\ Converters.F32ToI16 Converters.NaN = 0
  /\ Converters.F32ToI16 Converters.PosInf = 0
  /\ Converters.F32ToI16 Converters.NegInf = 0.
Proof.
  cbv zeta.
  split; [apply (convert_into_spec Converters.I16ToF32) |].
  split; [apply (convert_into_spec Converters.F32ToI16) |].
  split.
  { exists (x # 32768). split; [reflexivity |].
    unfold Qeq, Qmult, inject_Z. cbn [Qnum Qden]. lia. }
  split.
  { unfold Converters.F32ToI16, Converters.fmul, Converters.store_Int16.
    rewrite Qtrunc_spec. reflexivity. }
  split; [apply ToInt16_range |].
  repeat split; reflexivity.
Qed.

(** ** JavaScript arrays *)

Lemma lookup_repeat_None {T} (n i : nat) :
  default None (repeat (@None T) n !! i) = None.
Proof.
  revert i. induction n as [| n IH]; intros [| i]; cbn; auto.
Qed.

Lemma array_get_out {T} (arr : list (option T)) (i : Z) :
  Z.of_nat (length arr) <= i -> CircularBuffer.array_get arr i = None.
Proof.
  intros H. unfold CircularBuffer.array_get.
  destruct (Z.ltb_spec i 0); [reflexivity |].
  rewrite lookup_ge_None_2 by lia. reflexivity.
Qed.

Lemma array_get_set_eq {T} (arr : list (option T)) (i : Z) (v : option T) :
  0 <= i -> CircularBuffer.array_get (CircularBuffer.array_set arr i v) i = v.
Proof.
  intros Hi. unfold CircularBuffer.array_get, CircularBuffer.array_set.
  destruct (Z.ltb_spec i 0); [lia |].
  destruct (Z.ltb_spec i (Z.of_nat (length arr))).
  - rewrite list_lookup_insert_eq by lia. reflexivity.
  - rewrite lookup_app_r by lia.
    rewrite lookup_app_r by (rewrite repeat_length; lia).
    rewrite repeat_length.
    replace (Z.to_nat i - length arr - (Z.to_nat i - length arr))%nat with 0%nat by lia.
    reflexivity.
Qed.

Lemma array_get_set_ne {T} (arr : list (option T)) (i j : Z) (v : option T) :
  i <> j ->
  CircularBuffer.array_get (CircularBuffer.array_set arr i v) j
  = CircularBuffer.array_get arr j.
Proof.
  intros Hne. unfold CircularBuffer.array_get, CircularBuffer.array_set.
  destruct (Z.ltb_spec j 0); [reflexivity |].
  destruct (Z.ltb_spec i 0); [reflexivity |].
  destruct (Z.ltb_spec i (Z.of_nat (length arr))).
  - rewrite list_lookup_insert_ne by lia. reflexivity.
  - destruct (Z.ltb_spec j (Z.of_nat (length arr))).
    + rewrite lookup_app_l by lia. reflexivity.
    + rewrite lookup_app_r by lia.
      rewrite (lookup_ge_None_2 arr) by lia. cbn [default].
      destruct (Z.ltb_spec j i).
      * rewrite lookup_app_l by (rewrite repeat_length; lia).
        apply lookup_repeat_None.
      * rewrite lookup_ge_None_2; [reflexivity |].
        rewrite length_app, repeat_length. cbn [length]. lia.
Qed.

Lemma array_set_length_in {T} (arr : list (option T)) (i : Z) (v : option T) :
  i < Z.of_nat (length arr) ->
  length (CircularBuffer.array_set arr i v) = length arr.
Proof.
  intros Hi. unfold CircularBuffer.array_set.
  destruct (Z.ltb_spec i 0); [reflexivity |].
  destruct (Z.ltb_spec i (Z.of_nat (length arr))); [| lia].
  apply length_insert.
Qed.

Lemma array_set_length_end {T} (arr : list (option T)) (v : option T) :
  length (CircularBuffer.array_set arr (Z.of_nat (length arr)) v) = S (length arr).
Proof.
  unfold CircularBuffer.array_set.
  destruct (Z.ltb_spec (Z.of_nat (length arr)) 0); [lia |].
  destruct (Z.ltb_spec (Z.of_nat (length arr)) (Z.of_nat (length arr))); [lia |].
  rewrite !length_app, repeat_length. cbn [length]. lia.
Qed.

Lemma array_get_in {T} (arr : list (option T)) (i : Z) (x : T) :
  CircularBuffer.array_get arr i = Some x -> 0 <= i < Z.of_nat (length arr).
Proof.
  unfold CircularBuffer.array_get. intros H.
  destruct (Z.ltb_spec i 0); [discriminate |].
  destruct (arr !! Z.to_nat i) eqn:E; [| discriminate].
  apply lookup_lt_Some in E. lia.
Qed.

(** ** The registry of sessions (C6) *)

Section DeviceManager.
Import WebUsbDeviceManager.

Lemma find_free_spec (devs : Table) (i0 : Z) :
  0 <= i0 ->
  (find_free i0 devs = -1
   /\ forall k : nat, (k < length devs)%nat -> default None (devs !! k) <> None)
  \/ (i0 <= find_free i0 devs < i0 + Z.of_nat (length devs)
      /\ default None (devs !! Z.to_nat (find_free i0 devs - i0)) = None
      /\ forall k : nat, (k < Z.to_nat (find_free i0 devs - i0))%nat ->
                         default None (devs !! k) <> None).
Proof.
  revert i0. induction devs as [| [d |] devs IH]; intros i0 Hi0; cbn [find_free].
  - left. split; [reflexivity |]. cbn. lia.
  - destruct (IH (i0 + 1) ltac:(lia)) as [[Hr Hall] | (Hr & Hn & Hall)].
    + left. split; [exact Hr |]. intros [| k] Hk; cbn; [discriminate |].
      apply Hall. cbn in Hk. lia.
    + right. cbn [length].
      replace (Z.to_nat (find_free (i0 + 1) devs - i0))
        with (S (Z.to_nat (find_free (i0 + 1) devs - (i0 + 1)))) by lia.
      split; [lia |]. split; [exact Hn |].
      intros [| k] Hk; cbn; [discriminate |]. apply Hall. lia.
  - right. rewrite Z.sub_diag. cbn. split; [lia |]. split; [reflexivity |]. lia.
Qed.

Lemma chosen_fd_spec (devs : Table) :
  (first_free devs (chosen_fd devs))
  \/ (no_free devs /\ chosen_fd devs = 0).
Proof.
  unfold chosen_fd.
  destruct (find_free_spec devs 0 ltac:(lia)) as [[Hr Hall] | (Hr & Hn & Hall)].
  - right. rewrite Hr. cbn. split; [| reflexivity].
    intros j Hj. unfold slot, CircularBuffer.array_get.
    destruct (Z.ltb_spec j 0); [lia |]. apply Hall. lia.
  - left. rewrite Z.sub_0_r in *.
    assert (E : (find_free 0 devs <? 0) = false) by (apply Z.ltb_ge; lia).
    rewrite E. unfold first_free, slot, CircularBuffer.array_get. rewrite E.
    split; [lia |]. split; [exact Hn |].
    intros j Hj. destruct (Z.ltb_spec j 0); [lia |]. apply Hall. lia.
Qed.

Lemma chosen_fd_range (devs : Table) :
  0 <= chosen_fd devs /\ (chosen_fd devs < Z.of_nat (length devs) \/ chosen_fd devs = 0).
Proof.
  destruct (chosen_fd_spec devs) as [(Hr & _) | (_ & ->)]; lia.
Qed.

Lemma open_created (vid pid : Z) (devs devs' : Table) (dev : Session) :
  open true vid pid devs = (Created dev, devs') ->
  find_opened vid pid devs = None
  /\ fd dev = chosen_fd devs
  /\ devs' = set_slot devs (chosen_fd devs) (Some dev).
Proof.
  unfold open, chosen_fd, getWebUsbInstance. cbn [negb].
  destruct (find_opened vid pid devs); [discriminate |].
  destruct (map_get (getDeviceHash vid pid) webUsbMap); [| discriminate].
  intros H. injection H as <- <-. auto.
Qed.

Lemma set_slot_length_le1 (devs : Table) (i : Z) (v : option Session) :
  (length devs <= 1)%nat ->
  (i < Z.of_nat (length devs) \/ i = 0) ->
  (length (set_slot devs i v) <= 1)%nat.
Proof.
  intros Hl Hi. unfold set_slot.
  destruct (Z.ltb_spec i (Z.of_nat (length devs))).
  - rewrite array_set_length_in by lia. exact Hl.
  - assert (i = 0) by lia. subst i. assert (length devs = 0%nat) by lia.
    destruct devs; [| discriminate].
    vm_compute. apply le_n.
Qed.

(** The registry never holds more than one slot: [open] writes into the
    first free slot of the existing array and otherwise into slot 0. *)
Lemma reachable_length (devs : Table) : reachable devs -> (length devs <= 1)%nat.
Proof.
  induction 1 as [| m vid pid devs Hr IH | i devs Hr IH | i devs Hr IH].
  - cbn. lia.
  - unfold open. destruct m; cbn [negb]; [| exact IH].
    destruct (find_opened vid pid devs); [exact IH |].
    fold (chosen_fd devs).
    destruct (getWebUsbInstance _ _ _ _); cbn [snd];
      apply set_slot_length_le1; auto; apply chosen_fd_range.
  - unfold invalidate. destruct (slot devs i) eqn:E; [| exact IH].
    apply array_get_in in E. apply set_slot_length_le1; auto. lia.
  - unfold clear_slot.
    destruct (Z.leb_spec 0 i); cbn [andb]; [| exact IH].
    destruct (Z.ltb_spec i (Z.of_nat (length devs))); [| exact IH].
    apply set_slot_length_le1; auto.
Qed.

Lemma handles_ok_set (devs : Table) (i : Z) (v : option Session) :
  handles_ok devs ->
  (forall d, v = Some d -> fd d = i \/ fd d = -1) ->
  handles_ok (set_slot devs i v).
Proof.
  intros Hok Hv j d. unfold set_slot.
  destruct (Z.eq_dec i j) as [-> | Hne].
  - destruct (Z.ltb_spec j 0) as [Hneg | Hpos].
    + unfold slot, CircularBuffer.array_get.
      destruct (Z.ltb_spec j 0); [discriminate | lia].
    + unfold slot. rewrite array_get_set_eq by lia. apply Hv.
  - unfold slot. rewrite array_get_set_ne by exact Hne. apply Hok.
Qed.

Lemma reachable_handles_ok (devs : Table) : reachable devs -> handles_ok devs.
Proof.
  induction 1 as [| m vid pid devs Hr IH | i devs Hr IH | i devs Hr IH].
  - intros j d. unfold slot, CircularBuffer.array_get.
    destruct (Z.ltb_spec j 0); [discriminate |]. rewrite lookup_nil. discriminate.
  - unfold open. destruct m; cbn [negb]; [| exact IH].
    destruct (find_opened vid pid devs); [exact IH |].
    unfold getWebUsbInstance.
    destruct (map_get _ _); cbn [snd]; apply handles_ok_set; auto.
    + intros d0 [= <-]. left. reflexivity.
    + discriminate.
  - unfold invalidate. destruct (slot devs i) eqn:E; [| exact IH].
    apply handles_ok_set; auto. intros d0 [= <-]. right. reflexivity.
  - unfold clear_slot.
    destruct ((0 <=? i) && (i <? Z.of_nat (length devs))); [| exact IH].
    apply handles_ok_set; auto. discriminate.
Qed.

(** [handles_ok] holds of a table after each piece of [open] and [close]. *)
Lemma handles_ok_open (m : bool) (vid pid : Z) (devs : Table) :
  handles_ok devs -> handles_ok (open m vid pid devs).2.
Proof.
  intros Hok. unfold open. destruct m; cbn [negb]; [| exact Hok].
  destruct (find_opened vid pid devs); [exact Hok |].
  unfold getWebUsbInstance.
  destruct (map_get _ _); cbn [snd]; apply handles_ok_set; auto.
  - intros d0 [= <-]. left. reflexivity.
  - discriminate.
Qed.

Lemma handles_ok_invalidate (i : Z) (devs : Table) :
  handles_ok devs -> handles_ok (invalidate i devs).
Proof.
  intros Hok. unfold invalidate. destruct (slot devs i) eqn:E; [| exact Hok].
  apply handles_ok_set; auto. intros d0 [= <-]. right. reflexivity.
Qed.

(** In a table the registry can hold, a session that is stored is the only
    one. *)
Lemma reachable_single (devs : Table) (i j : Z) (d d' : Session) :
  reachable devs -> slot devs i = Some d -> slot devs j = Some d' -> i = j /\ d = d'.
Proof.
  intros Hr Hi Hj. pose proof (reachable_length devs Hr) as Hl.
  pose proof (array_get_in _ _ _ Hi) as Hir. pose proof (array_get_in _ _ _ Hj) as Hjr.
  assert (i = j) by lia. subst j. split; [reflexivity | congruence].
Qed.

(** C6: an [open] that creates a session gives it the index of the first
    slot holding [undefined], or 0 when no slot is free; the session is
    stored in that slot (slot 0 is replaced in the second case) and no other
    slot changes; no other session stored in the table carries the same
    handle.  The call returns what that slot holds after the await: the new
    session when nothing else has run; the same session with handle -1 when
    its own [open] has failed; and, whatever has run in between, a session
    whose handle is the assigned one or -1.  A returned handle other than -1
    is carried by no other stored session, and in a table the registry can
    hold the returned session is the only one stored. *)
Theorem open_assigns_first_free (devs devs' : Table) (vid pid : Z) (dev : Session) :
  handles_ok devs ->
  open true vid pid devs = (Created dev, devs') ->
  find_opened vid pid devs = None
  /\ (first_free devs (fd dev) \/ (no_free devs /\ fd dev = 0))
  /\ slot devs' (fd dev) = Some dev
  /\ (forall j, j <> fd dev -> slot devs' j = slot devs j)
  /\ (forall j d', slot devs' j = Some d' -> fd d' = fd dev -> j = fd dev)
  /\ handles_ok devs'
  /\ open_return (Created dev) devs' = Some dev
  /\ open_return (Created dev) (invalidate (fd dev) devs')
     = Some (mkSession (-1) (WebUsbDeviceManager.vid dev) (WebUsbDeviceManager.pid dev)
               (cls dev))
  /\ (forall (T : Table) (r : Session),
        handles_ok T -> open_return (Created dev) T = Some r ->
        (fd r = fd dev \/ fd r = -1)
        /\ (forall j d', slot T j = Some d' -> fd d' = fd r -> fd r <> -1 -> j = fd dev)
        /\ (reachable T -> forall j d', slot T j = Some d' -> j = fd dev /\ d' = r)).
Proof.
  intros Hok Hopen.
  pose proof (handles_ok_open true vid pid devs Hok) as Hok'.
  rewrite Hopen in Hok'. cbn [snd] in Hok'.
  apply open_created in Hopen as (Hnone & Hfd & ->).
  pose proof (chosen_fd_range devs) as [Hge _].
  assert (Hstored : slot (set_slot devs (chosen_fd devs) (Some dev)) (fd dev) = Some dev).
  { rewrite Hfd. unfold slot, set_slot. apply array_get_set_eq; exact Hge. }
  split; [exact Hnone |].
  split; [rewrite Hfd; apply chosen_fd_spec |].
  split; [exact Hstored |].
  split.
  { intros j Hj. unfold slot, set_slot. apply array_get_set_ne. congruence. }
  split.
  { intros j d' Hs Hd.
    destruct (Z.eq_dec (chosen_fd devs) j) as [<- | Hne]; [symmetry; exact Hfd |].
    unfold slot, set_slot in Hs. rewrite array_get_set_ne in Hs by exact Hne.
    destruct (Hok j d' Hs); lia. }
  split; [exact Hok' |].
  split; [exact Hstored |].
  split.
  { cbn [open_return]. unfold invalidate. rewrite Hstored.
    unfold slot, set_slot. rewrite Hfd. apply array_get_set_eq; exact Hge. }
  intros T r HT Hr. cbn [open_return] in Hr.
  split; [destruct (HT _ _ Hr); auto |].
  split.
  - intros j d' Hj Hd Hvalid.
    destruct (HT _ _ Hr) as [E | E]; [| contradiction].
    destruct (HT _ _ Hj) as [E' | E']; lia.
  - intros Hreach j d' Hj.
    destruct (reachable_single T _ _ _ _ Hreach Hr Hj) as [-> ->]. auto.
Qed.

End DeviceManager.

Lemma open_assigns_first_free_witness :
  let a := WebUsbDeviceManager.mkSession 0 0x3727 0x1011 WebUsbDeviceManager.WebUsbXsdr in
  let c := WebUsbDeviceManager.mkSession 2 0xfaee 0xdea9 WebUsbDeviceManager.WebUsbUsdr in
  let dev := WebUsbDeviceManager.mkSession 1 0x0403 0x601f
               WebUsbDeviceManager.WebUsbLimeSdr in
  WebUsbDeviceManager.open true 0x0403 0x601f [Some a; None; Some c]
  = (WebUsbDeviceManager.Created dev, [Some a; Some dev; Some c])
  /\ WebUsbDeviceManager.first_free [Some a; None; Some c] 1
  /\ WebUsbDeviceManager.open_return (WebUsbDeviceManager.Created dev)
       [Some a; Some dev; Some c] = Some dev.
Proof.
  cbv zeta.
  set (a := WebUsbDeviceManager.mkSession 0 0x3727 0x1011 WebUsbDeviceManager.WebUsbXsdr).
  set (c := WebUsbDeviceManager.mkSession 2 0xfaee 0xdea9 WebUsbDeviceManager.WebUsbUsdr).
  set (dev := WebUsbDeviceManager.mkSession 1 0x0403 0x601f
                WebUsbDeviceManager.WebUsbLimeSdr).
  assert (Hok : WebUsbDeviceManager.handles_ok [Some a; None; Some c]).
  { intros j d. unfold WebUsbDeviceManager.slot, CircularBuffer.array_get.
    destruct (Z.ltb_spec j 0); [discriminate |].
    destruct (Z.to_nat j) as [| [| [| n]]] eqn:E; cbn; intros [= <-]; left; cbn; lia. }
  assert (Hopen : WebUsbDeviceManager.open true 0x0403 0x601f [Some a; None; Some c]
                  = (WebUsbDeviceManager.Created dev, [Some a; Some dev; Some c]))
    by reflexivity.
  pose proof (open_assigns_first_free _ _ _ _ _ Hok Hopen)
    as (_ & [Hfree | [_ Hzero]] & _ & _ & _ & _ & Hret & _).
  - split; [exact Hopen |]. split; [exact Hfree | exact Hret].
  - discriminate Hzero.
Defined.

(** ** The remote façade (C9) *)

Section WorkerManager.
Import WebUsbWorkerManager.

Lemma request_no_worker (ty : WebUsbRequestType) (s : State) :
  worker s = None -> request ty s = (Throws not_running, s).
Proof. intros H. unfold request. rewrite H. reflexivity. Qed.

Lemma request_with_worker (ty : WebUsbRequestType) (s : State) (w : nat) :
  worker s = Some w ->
  exists s', request ty s = (Pending (PromiseHelper._promiseMapId (_promiseHelper s) + 1), s')
             /\ posted s' = posted s
                            ++ [(w, mkRequest ty (PromiseHelper._promiseMapId (_promiseHelper s) + 1))]
             /\ worker s' = Some w.
Proof.
  intros H. unfold request, post, PromiseHelper.createPromise. rewrite H.
  eexists. split; [reflexivity |]. cbn. auto.
Qed.

(** C9, as stated, fails: right after construction the manager holds a worker
    whose [START] request is unanswered, and [getName] is posted to it with
    correlation id 2 instead of failing; and [open], called on a manager that
    holds no worker, starts one instead of failing. *)
Lemma facade_not_running_counterexample :
  handshake_completed constructed = false
  /\ (invoke (CallGetName 1) constructed).1 = Pending 2
  /\ posted (invoke (CallGetName 1) constructed).2
     = [(0%nat, mkRequest START 1); (0%nat, mkRequest GET_DEV_NAME 2)]
  /\ handshake_completed initial = false
  /\ (invoke (CallOpen (Some 0x3727) (Some 0x1011)) initial).1 = StartingWorker 1.
Proof. repeat split; reflexivity. Qed.

(** C9 (amended): while the manager holds no worker object (before the first
    start, or after a [STOP] reply was processed), every operation except
    [open] fails at once with "worker is not running" and changes nothing: no
    correlation id is taken and nothing is posted.  [open] with both ids then
    starts a worker and awaits its handshake; without them it returns -1.
    While the manager holds a worker object, whether or not its handshake has
    completed, every operation that does not return early is posted to that
    worker under a fresh correlation id. *)
Theorem facade_not_running (c : Call) (s : State) :
  (worker s = None ->
   (is_open c = false -> invoke c s = (Throws not_running, s))
   /\ (forall v p, c = CallOpen (Some v) (Some p) ->
         exists id s', invoke c s = (StartingWorker id, s')
                       /\ worker s' = Some (created s)
                       /\ posted s' = posted s ++ [(created s, mkRequest START id)])
   /\ (is_open c = true -> returns_early c = true -> invoke c s = (Returns (-1), s)))
  /\ (forall w, worker s = Some w -> returns_early c = false ->
        exists id s', invoke c s = (Pending id, s')
                      /\ id = PromiseHelper._promiseMapId (_promiseHelper s) + 1
                      /\ posted s' = posted s ++ [(w, mkRequest (request_type c) id)]
                      /\ worker s' = Some w).
Proof.
  split.
  - intros Hw. split; [| split].
    + intros Hopen. destruct c; try discriminate; cbn [invoke];
        try (apply request_no_worker; exact Hw).
      unfold close. rewrite Hw. reflexivity.
    + intros v p ->. cbn [invoke]. unfold open, startWorker, stopWorker.
      rewrite Hw. cbn. eexists _, _. split; [reflexivity |]. cbn. auto.
    + intros Hopen Hearly. destruct c; try discriminate. cbn [invoke].
      unfold open. destruct vendorId, productId; try discriminate; reflexivity.
  - intros w Hw Hearly.
    destruct c; cbn [invoke returns_early request_type] in *;
      unfold closeAll, getName, getSerialNumber, getRXSamplesCount, sendCommand,
        sendDebugCommand, submitRxPacket, sendTxPacket, getStreamStatus,
        setStreamStatus, getConfiguration, getOpenedDeviceList;
      try (match goal with
           | |- context [request ?ty s] =>
               destruct (request_with_worker ty s w Hw) as (s' & Hs & Hp & Hw');
               eexists _, s';
               split; [exact Hs | split; [reflexivity | split; [exact Hp | exact Hw']]]
           end).
    + destruct vendorId, productId; try discriminate.
      unfold open, post, PromiseHelper.createPromise. rewrite Hw.
      eexists _, _. split; [reflexivity |]. cbn. auto.
    + unfold close, post, PromiseHelper.createPromise. rewrite Hw, Hearly.
      eexists _, _. split; [reflexivity |]. cbn. auto.
Qed.

End WorkerManager.

Lemma facade_not_running_witness :
  WebUsbWorkerManager.worker WebUsbWorkerManager.initial = None
  /\ WebUsbWorkerManager.invoke (WebUsbWorkerManager.CallSendCommand 0 7)
       WebUsbWorkerManager.initial
     = (WebUsbWorkerManager.Throws WebUsbWorkerManager.not_running,
        WebUsbWorkerManager.initial).
Proof.
  split; [reflexivity |].
  exact (proj1 (proj1 (facade_not_running (WebUsbWorkerManager.CallSendCommand 0 7)
                         WebUsbWorkerManager.initial) eq_refl) eq_refl).
Defined.

(** ** The debounced parameter setter (C4) *)

Section SetParameter.
Import ControlWebUsb.




(** A call for a key whose timer is pending, made within the window, is
    ignored. *)
Lemma setParameter_ignored (s : State) (parm : string) (id : nat) (L t : Z)
    (env : Env) (args : Args) :
  _changeParmTimers s !! parm = Some (mkDeferred (Some id) L) ->
  t - L <= SET_PARAMETER_TIMEOUT ->
  setParameter t env parm args false s = s.
Proof.
  intros He Ht. unfold setParameter. rewrite He. cbv beta iota zeta. rewrite He.
  cbn [from_option Datatypes.id lastTime timer].
  destruct (Z.gtb_spec (t - L) SET_PARAMETER_TIMEOUT); [lia |].
  destruct s; reflexivity.
Qed.

Lemma setParameter_ignored_run (s : State) (parm : string) (id : nat) (L : Z)
    (rest : list (Z * Env * Args)) :
  _changeParmTimers s !! parm = Some (mkDeferred (Some id) L) ->
  Forall (fun c => c.1.1 - L <= SET_PARAMETER_TIMEOUT) rest ->
  run (map (fun c => EvSetParameter c.1.1 c.1.2 parm c.2 false) rest) s = s.
Proof.
  intros He. induction 1 as [| c rest Hc Hrest IH]; [reflexivity |].
  unfold run in *. cbn [map fold_left step].
  rewrite (setParameter_ignored s parm id L) by assumption. exact IH.
Qed.

(** A call for a key made later than 250 ms after [lastTime] is sent at
    once, whether a timer is pending or not, and leaves the timer alone. *)
Lemma setParameter_at_once (s : State) (parm : string) (d : DeferredParameter) (t : Z)
    (env : Env) (args : Args) :
  _changeParmTimers s !! parm = Some d ->
  t - lastTime d > SET_PARAMETER_TIMEOUT ->
  setParameter t env parm args false s
  = mk (<[parm := mkDeferred (timer d) t]> (_changeParmTimers s)) (timeouts s)
       (next_timer s) (sent s ++ [mkSent t parm (eval_args args env)]).
Proof.
  intros He Ht. unfold setParameter. rewrite He. cbv beta iota zeta. rewrite He.
  cbn [from_option Datatypes.id].
  destruct (Z.gtb_spec (t - lastTime d) SET_PARAMETER_TIMEOUT); [reflexivity | lia].
Qed.

(** A call for a key with no timer pending, made within 250 ms of
    [lastTime], sets a timer that keeps the arguments of this call. *)
Lemma setParameter_sets_timer (s : State) (parm : string) (L t : Z)
    (env : Env) (args : Args) :
  _changeParmTimers s !! parm = Some (mkDeferred None L) ->
  t - L <= SET_PARAMETER_TIMEOUT ->
  setParameter t env parm args false s
  = mk (<[parm := mkDeferred (Some (next_timer s)) L]> (_changeParmTimers s))
       (<[next_timer s := mkTimeout parm args]> (timeouts s))
       (S (next_timer s)) (sent s).
Proof.
  intros He Ht. unfold setParameter. rewrite He. cbv beta iota zeta. rewrite He.
  cbn [from_option Datatypes.id lastTime timer].
  destruct (Z.gtb_spec (t - L) SET_PARAMETER_TIMEOUT); [lia | reflexivity].
Qed.

(** C4 (divergence).  The timer of a key is never restarted and keeps the
    arguments of the call that set it.  Take a key with no timer pending and
    two calls with [now = false] within 250 ms of [lastTime]: the first sets
    the timer, the second is dropped, and the timer sends the arguments of
    the first, so the last value of the window is never sent.  And a third
    call, later than 250 ms after [lastTime] while the timer is still
    pending, is sent at once; the timer then sends the older arguments after
    it, less than 250 ms later when it fires on time: two commands in one
    window, the stale value last. *)
Theorem setParameter_stale_timer (s : State) (parm : string) (L t1 t2 t3 tf : Z)
    (e1 e2 e3 ef : Env) (a1 a2 a3 : Args) :
  _changeParmTimers s !! parm = Some (mkDeferred None L) ->
  t1 - L <= SET_PARAMETER_TIMEOUT ->
  t2 - L <= SET_PARAMETER_TIMEOUT ->
  t3 - L > SET_PARAMETER_TIMEOUT ->
  let window := [EvSetParameter t1 e1 parm a1 false; EvSetParameter t2 e2 parm a2 false] in
  let id := next_timer s in
  sent (run window s) = sent s
  /\ timeouts (run window s) = <[id := mkTimeout parm a1]> (timeouts s)
  /\ sent (run (window ++ [EvTimer tf ef id]) s)
     = sent s ++ [mkSent tf parm (eval_args a1 ef)]
  /\ sent (run (window ++ [EvSetParameter t3 e3 parm a3 false; EvTimer tf ef id]) s)
     = sent s ++ [mkSent t3 parm (eval_args a3 e3); mkSent tf parm (eval_args a1 ef)]
  /\ (tf = t1 + SET_PARAMETER_TIMEOUT -> tf - t3 < SET_PARAMETER_TIMEOUT).
Proof.
  intros He Ht1 Ht2 Ht3 window id.
  set (s1 := mk (<[parm := mkDeferred (Some id) L]> (_changeParmTimers s))
                (<[id := mkTimeout parm a1]> (timeouts s)) (S id) (sent s)).
  assert (E1 : run window s = s1).
  { unfold window, run. cbn [fold_left step].
    rewrite (setParameter_sets_timer s parm L t1 e1 a1 He Ht1).
    apply (setParameter_ignored _ parm id L); [cbn; apply lookup_insert_eq | exact Ht2]. }
  assert (Hfire : forall s2 : State,
            timeouts s2 !! id = Some (mkTimeout parm a1) ->
            sent (fire tf ef id s2) = sent s2 ++ [mkSent tf parm (eval_args a1 ef)]).
  { intros s2 H2. unfold fire. rewrite H2. reflexivity. }
  rewrite E1. split; [reflexivity |]. split; [reflexivity |].
  split; [| split].
  - unfold run. rewrite fold_left_app. fold (run window s). rewrite E1.
    cbn [fold_left step]. rewrite Hfire by (cbn; apply lookup_insert_eq). reflexivity.
  - unfold run. rewrite fold_left_app. fold (run window s). rewrite E1.
    cbn [fold_left step].
    rewrite (setParameter_at_once s1 parm (mkDeferred (Some id) L) t3 e3 a3);
      [| cbn; apply lookup_insert_eq | exact Ht3].
    rewrite Hfire by (cbn; apply lookup_insert_eq).
    cbn [sent]. rewrite <- app_assoc. reflexivity.
  - intros ->. lia.
Qed.

End SetParameter.

Lemma setParameter_stale_timer_witness :
  let s := ControlWebUsb.run
             [ControlWebUsb.EvSetParameter 1000 0 "SET_RX_GAIN" (ControlWebUsb.ArgsObject 10) false]
             ControlWebUsb.init in
  ControlWebUsb.sent
    (ControlWebUsb.run
       [ControlWebUsb.EvSetParameter 1250 0 "SET_RX_GAIN" (ControlWebUsb.ArgsObject 20) false;
        ControlWebUsb.EvSetParameter 1250 0 "SET_RX_GAIN" (ControlWebUsb.ArgsObject 25) false;
        ControlWebUsb.EvSetParameter 1499 0 "SET_RX_GAIN" (ControlWebUsb.ArgsObject 30) false;
        ControlWebUsb.EvTimer 1500 0 0] s)
  = [ControlWebUsb.mkSent 1000 "SET_RX_GAIN" 10; ControlWebUsb.mkSent 1499 "SET_RX_GAIN" 30;
     ControlWebUsb.mkSent 1500 "SET_RX_GAIN" 20].
Proof.
  cbv zeta.
  assert (He : ControlWebUsb._changeParmTimers
                 (ControlWebUsb.run
                    [ControlWebUsb.EvSetParameter 1000 0 "SET_RX_GAIN"
                       (ControlWebUsb.ArgsObject 10) false] ControlWebUsb.init)
               !! "SET_RX_GAIN" = Some (ControlWebUsb.mkDeferred None 1000))
    by (vm_compute; reflexivity).
  pose proof (setParameter_stale_timer _ "SET_RX_GAIN" 1000 1250 1250 1499 1500 0 0 0 0
                (ControlWebUsb.ArgsObject 20) (ControlWebUsb.ArgsObject 25)
                (ControlWebUsb.ArgsObject 30) He
                ltac:(unfold ControlWebUsb.SET_PARAMETER_TIMEOUT; lia)
                ltac:(unfold ControlWebUsb.SET_PARAMETER_TIMEOUT; lia)
                ltac:(unfold ControlWebUsb.SET_PARAMETER_TIMEOUT; lia)) as H.
  cbv zeta in H. destruct H as (_ & _ & _ & H & _). exact H.
Defined.

(** ** The transmit pipeline (C3) *)

Section TxPipelineProps.
Import TxPipeline.

Lemma remove_first_length (id : nat) (l : list nat) :
  id ∈ l -> S (length (remove_first id l)) = length l.
Proof.
  induction l as [| x l IH]; intros Hin.
  - apply elem_of_nil in Hin. contradiction.
  - cbn [remove_first]. destruct (Nat.eqb_spec x id) as [-> | Hne]; [reflexivity |].
    apply elem_of_cons in Hin as [-> | Hin]; [contradiction |].
    cbn [length]. rewrite IH by exact Hin. reflexivity.
Qed.

Lemma set_cnt_fields (val : Z) (s : State) :
  _sendDataReqCnt (set_sendDataReqCnt val s) = val
  /\ inflight (set_sendDataReqCnt val s) = inflight s.
Proof. unfold set_sendDataReqCnt. destruct (_onChangeSendDataReq s); auto. Qed.

Lemma start_fields (id : nat) (s : State) :
  _sendDataReqCnt (start id s) = _sendDataReqCnt s + 1
  /\ inflight (start id s) = inflight s ++ [id].
Proof.
  unfold start. cbn [_sendDataReqCnt inflight].
  destruct (set_cnt_fields (_sendDataReqCnt s + 1) s) as [-> ->]. auto.
Qed.

Lemma start_inv (id : nat) (s : State) :
  tx_inv s -> _sendDataReqCnt s < WebUsb.MAX_SEND_DATA_REQUEST -> tx_inv (start id s).
Proof.
  intros [Hc Hm] Hlt. unfold tx_inv.
  destruct (start_fields id s) as [-> ->]. rewrite length_app. cbn [length]. lia.
Qed.

Lemma wait_or_start_inv (id : nat) (s : State) : tx_inv s -> tx_inv (wait_or_start id s).
Proof.
  intros Hinv. unfold wait_or_start.
  destruct (Z.geb_spec (_sendDataReqCnt s) WebUsb.MAX_SEND_DATA_REQUEST).
  - exact Hinv.
  - apply start_inv; [exact Hinv | lia].
Qed.

Lemma step_inv (e : Event) (s : State) : tx_inv s -> tx_inv (step e s).
Proof.
  intros Hinv. destruct e as [allowDrop | id | id ok]; cbn [step].
  - destruct (Z.geb_spec (_sendDataReqCnt s) WebUsb.MAX_SEND_DATA_REQUEST).
    + destruct allowDrop; [exact Hinv |].
      apply wait_or_start_inv. exact Hinv.
    + apply start_inv; [exact Hinv | cbn; lia].
  - destruct (suspended s !! id) as [[] |]; try exact Hinv.
    apply wait_or_start_inv, Hinv.
  - destruct (bool_decide_reflect (id ∈ inflight s)) as [Hin | Hin]; [| exact Hinv].
    destruct Hinv as [Hc Hm]. unfold tx_inv. cbn [_sendDataReqCnt inflight].
    destruct (set_cnt_fields (_sendDataReqCnt s - 1) s) as [-> ->].
    pose proof (remove_first_length id (inflight s) Hin). lia.
Qed.

Lemma run_inv (evs : list Event) (s : State) : tx_inv s -> tx_inv (run evs s).
Proof.
  revert s. induction evs as [| e evs IH]; intros s H; [exact H |].
  cbn. apply IH, step_inv, H.
Qed.

(** At full capacity a step that is not a completion starts nothing. *)
Lemma step_full (e : Event) (s : State) :
  is_complete e = false ->
  _sendDataReqCnt s >= WebUsb.MAX_SEND_DATA_REQUEST ->
  _sendDataReqCnt (step e s) = _sendDataReqCnt s /\ inflight (step e s) = inflight s.
Proof.
  intros He Hfull. destruct e as [allowDrop | id | id ok]; [| | discriminate]; cbn [step].
  - destruct (Z.geb_spec (_sendDataReqCnt s) WebUsb.MAX_SEND_DATA_REQUEST); [| lia].
    destruct allowDrop; [auto |].
    unfold wait_or_start. cbn [_sendDataReqCnt].
    destruct (Z.geb_spec (_sendDataReqCnt s) WebUsb.MAX_SEND_DATA_REQUEST); [auto | lia].
  - destruct (suspended s !! id) as [[] |]; auto.
    unfold wait_or_start.
    destruct (Z.geb_spec (_sendDataReqCnt s) WebUsb.MAX_SEND_DATA_REQUEST); [auto | lia].
Qed.

Lemma run_full (evs : list Event) (s : State) :
  forallb (fun e => negb (is_complete e)) evs = true ->
  _sendDataReqCnt s >= WebUsb.MAX_SEND_DATA_REQUEST ->
  _sendDataReqCnt (run evs s) = _sendDataReqCnt s /\ inflight (run evs s) = inflight s.
Proof.
  revert s. induction evs as [| e evs IH]; intros s Hall Hfull; [auto |].
  cbn [forallb] in Hall. apply andb_true_iff in Hall as [He Hall].
  apply negb_true_iff in He.
  destruct (step_full e s He Hfull) as [Hc Hi].
  cbn [run fold_left]. fold (run evs (step e s)).
  destruct (IH (step e s) Hall ltac:(lia)) as [Hc' Hi'].
  split; congruence.
Qed.

(** C3: in every state a session reaches, the counter of outstanding
    transfers equals their number and does not exceed the maximum of 128.  A
    submission without [allowDrop] that arrives at full capacity is
    suspended, and as long as no transfer completes or fails no transfer is
    started, whatever else happens.  The end of a transfer, successful or
    not, takes one off the counter. *)
Theorem tx_backpressure (evs evs' : list Event) (id : nat) (ok : bool) :
  let s := run evs init in
  (0 <= _sendDataReqCnt s <= WebUsb.MAX_SEND_DATA_REQUEST
   /\ _sendDataReqCnt s = Z.of_nat (length (inflight s)))
  /\ (_sendDataReqCnt s = WebUsb.MAX_SEND_DATA_REQUEST ->
      forallb (fun e => negb (is_complete e)) evs' = true ->
      suspended (step (Submit false) s) !! next_id s = Some Waiting
      /\ inflight (run evs' (step (Submit false) s)) = inflight s
      /\ _sendDataReqCnt (run evs' (step (Submit false) s)) = WebUsb.MAX_SEND_DATA_REQUEST)
  /\ (id ∈ inflight s ->
      _sendDataReqCnt (step (Complete id ok) s) = _sendDataReqCnt s - 1
      /\ S (length (inflight (step (Complete id ok) s))) = length (inflight s)).
Proof.
  cbv zeta.
  assert (Hinv : tx_inv (run evs init)).
  { apply run_inv. split; cbn; [reflexivity |]. unfold WebUsb.MAX_SEND_DATA_REQUEST. lia. }
  destruct Hinv as [Hc Hm].
  split; [| split].
  - split; [lia | exact Hc].
  - intros Hfull Hall.
    assert (Hs : _sendDataReqCnt (step (Submit false) (run evs init))
                 = _sendDataReqCnt (run evs init)
                 /\ inflight (step (Submit false) (run evs init)) = inflight (run evs init)).
    { apply step_full; [reflexivity | lia]. }
    destruct Hs as [Hs1 Hs2].
    split.
    + cbn [step].
      destruct (Z.geb_spec (_sendDataReqCnt (run evs init)) WebUsb.MAX_SEND_DATA_REQUEST);
        [| lia].
      unfold wait_or_start. cbn [_sendDataReqCnt].
      destruct (Z.geb_spec (_sendDataReqCnt (run evs init)) WebUsb.MAX_SEND_DATA_REQUEST);
        [| lia].
      cbn. apply lookup_insert_eq.
    + destruct (run_full evs' (step (Submit false) (run evs init)) Hall ltac:(lia))
        as [Hr1 Hr2].
      split; congruence.
  - intros Hin. cbn [step].
    destruct (bool_decide_reflect (id ∈ inflight (run evs init))) as [_ | Hn];
      [| contradiction].
    cbn [_sendDataReqCnt inflight].
    destruct (set_cnt_fields (_sendDataReqCnt (run evs init) - 1) (run evs init)) as [-> ->].
    split; [reflexivity | apply remove_first_length, Hin].
Qed.

End TxPipelineProps.

Lemma tx_backpressure_witness :
  let s := TxPipeline.run (repeat (TxPipeline.Submit false) 128) TxPipeline.init in
  TxPipeline._sendDataReqCnt s = WebUsb.MAX_SEND_DATA_REQUEST
  /\ TxPipeline.inflight
       (TxPipeline.run [TxPipeline.Submit false; TxPipeline.Resume 128]
          (TxPipeline.step (TxPipeline.Submit false) s))
     = TxPipeline.inflight s
  /\ TxPipeline._sendDataReqCnt (TxPipeline.step (TxPipeline.Complete 3 false) s)
     = TxPipeline._sendDataReqCnt s - 1.
Proof.
  cbv zeta.
  pose proof (tx_backpressure (repeat (TxPipeline.Submit false) 128)
                [TxPipeline.Submit false; TxPipeline.Resume 128] 3 false) as H.
  cbv zeta in H. destruct H as (_ & Hwait & Hdone).
  assert (Hfull : TxPipeline._sendDataReqCnt
                    (TxPipeline.run (repeat (TxPipeline.Submit false) 128) TxPipeline.init)
                  = WebUsb.MAX_SEND_DATA_REQUEST) by (vm_compute; reflexivity).
  split; [exact Hfull |]. split.
  - apply (Hwait Hfull eq_refl).
  - apply Hdone. refine (bool_decide_unpack _ _). vm_compute. exact I.
Defined.

(** ** The circular buffer (C10) *)

Lemma mod_2range (x n : Z) :
  0 <= x < 2 * n -> x mod n = if x <? n then x else x - n.
Proof.
  intros H. destruct (Z.ltb_spec x n).
  - apply Z.mod_small. lia.
  - symmetry. apply (Z.mod_unique_pos x n 1 (x - n)); lia.
Qed.

Lemma rem_nonneg (x n : Z) : 0 <= x -> 0 < n -> JS.rem x n = x mod n.
Proof. intros. unfold JS.rem. apply Z.rem_mod_nonneg; lia. Qed.

Section CircularBufferProps.
Context {T : Type}.
Import CircularBuffer.
Implicit Types b : t T.

Lemma size_range b : wf b -> 0 <= size b <= capacity b.
Proof.
  intros (Hl & _ & Hh & Ht & _). unfold size, capacity.
  destruct (_bufferFull b); [lia |].
  destruct (Z.leb_spec (_bufferHead b) (_bufferTail b)); lia.
Qed.

Lemma wf_create (len : Z) : 0 < len -> wf (@create T len).
Proof.
  intros H. unfold wf, create. cbn. rewrite repeat_length.
  repeat split; first [lia | discriminate].
Qed.

Lemma wf_clear b : wf b -> wf (clear b).
Proof.
  intros (Hl & Hb & Hh & Ht & Hf). unfold wf, clear. cbn.
  repeat split; first [lia | discriminate].
Qed.

Lemma wf_pop_front cnt b : wf b -> wf (pop_front cnt b).
Proof.
  intros Hwf. pose proof Hwf as (Hl & Hb & Hh & Ht & Hf). unfold pop_front.
  destruct (Z.ltb_spec cnt 1); [exact Hwf |].
  rewrite rem_nonneg by lia.
  pose proof (Z.mod_pos_bound (_bufferHead b + cnt) (_bufferLen b) Hl).
  unfold wf. cbn.
  destruct (cnt >=? size b); repeat split; first [lia | discriminate].
Qed.

Lemma wf_pop_back cnt b : wf b -> wf (pop_back cnt b).
Proof.
  intros Hwf. pose proof Hwf as (Hl & Hb & Hh & Ht & Hf). unfold pop_back.
  destruct (Z.ltb_spec cnt 1); [exact Hwf |].
  rewrite rem_nonneg by lia.
  pose proof (Z.mod_pos_bound cnt (_bufferLen b) Hl).
  unfold wf. cbn.
  destruct (Z.ltb_spec (_bufferTail b - cnt mod _bufferLen b) 0);
    destruct (cnt >=? size b); repeat split; first [lia | discriminate].
Qed.

Lemma wf_push_front v b : wf b -> wf (push_front v b).
Proof.
  intros Hwf. unfold push_front.
  set (b1 := if _bufferFull b then pop_back 1 b else b).
  assert (Hwf1 : wf b1) by (unfold b1; destruct (_bufferFull b); [apply wf_pop_back |]; exact Hwf).
  destruct Hwf1 as (Hl & Hb & Hh & Ht & Hf).
  unfold wf. cbn.
  destruct (Z.ltb_spec (_bufferHead b1 - 1) 0).
  - rewrite array_set_length_in by lia.
    destruct (Z.eqb_spec (_bufferLen b1 - 1) (_bufferTail b1)); repeat split; first [lia | discriminate].
  - rewrite array_set_length_in by lia.
    destruct (Z.eqb_spec (_bufferHead b1 - 1) (_bufferTail b1)); repeat split; first [lia | discriminate].
Qed.

Lemma wf_push_back v b : wf b -> wf (push_back v b).
Proof.
  intros Hwf. unfold push_back.
  set (b1 := if _bufferFull b then pop_front 1 b else b).
  assert (Hwf1 : wf b1) by (unfold b1; destruct (_bufferFull b); [apply wf_pop_front |]; exact Hwf).
  destruct Hwf1 as (Hl & Hb & Hh & Ht & Hf).
  rewrite rem_nonneg by lia.
  pose proof (Z.mod_pos_bound (_bufferTail b1 + 1) (_bufferLen b1) Hl).
  unfold wf. cbn.
  rewrite array_set_length_in by lia.
  destruct (Z.eqb_spec (_bufferHead b1) ((_bufferTail b1 + 1) mod _bufferLen b1));
    repeat split; first [lia | discriminate].
Qed.

Lemma wf_alloc_front cnt b : wf b -> wf (alloc_front cnt b).
Proof.
  intros Hwf. pose proof (size_range b Hwf) as Hs.
  pose proof Hwf as (Hl & Hb & Hh & Ht & Hf). unfold alloc_front, capacity in *.
  destruct (Z.ltb_spec cnt 1); [exact Hwf |].
  destruct (Z.ltb_spec (_bufferLen b - size b) cnt).
  - pose proof (wf_pop_back (cnt - (_bufferLen b - size b)) b Hwf) as (Hl' & Hb' & Hh' & Ht' & Hf').
    unfold wf. cbn. rewrite Z.eqb_refl. repeat split; first [lia | discriminate].
  - unfold wf. cbn.
    destruct (Z.ltb_spec (_bufferHead b - cnt) 0);
      match goal with |- context [?x =? ?y] => destruct (Z.eqb_spec x y) end;
      repeat split; first [lia | discriminate].
Qed.

Lemma wf_alloc_back cnt b : wf b -> wf (alloc_back cnt b).
Proof.
  intros Hwf. pose proof (size_range b Hwf) as Hs.
  pose proof Hwf as (Hl & Hb & Hh & Ht & Hf). unfold alloc_back, capacity in *.
  destruct (Z.ltb_spec cnt 1); [exact Hwf |].
  destruct (Z.ltb_spec (_bufferLen b - size b) cnt).
  - pose proof (wf_pop_front (cnt - (_bufferLen b - size b)) b Hwf) as (Hl' & Hb' & Hh' & Ht' & Hf').
    unfold wf. cbn. rewrite Z.eqb_refl. repeat split; first [lia | discriminate].
  - rewrite rem_nonneg by lia.
    pose proof (Z.mod_pos_bound (_bufferTail b + cnt) (_bufferLen b) Hl).
    unfold wf. cbn.
    match goal with |- context [?x =? ?y] => destruct (Z.eqb_spec x y) end;
      repeat split; first [lia | discriminate].
Qed.

Lemma checkIndex_range b i : wf b -> checkIndex b i = true -> 0 <= i < _bufferLen b.
Proof.
  intros (Hl & Hb & Hh & Ht & Hf). unfold checkIndex.
  destruct (_bufferFull b).
  - rewrite andb_true_iff, Z.leb_le, Z.ltb_lt. lia.
  - destruct (Z.leb_spec (_bufferHead b) (_bufferTail b)).
    + rewrite andb_true_iff, Z.leb_le, Z.ltb_lt. lia.
    + rewrite orb_true_iff, !andb_true_iff, !Z.leb_le, !Z.ltb_lt. lia.
Qed.

Lemma wf_apply (o : Op) b : wf b -> wf (apply o b).
Proof.
  intros Hwf. destruct o; cbn [apply].
  - apply wf_clear, Hwf.
  - apply wf_push_front, Hwf.
  - apply wf_push_back, Hwf.
  - apply wf_pop_front, Hwf.
  - apply wf_pop_back, Hwf.
  - apply wf_alloc_front, Hwf.
  - apply wf_alloc_back, Hwf.
  - unfold set.
    destruct (checkIndex b (JS.rem (_bufferHead b + index) (_bufferLen b))) eqn:E; [| exact Hwf].
    apply (checkIndex_range b _ Hwf) in E.
    destruct Hwf as (Hl & Hb & Hh & Ht & Hf).
    unfold wf. cbn. rewrite array_set_length_in by lia. auto.
Qed.

Lemma wf_run (ops : list Op) b : wf b -> wf (run ops b).
Proof.
  revert b. induction ops as [| o ops IH]; intros b Hwf; [exact Hwf |].
  cbn. apply IH, wf_apply, Hwf.
Qed.

End CircularBufferProps.

Ltac cb_cases :=
  repeat (cbn [CircularBuffer._bufferFull CircularBuffer._bufferHead
               CircularBuffer._bufferTail CircularBuffer._bufferLen
               CircularBuffer._buffer] in *;
          match goal with
          | |- context [Z.leb ?x ?y] => destruct (Z.leb_spec x y)
          | |- context [Z.ltb ?x ?y] => destruct (Z.ltb_spec x y)
          | |- context [Z.geb ?x ?y] => destruct (Z.geb_spec x y)
          | |- context [Z.eqb ?x ?y] => destruct (Z.eqb_spec x y)
          | H : context [Z.leb ?x ?y] |- _ => destruct (Z.leb_spec x y)
          end).

Section CircularBufferContent.
Context {T : Type}.
Import CircularBuffer.
Implicit Types b : t T.

(** The three shapes of a well-formed buffer. *)
Lemma size_cases b :
  wf b ->
  (_bufferFull b = true /\ _bufferHead b = _bufferTail b /\ size b = _bufferLen b)
  \/ (_bufferFull b = false /\ _bufferHead b <= _bufferTail b
      /\ size b = _bufferTail b - _bufferHead b)
  \/ (_bufferFull b = false /\ _bufferTail b < _bufferHead b
      /\ size b = _bufferTail b + _bufferLen b - _bufferHead b).
Proof.
  intros (Hl & Hb & Hh & Ht & Hf). unfold size.
  destruct (_bufferFull b); [left; auto |].
  destruct (Z.leb_spec (_bufferHead b) (_bufferTail b)); [right; left | right; right]; auto.
Qed.

Lemma isEmpty_size b : wf b -> (isEmpty b = true <-> size b = 0).
Proof.
  intros Hwf. pose proof Hwf as (Hl & Hb & Hh & Ht & Hf). unfold isEmpty.
  destruct (size_cases b Hwf) as [(Hfull & He & Hs) | [(Hfull & He & Hs) | (Hfull & He & Hs)]];
    rewrite Hfull; cbn [negb]; rewrite Hs;
    destruct (Z.eqb_spec (_bufferHead b) (_bufferTail b)); cbn; split; intros; lia || congruence.
Qed.

Lemma to_list_slots b : to_list b = map (slot_at b) (seq 0 (Z.to_nat (size b))).
Proof. reflexivity. Qed.

Lemma to_list_length b : length (to_list b) = Z.to_nat (size b).
Proof. rewrite to_list_slots, length_map, length_seq. reflexivity. Qed.

Lemma front_to_list b : wf b -> 1 <= size b -> hd None (to_list b) = front b.
Proof.
  intros (Hl & Hb & Hh & Ht & Hf) Hs. rewrite to_list_slots.
  destruct (Z.to_nat (size b)) as [| n] eqn:E; [lia |].
  cbn [seq map hd]. unfold slot_at, front.
  rewrite Z.add_0_r, Z.mod_small by lia. reflexivity.
Qed.

Lemma pop_front_1_fields b :
  wf b -> 1 <= size b ->
  size (pop_front 1 b) = size b - 1
  /\ _bufferHead (pop_front 1 b) = (_bufferHead b + 1) mod _bufferLen b
  /\ _buffer (pop_front 1 b) = _buffer b
  /\ _bufferLen (pop_front 1 b) = _bufferLen b
  /\ _bufferFull (pop_front 1 b) = false.
Proof.
  intros Hwf Hs. pose proof Hwf as (Hl & Hb & Hh & Ht & Hf).
  unfold pop_front. change (1 <? 1) with false. cbv iota zeta.
  rewrite rem_nonneg by lia. rewrite mod_2range by lia.
  unfold size in *.
  destruct (_bufferFull b); [specialize (Hf eq_refl) |]; cb_cases; repeat split; lia.
Qed.

Lemma to_list_pop_front_1 b :
  wf b -> 1 <= size b -> to_list (pop_front 1 b) = tl (to_list b).
Proof.
  intros Hwf Hs. pose proof Hwf as (Hl & Hb & Hh & Ht & Hf).
  destruct (pop_front_1_fields b Hwf Hs) as (Hsz & Hhd & Hbuf & Hlen & _).
  rewrite !to_list_slots, Hsz.
  replace (Z.to_nat (size b)) with (S (Z.to_nat (size b - 1))) by lia.
  cbn [seq map tl]. rewrite <- seq_shift, map_map.
  apply map_ext. intros k. unfold slot_at. rewrite Hhd, Hbuf, Hlen.
  rewrite Zplus_mod_idemp_l. f_equal. f_equal. lia.
Qed.

Lemma pop_back_1_fields b :
  wf b -> 1 <= size b ->
  size (pop_back 1 b) = size b - 1
  /\ (1 < size b -> _bufferHead (pop_back 1 b) = _bufferHead b)
  /\ _buffer (pop_back 1 b) = _buffer b
  /\ _bufferLen (pop_back 1 b) = _bufferLen b
  /\ _bufferFull (pop_back 1 b) = false.
Proof.
  intros Hwf Hs. pose proof Hwf as (Hl & Hb & Hh & Ht & Hf).
  unfold pop_back. change (1 <? 1) with false. cbv iota zeta.
  rewrite rem_nonneg by lia.
  assert (Hm : 1 mod _bufferLen b = if _bufferLen b =? 1 then 0 else 1).
  { destruct (Z.eqb_spec (_bufferLen b) 1) as [-> | Hne]; [reflexivity |].
    apply Z.mod_small. lia. }
  rewrite Hm. unfold size in *.
  destruct (_bufferFull b); [specialize (Hf eq_refl) |]; cb_cases;
    (split; [| split; [intros Hgt | split; [| split]]]); first [lia | reflexivity].
Qed.

Lemma to_list_pop_back_1 b :
  wf b -> 1 <= size b -> to_list (pop_back 1 b) = removelast (to_list b).
Proof.
  intros Hwf Hs.
  destruct (pop_back_1_fields b Hwf Hs) as (Hsz & Hhd & Hbuf & Hlen & _).
  rewrite !to_list_slots, Hsz.
  replace (Z.to_nat (size b)) with (S (Z.to_nat (size b - 1))) by lia.
  rewrite seq_S, map_app. cbn [map]. rewrite removelast_last.
  destruct (Z.eq_dec (size b) 1) as [E1 | E1].
  - rewrite E1. reflexivity.
  - apply map_ext. intros k. unfold slot_at. rewrite Hhd, Hbuf, Hlen by lia. reflexivity.
Qed.

Lemma push_back_fields v b :
  wf b -> _bufferFull b = false ->
  size (push_back v b) = size b + 1
  /\ _bufferHead (push_back v b) = _bufferHead b
  /\ _bufferLen (push_back v b) = _bufferLen b
  /\ _buffer (push_back v b) = array_set (_buffer b) (_bufferTail b) (Some v)
  /\ (_bufferHead b + size b) mod _bufferLen b = _bufferTail b
  /\ (forall k, 0 <= k < size b -> (_bufferHead b + k) mod _bufferLen b <> _bufferTail b).
Proof.
  intros Hwf Hnf. pose proof Hwf as (Hl & Hb & Hh & Ht & Hf).
  pose proof (size_range b Hwf) as Hr. unfold capacity in Hr.
  unfold push_back. rewrite Hnf. cbv zeta. rewrite rem_nonneg by lia.
  rewrite (mod_2range (_bufferTail b + 1)) by lia.
  rewrite (mod_2range (_bufferHead b + size b)) by lia.
  split; [| split; [reflexivity | split; [reflexivity | split; [reflexivity | split]]]].
  - unfold size in *. rewrite Hnf in *. cb_cases; lia.
  - unfold size in *. rewrite Hnf in *. cb_cases; lia.
  - intros k Hk. rewrite mod_2range by lia.
    unfold size in *. rewrite Hnf in *. cb_cases; lia.
Qed.

Lemma to_list_push_back v b :
  wf b -> _bufferFull b = false -> to_list (push_back v b) = to_list b ++ [Some v].
Proof.
  intros Hwf Hnf. pose proof (size_range b Hwf) as Hr.
  destruct (push_back_fields v b Hwf Hnf) as (Hsz & Hhd & Hlen & Hbuf & Hlast & Hother).
  rewrite !to_list_slots, Hsz.
  replace (Z.to_nat (size b + 1)) with (S (Z.to_nat (size b))) by lia.
  rewrite seq_S, map_app. cbn [map]. f_equal.
  - apply map_ext_in. intros k Hk. apply in_seq in Hk.
    unfold slot_at. rewrite Hhd, Hlen, Hbuf.
    apply array_get_set_ne. intros Heq. apply (Hother (Z.of_nat k)); [lia | auto].
  - f_equal. unfold slot_at. rewrite Hhd, Hlen, Hbuf.
    cbn [Nat.add]. rewrite Z2Nat.id by lia. rewrite Hlast.
    apply array_get_set_eq. destruct Hwf as (_ & _ & _ & Ht & _). lia.
Qed.

Lemma push_front_fields v b :
  wf b -> _bufferFull b = false ->
  let h := if _bufferHead b - 1 <? 0 then _bufferLen b - 1 else _bufferHead b - 1 in
  size (push_front v b) = size b + 1
  /\ _bufferHead (push_front v b) = h
  /\ _bufferLen (push_front v b) = _bufferLen b
  /\ _buffer (push_front v b) = array_set (_buffer b) h (Some v)
  /\ 0 <= h < _bufferLen b
  /\ (forall k, 0 <= k < size b ->
        (h + (k + 1)) mod _bufferLen b = (_bufferHead b + k) mod _bufferLen b
        /\ (_bufferHead b + k) mod _bufferLen b <> h).
Proof.
  intros Hwf Hnf. pose proof Hwf as (Hl & Hb & Hh & Ht & Hf).
  pose proof (size_range b Hwf) as Hr. unfold capacity in Hr.
  cbv zeta. unfold push_front. rewrite Hnf. cbv zeta.
  split; [| split; [reflexivity | split; [reflexivity | split; [reflexivity | split]]]].
  - unfold size in *. rewrite Hnf in *. cb_cases; lia.
  - cb_cases; lia.
  - intros k Hk.
    rewrite (mod_2range (_bufferHead b + k)) by lia.
    destruct (Z.ltb_spec (_bufferHead b - 1) 0).
    + replace (_bufferLen b - 1 + (k + 1)) with (k + 1 * _bufferLen b) by lia.
      rewrite Z.mod_add by lia. rewrite Z.mod_small by lia.
      unfold size in *. rewrite Hnf in *. cb_cases; lia.
    + replace (_bufferHead b - 1 + (k + 1)) with (_bufferHead b + k) by lia.
      rewrite (mod_2range (_bufferHead b + k)) by lia.
      unfold size in *. rewrite Hnf in *. cb_cases; lia.
Qed.

Lemma to_list_push_front v b :
  wf b -> _bufferFull b = false -> to_list (push_front v b) = Some v :: to_list b.
Proof.
  intros Hwf Hnf. pose proof (size_range b Hwf) as Hr.
  destruct (push_front_fields v b Hwf Hnf) as (Hsz & Hhd & Hlen & Hbuf & Hh & Hother).
  rewrite !to_list_slots, Hsz.
  replace (Z.to_nat (size b + 1)) with (S (Z.to_nat (size b))) by lia.
  cbn [seq map]. f_equal.
  - unfold slot_at. rewrite Hhd, Hlen, Hbuf.
    rewrite Z.add_0_r, Z.mod_small by lia. apply array_get_set_eq. lia.
  - rewrite <- seq_shift, map_map. apply map_ext_in. intros k Hk. apply in_seq in Hk.
    unfold slot_at. rewrite Hhd, Hlen, Hbuf.
    destruct (Hother (Z.of_nat k) ltac:(lia)) as [He Hne].
    replace (Z.of_nat (S k)) with (Z.of_nat k + 1) by lia.
    rewrite He. apply array_get_set_ne. congruence.
Qed.

(** On a full buffer [push_back] first evicts the front element and
    [push_front] the back element; the buffer stays full. *)
Lemma push_full v b :
  wf b -> _bufferFull b = true ->
  to_list (push_back v b) = tl (to_list b) ++ [Some v]
  /\ to_list (push_front v b) = Some v :: removelast (to_list b)
  /\ size (push_back v b) = capacity b
  /\ size (push_front v b) = capacity b.
Proof.
  intros Hwf Hfull. pose proof Hwf as (Hl & Hb & Hh & Ht & Hf).
  assert (Hs : 1 <= size b) by (unfold size; rewrite Hfull; lia).
  assert (Hsz : size b = _bufferLen b) by (unfold size; rewrite Hfull; reflexivity).
  destruct (pop_front_1_fields b Hwf Hs) as (Hsf & _ & _ & _ & Hff).
  destruct (pop_back_1_fields b Hwf Hs) as (Hsb & _ & _ & _ & Hfb).
  assert (Eb : push_back v b = push_back v (pop_front 1 b)).
  { unfold push_back at 1 2. rewrite Hfull, Hff. reflexivity. }
  assert (Ef : push_front v b = push_front v (pop_back 1 b)).
  { unfold push_front at 1 2. rewrite Hfull, Hfb. reflexivity. }
  rewrite Eb, Ef.
  rewrite to_list_push_back by (auto using wf_pop_front).
  rewrite to_list_push_front by (auto using wf_pop_back).
  rewrite to_list_pop_front_1, to_list_pop_back_1 by assumption.
  destruct (push_back_fields v (pop_front 1 b) (wf_pop_front 1 b Hwf) Hff) as (-> & _).
  destruct (push_front_fields v (pop_back 1 b) (wf_pop_back 1 b Hwf) Hfb) as (-> & _).
  unfold capacity. repeat split; lia.
Qed.

(** A buffer is full exactly when it holds as many elements as its
    capacity. *)
Lemma full_size b : wf b -> (_bufferFull b = true <-> size b = capacity b).
Proof.
  intros Hwf. unfold capacity.
  destruct (size_cases b Hwf) as [(Hfull & He & Hs) | [(Hfull & He & Hs) | (Hfull & He & Hs)]];
    destruct Hwf as (Hl & Hb & Hh & Ht & Hf); rewrite Hfull, Hs; split; intros; try lia;
    first [reflexivity | discriminate].
Qed.

Lemma capacity_push_back v b : capacity (push_back v b) = capacity b.
Proof.
  unfold push_back, capacity. destruct (_bufferFull b); reflexivity.
Qed.

Lemma to_list_pop_front_empty b : wf b -> size b = 0 -> to_list (pop_front 1 b) = [].
Proof.
  intros Hwf Hs.
  assert (E : size (pop_front 1 b) = 0).
  { unfold pop_front. change (1 <? 1) with false. cbv iota zeta.
    destruct (Z.geb_spec 1 (size b)); [| lia].
    unfold size at 1. cbn [_bufferFull _bufferHead _bufferTail _bufferLen].
    rewrite Z.leb_refl. lia. }
  rewrite to_list_slots, E. reflexivity.
Qed.

(** What [pop_front()] and [push_back] do to the content. *)
Lemma to_list_pop_front_tl b : wf b -> to_list (pop_front 1 b) = tl (to_list b).
Proof.
  intros Hwf. pose proof (size_range b Hwf) as Hr.
  destruct (Z.eq_dec (size b) 0) as [E | E].
  - rewrite to_list_pop_front_empty by assumption.
    rewrite (to_list_slots b), E. reflexivity.
  - apply to_list_pop_front_1; [exact Hwf | lia].
Qed.

Lemma to_list_push_back_any v b :
  wf b ->
  to_list (push_back v b)
  = (if _bufferFull b then tl (to_list b) else to_list b) ++ [Some v].
Proof.
  intros Hwf. destruct (_bufferFull b) eqn:E.
  - apply push_full; assumption.
  - apply to_list_push_back; assumption.
Qed.

Lemma front_in b (x : T) :
  wf b -> isEmpty b = false -> front b = Some x -> In (Some x) (to_list b).
Proof.
  intros Hwf He Hf. pose proof (size_range b Hwf) as Hr.
  assert (Hs : 1 <= size b).
  { destruct (Z.eq_dec (size b) 0) as [E | E]; [| lia].
    apply (isEmpty_size b Hwf) in E. congruence. }
  rewrite <- (front_to_list b Hwf Hs) in Hf.
  destruct (to_list b) as [| y l]; [discriminate |]. cbn in Hf. subst y. left. reflexivity.
Qed.

End CircularBufferContent.

(** ** The command queue on overflow (C10) *)

Section CommandPoolProps.
Import CommandPool.

(** One turn of the loop of [runCommandPool] on a queue whose front holds a
    request: the request is handed to [_sendCommand], which enters the native
    call. *)
Lemma pool_loop_front fuel k s c :
  CircularBuffer.isEmpty (_commands s) = false ->
  CircularBuffer.front (_commands s) = Some c ->
  module_device s = true ->
  pool_loop fuel k s =
    mk (_commands s) true true (<[k := AwaitNative c]> (pools s))
       (next_pool s) (next_cmd s) (log s ++ [NativeBegin (cmd_id c)]).
Proof.
  intros He Hf Hm. destruct fuel; cbn [pool_loop]; rewrite He, Hf, Hm; reflexivity.
Qed.

(** While the flag is set, [sendCommand] only appends to the queue. *)
Lemma sendCommand_busy r s :
  _sendCommandInProcess s = true ->
  sendCommand r s =
    mk (CircularBuffer.push_back (mkReq (next_cmd s) r) (_commands s)) true
       (module_device s) (pools s) (next_pool s) (S (next_cmd s)) (log s).
Proof.
  intros Hb. unfold sendCommand, runCommandPool.
  cbn [_sendCommandInProcess]. rewrite Hb. reflexivity.
Qed.

(** A reply that parses, seen by the activation [k] that awaits it: the
    request the activation holds is settled and the front of the queue, whatever
    it is by then, is removed. *)
Lemma reply_settles k c rep s :
  pools s !! k = Some (AwaitNative c) ->
  run [EvNativeDone k 0 (Parsed rep); EvResume k; EvResume k] s =
    let s1 := mk (CircularBuffer.pop_front 1 (_commands s)) false (module_device s)
                 (<[k := AwaitSend c (Some rep)]>
                    (<[k := AwaitParse c rep]> (pools s)))
                 (next_pool s) (next_cmd s)
                 (log s ++ [NativeEnd (cmd_id c)] ++ [settle c (Some rep)]) in
    pool_loop (loop_fuel s1) k s1.
Proof.
  intros Hk. unfold run. cbn [fold_left].
  unfold step at 3. rewrite Hk. cbn [Z.eqb negb].
  unfold step at 2. cbn [pools]. rewrite lookup_insert_eq.
  unfold step at 1. cbn [pools]. rewrite lookup_insert_eq.
  cbn [_commands _sendCommandInProcess module_device pools next_pool next_cmd log].
  rewrite <- app_assoc. reflexivity.
Qed.

(** A reply that parses while a second request waits behind the front of
    the queue: the request the activation holds is settled, the front of the
    queue, whatever it is, is removed, and the native call of the request
    behind it is entered. *)
Lemma reply_next s k c x y rest rep :
  CircularBuffer.wf (_commands s) ->
  queued s = x :: Some y :: rest ->
  module_device s = true ->
  pools s !! k = Some (AwaitNative c) ->
  run (reply k rep) s
  = mk (CircularBuffer.pop_front 1 (_commands s)) true true
       (<[k := AwaitNative y]>
          (<[k := AwaitSend c (Some rep)]> (<[k := AwaitParse c rep]> (pools s))))
       (next_pool s) (next_cmd s)
       (log s ++ [NativeEnd (cmd_id c); settle c (Some rep); NativeBegin (cmd_id y)])
  /\ queued (run (reply k rep) s) = Some y :: rest.
Proof.
  intros Hwf Hq Hmd Hk.
  set (q2 := CircularBuffer.pop_front 1 (_commands s)).
  assert (Hwf2 : CircularBuffer.wf q2) by (apply wf_pop_front; exact Hwf).
  assert (Hq2 : CircularBuffer.to_list q2 = Some y :: rest).
  { unfold q2. rewrite to_list_pop_front_tl by exact Hwf.
    unfold queued in Hq. rewrite Hq. reflexivity. }
  assert (Hsz2 : 1 <= CircularBuffer.size q2).
  { pose proof (to_list_length q2) as Hl. rewrite Hq2 in Hl. cbn [length] in Hl. lia. }
  assert (He2 : CircularBuffer.isEmpty q2 = false).
  { destruct (CircularBuffer.isEmpty q2) eqn:E; [| reflexivity].
    apply isEmpty_size in E; [lia | exact Hwf2]. }
  assert (Hf2 : CircularBuffer.front q2 = Some y).
  { rewrite <- front_to_list by (auto; lia). rewrite Hq2. reflexivity. }
  assert (E : run (reply k rep) s
              = mk q2 true true
                   (<[k := AwaitNative y]>
                      (<[k := AwaitSend c (Some rep)]> (<[k := AwaitParse c rep]> (pools s))))
                   (next_pool s) (next_cmd s)
                   (log s ++ [NativeEnd (cmd_id c); settle c (Some rep);
                              NativeBegin (cmd_id y)])).
  { unfold reply. rewrite (reply_settles k c rep s Hk). cbv zeta.
    rewrite (pool_loop_front _ k _ y); cbn [_commands module_device pools next_pool
                                             next_cmd log]; auto.
    rewrite <- !app_assoc. reflexivity. }
  split; [exact E |]. rewrite E. exact Hq2.
Qed.

(** *** A request that is gone stays gone *)

Lemma obs_id_settle c r : obs_id (settle c r) = cmd_id c.
Proof. destruct r as [[| |] |]; reflexivity. Qed.

Lemma after_refl i s : gone i s -> after i s s.
Proof. intros H. split; [exact H |]. exists []. rewrite app_nil_r. auto. Qed.

Lemma after_trans i s1 s2 s3 : after i s1 s2 -> after i s2 s3 -> after i s1 s3.
Proof.
  intros (_ & l1 & E1 & F1) (H3 & l2 & E2 & F2). split; [exact H3 |].
  exists (l1 ++ l2). rewrite E2, E1, app_assoc. split; [reflexivity |].
  apply Forall_app; auto.
Qed.

Lemma gone_pop_front i q f md ps np nc lg :
  gone i (mk q f md ps np nc lg) ->
  forall f' lg', gone i (mk (CircularBuffer.pop_front 1 q) f' md ps np nc lg').
Proof.
  intros (Hwf & Hq & Hp & Hn) f' lg'. unfold gone, queued in *. cbn [_commands pools next_cmd] in *.
  split; [apply wf_pop_front; exact Hwf |]. split; [| auto].
  intros c Hc. rewrite to_list_pop_front_tl in Hc by exact Hwf.
  apply Hq. destruct (CircularBuffer.to_list q); [contradiction | right; exact Hc].
Qed.

Lemma pool_loop_after i fuel k s : gone i s -> after i s (pool_loop fuel k s).
Proof.
  revert s. induction fuel as [| fuel IH]; intros s Hg; pose proof Hg as (Hwf & Hq & Hp & Hn);
    cbn [pool_loop];
    (destruct (CircularBuffer.isEmpty (_commands s)) eqn:He;
     [| destruct (CircularBuffer.front (_commands s)) as [c |] eqn:Hf;
        [destruct (module_device s) |]]).
  1, 5: (split; [| exists []; cbn [log]; rewrite app_nil_r; auto];
         unfold gone, queued; cbn [_commands pools next_cmd];
         split; [exact Hwf |]; split; [exact Hq |]; split; [| exact Hn];
         intros k' a Hk'; apply lookup_delete_Some in Hk' as [_ Hk']; eauto).
  1, 4: (pose proof (Hq c (front_in _ _ Hwf He Hf)) as Hc;
         split; [| exists [NativeBegin (cmd_id c)]; cbn [log]; split; [reflexivity |];
                   constructor; [exact Hc | constructor]];
         unfold gone, queued; cbn [_commands pools next_cmd];
         split; [exact Hwf |]; split; [exact Hq |]; split; [| exact Hn];
         intros k' a Hk'; apply lookup_insert_Some in Hk' as [[_ <-] | [_ Hk']];
         [exact Hc | eauto]).
  1, 3: (pose proof (Hq c (front_in _ _ Hwf He Hf)) as Hc;
         split; [| exists []; cbn [log]; rewrite app_nil_r; auto];
         unfold gone, queued; cbn [_commands pools next_cmd];
         split; [exact Hwf |]; split; [exact Hq |]; split; [| exact Hn];
         intros k' a Hk'; apply lookup_insert_Some in Hk' as [[_ <-] | [_ Hk']];
         [exact Hc | eauto]).
  - apply after_refl, Hg.
  - destruct s as [q f md ps np nc lg]. cbn [_commands _sendCommandInProcess module_device
                                              pools next_pool next_cmd log] in *.
    pose proof (gone_pop_front i q f md ps np nc lg Hg f lg) as Hg'.
    destruct (IH _ Hg') as (H1 & l & E & F). split; [exact H1 |].
    exists l. split; [exact E | exact F].
Qed.

Lemma step_after i e s : gone i s -> after i s (step e s).
Proof.
  intros Hg. pose proof Hg as (Hwf & Hq & Hp & Hn).
  destruct e as [r | k res out | k]; cbn [step].
  - (* a call: the new request has a fresh number *)
    unfold sendCommand, runCommandPool. cbn [_sendCommandInProcess].
    set (q1 := CircularBuffer.push_back (mkReq (next_cmd s) r) (_commands s)).
    assert (Hq1 : forall c, In (Some c) (CircularBuffer.to_list q1) -> cmd_id c <> i).
    { intros c Hc. unfold q1 in Hc. rewrite to_list_push_back_any in Hc by exact Hwf.
      apply in_app_or in Hc as [Hc | [[= <-] | []]]; [| cbn; lia].
      apply Hq. unfold queued.
      destruct (CircularBuffer._bufferFull (_commands s)); [| exact Hc].
      destruct (CircularBuffer.to_list (_commands s)); [contradiction | right; exact Hc]. }
    assert (Hg1 : forall f np, gone i (mk q1 f (module_device s) (pools s) np
                                          (S (next_cmd s)) (log s))).
    { intros f np. unfold gone, queued. cbn [_commands pools next_cmd].
      split; [apply wf_push_back; exact Hwf |]. split; [exact Hq1 |].
      split; [exact Hp | lia]. }
    destruct (_sendCommandInProcess s).
    + split; [apply Hg1 |]. exists []. cbn [log]. rewrite app_nil_r. auto.
    + cbv zeta. cbn [_commands module_device pools next_pool next_cmd log].
      destruct (pool_loop_after i
                  (loop_fuel (mk q1 true (module_device s) (pools s) (S (next_pool s))
                                 (S (next_cmd s)) (log s)))
                  (next_pool s) _ (Hg1 true (S (next_pool s)))) as (H1 & l & E & F).
      split; [exact H1 |]. exists l. split; [exact E | exact F].
  - (* the native call returns *)
    destruct (pools s !! k) as [[c | c r | c r] |] eqn:Hk; try (apply after_refl, Hg).
    pose proof (Hp k _ Hk) as Hc. cbn [kont_req] in Hc.
    assert (Hins : forall f a, kont_req a = c ->
              after i s (mk (_commands s) f (module_device s) (<[k := a]> (pools s))
                            (next_pool s) (next_cmd s) (log s ++ [NativeEnd (cmd_id c)]))).
    { intros f a Ha. split.
      - unfold gone, queued. cbn [_commands pools next_cmd].
        split; [exact Hwf |]. split; [exact Hq |]. split; [| exact Hn].
        intros k' a' Hk'. apply lookup_insert_Some in Hk' as [[_ <-] | [_ Hk']];
          [rewrite Ha; exact Hc | eauto].
      - exists [NativeEnd (cmd_id c)]. cbn [log]. split; [reflexivity |].
        constructor; [exact Hc | constructor]. }
    destruct (negb (res =? 0)); [apply Hins; reflexivity |].
    destruct out; apply Hins; reflexivity.
  - (* a continuation runs *)
    destruct (pools s !! k) as [[c | c r | c r] |] eqn:Hk; try (apply after_refl, Hg).
    + pose proof (Hp k _ Hk) as Hc. cbn [kont_req] in Hc. split.
      * unfold gone, queued. cbn [_commands pools next_cmd].
        split; [exact Hwf |]. split; [exact Hq |]. split; [| exact Hn].
        intros k' a' Hk'. apply lookup_insert_Some in Hk' as [[_ <-] | [_ Hk']];
          [exact Hc | eauto].
      * exists []. cbn [log]. rewrite app_nil_r. auto.
    + pose proof (Hp k _ Hk) as Hc. cbn [kont_req] in Hc. cbv zeta.
      destruct s as [q f md ps np nc lg]. cbn [_commands _sendCommandInProcess module_device
                                                pools next_pool next_cmd log] in *.
      pose proof (gone_pop_front i q f md ps np nc lg Hg f (lg ++ [settle c r])) as Hg'.
      destruct (pool_loop_after i
                  (loop_fuel (mk (CircularBuffer.pop_front 1 q) f md ps np nc
                                 (lg ++ [settle c r]))) k _ Hg') as (H1 & l & E & F).
      split; [exact H1 |]. exists ([settle c r] ++ l). cbn [log] in E.
      rewrite E, <- app_assoc. split; [reflexivity |].
      apply Forall_app. split; [| exact F].
      constructor; [rewrite obs_id_settle; exact Hc | constructor].
Qed.

Lemma run_after i evs s : gone i s -> after i s (run evs s).
Proof.
  revert s. induction evs as [| e evs IH]; intros s Hg; [apply after_refl, Hg |].
  unfold run. cbn [fold_left]. fold (run evs (step e s)).
  pose proof (step_after i e s Hg) as H1.
  exact (after_trans _ _ _ _ H1 (IH _ (proj1 H1))).
Qed.

(** *** Calls that are not answered *)







End CommandPoolProps.




(** ** The command channel (C2) *)


(** C2 (divergence).  [_sendCommand] clears [_sendCommandInProcess] before the
    loop of [runCommandPool] that awaits it has run again, so the flag is off
    while the request is still at the front of the queue.  A call of
    [sendCommand] at that point starts a second activation of the loop, which
    sends the front request [a] once more; when the first activation then
    runs, it settles [a], removes it and sends [b]: two native calls are in
    progress at once, begun by different activations, and the native call for
    [b] begins while the second one for [a] is unanswered.  The window is
    reached after a failed native call ([res <> 0]) and after a reply that
    parses. *)
Theorem sendCommand_single_flight_race (a b res : Z) (rep : CommandPool.Reply) :
  res <> 0 ->
  let failed :=
    CommandPool.run
      [CommandPool.EvSendCommand a;
       CommandPool.EvNativeDone 0 res CommandPool.ParseThrows;
       CommandPool.EvSendCommand b;
       CommandPool.EvResume 0] (CommandPool.init true) in
  let replied :=
    CommandPool.run
      [CommandPool.EvSendCommand a;
       CommandPool.EvNativeDone 0 0 (CommandPool.Parsed rep);
       CommandPool.EvResume 0;
       CommandPool.EvSendCommand b;
       CommandPool.EvResume 0] (CommandPool.init true) in
  CommandPool.natives_in_progress failed = 2%nat
  /\ CommandPool.log failed
     = [CommandPool.NativeBegin 0; CommandPool.NativeEnd 0; CommandPool.NativeBegin 0;
        CommandPool.Reject 0; CommandPool.NativeBegin 1]
  /\ CommandPool.pools failed !! 0%nat
     = Some (CommandPool.AwaitNative (CommandPool.mkReq 1 b))
  /\ CommandPool.pools failed !! 1%nat
     = Some (CommandPool.AwaitNative (CommandPool.mkReq 0 a))
  /\ CommandPool.natives_in_progress replied = 2%nat
  /\ CommandPool.log replied
     = [CommandPool.NativeBegin 0; CommandPool.NativeEnd 0; CommandPool.NativeBegin 0;
        CommandPool.settle (CommandPool.mkReq 0 a) (Some rep); CommandPool.NativeBegin 1].
Proof.
  intros Hres. cbv zeta.
  destruct res; [contradiction | |]; repeat split; vm_compute; reflexivity.
Qed.

Lemma sendCommand_single_flight_race_witness :
  CommandPool.natives_in_progress
    (CommandPool.run
       [CommandPool.EvSendCommand 10;
        CommandPool.EvNativeDone 0 5 CommandPool.ParseThrows;
        CommandPool.EvSendCommand 20;
        CommandPool.EvResume 0] (CommandPool.init true)) = 2%nat.
Proof.
  pose proof (sendCommand_single_flight_race 10 20 5 (CommandPool.ReplyOk 7)) as H.
  cbv zeta in H. destruct (H ltac:(lia)) as (Hn & _). exact Hn.
Defined.

(** ** The circular buffer as a bounded deque *)

Ltac cb_split :=
  repeat (cbn [CircularBuffer._bufferFull CircularBuffer._bufferHead
               CircularBuffer._bufferTail CircularBuffer._bufferLen
               CircularBuffer._buffer andb orb negb] in *;
          match goal with
          | |- context [Z.leb ?x ?y] => destruct (Z.leb_spec x y)
          | |- context [Z.ltb ?x ?y] => destruct (Z.ltb_spec x y)
          | |- context [Z.geb ?x ?y] => destruct (Z.geb_spec x y)
          | |- context [Z.gtb ?x ?y] => destruct (Z.gtb_spec x y)
          | |- context [Z.eqb ?x ?y] => destruct (Z.eqb_spec x y)
          | H : context [Z.leb ?x ?y] |- _ => destruct (Z.leb_spec x y)
          end).

Lemma map_seq_from {A} (f : nat -> A) (c m : nat) :
  map f (seq c m) = map (fun k => f (c + k)%nat) (seq 0 m).
Proof.
  revert c. induction m as [| m IH]; intros c; [reflexivity |].
  cbn [seq map]. f_equal; [f_equal; lia |].
  rewrite IH, <- seq_shift, map_map. apply map_ext. intros k. f_equal. lia.
Qed.

Section CircularBufferDeque.
Context {T : Type}.
Import CircularBuffer.
Implicit Types b : t T.

Lemma back_to_list b : wf b -> 1 <= size b -> back b = List.last (to_list b) None.
Proof.
  intros Hwf Hs. pose proof Hwf as (Hl & Hb & Hh & Ht & Hf).
  pose proof (size_range b Hwf) as Hr. unfold capacity in Hr.
  rewrite to_list_slots.
  replace (Z.to_nat (size b)) with (S (Z.to_nat (size b - 1))) by lia.
  rewrite seq_S, map_app. cbn [map]. rewrite last_last.
  unfold slot_at, back. f_equal. cbn [Nat.add]. rewrite Z2Nat.id by lia.
  rewrite mod_2range by lia.
  unfold size in *. destruct (_bufferFull b); [specialize (Hf eq_refl) |]; cb_split; lia.
Qed.

Lemma pop_front_fields cnt b :
  wf b -> 1 <= cnt < size b ->
  size (pop_front cnt b) = size b - cnt
  /\ _bufferHead (pop_front cnt b) = (_bufferHead b + cnt) mod _bufferLen b
  /\ _buffer (pop_front cnt b) = _buffer b
  /\ _bufferLen (pop_front cnt b) = _bufferLen b.
Proof.
  intros Hwf Hc. pose proof Hwf as (Hl & Hb & Hh & Ht & Hf).
  pose proof (size_range b Hwf) as Hr. unfold capacity in Hr.
  unfold pop_front. destruct (Z.ltb_spec cnt 1); [lia |]. cbv zeta.
  rewrite rem_nonneg by lia. rewrite mod_2range by lia.
  unfold size in *.
  destruct (_bufferFull b); [specialize (Hf eq_refl) |]; cb_split; repeat split; lia.
Qed.

Lemma pop_front_all cnt b : 1 <= cnt -> size b <= cnt -> size (pop_front cnt b) = 0.
Proof.
  intros H1 H2. unfold pop_front. destruct (Z.ltb_spec cnt 1); [lia |]. cbv zeta.
  destruct (Z.geb_spec cnt (size b)); [| lia].
  unfold size at 1. cbn [_bufferFull _bufferHead _bufferTail _bufferLen].
  rewrite Z.leb_refl. lia.
Qed.

Lemma pop_back_all cnt b : 1 <= cnt -> size b <= cnt -> size (pop_back cnt b) = 0.
Proof.
  intros H1 H2. unfold pop_back. destruct (Z.ltb_spec cnt 1); [lia |]. cbv zeta.
  destruct (Z.geb_spec cnt (size b)); [| lia].
  unfold size at 1. cbn [_bufferFull _bufferHead _bufferTail _bufferLen].
  rewrite Z.leb_refl. lia.
Qed.

Lemma to_list_empty b : size b <= 0 -> to_list b = [].
Proof.
  intros H. rewrite to_list_slots. replace (Z.to_nat (size b)) with 0%nat by lia. reflexivity.
Qed.

Lemma to_list_pop_front cnt b :
  wf b -> 1 <= cnt -> to_list (pop_front cnt b) = skipn (Z.to_nat cnt) (to_list b).
Proof.
  intros Hwf Hc. pose proof Hwf as (Hl & Hb & Hh & Ht & Hf).
  destruct (Z.le_gt_cases (size b) cnt) as [Hall | Hsome].
  - rewrite to_list_empty by (rewrite pop_front_all; lia).
    symmetry. apply skipn_all2. rewrite to_list_length. lia.
  - destruct (pop_front_fields cnt b Hwf ltac:(lia)) as (Hsz & Hhd & Hbuf & Hlen).
    rewrite !to_list_slots, Hsz, skipn_map, skipn_seq. cbn [Nat.add].
    replace (Z.to_nat (size b) - Z.to_nat cnt)%nat with (Z.to_nat (size b - cnt)) by lia.
    rewrite (map_seq_from _ (Z.to_nat cnt)). apply map_ext. intros k. unfold slot_at.
    rewrite Hhd, Hbuf, Hlen, Zplus_mod_idemp_l. f_equal. f_equal. lia.
Qed.

Lemma pop_back_fields cnt b :
  wf b -> 1 <= cnt < size b ->
  size (pop_back cnt b) = size b - cnt
  /\ _bufferHead (pop_back cnt b) = _bufferHead b
  /\ _buffer (pop_back cnt b) = _buffer b
  /\ _bufferLen (pop_back cnt b) = _bufferLen b.
Proof.
  intros Hwf Hc. pose proof Hwf as (Hl & Hb & Hh & Ht & Hf).
  pose proof (size_range b Hwf) as Hr. unfold capacity in Hr.
  unfold pop_back. destruct (Z.ltb_spec cnt 1); [lia |]. cbv zeta.
  rewrite rem_nonneg by lia. rewrite (Z.mod_small cnt) by lia.
  unfold size in *.
  destruct (_bufferFull b); [specialize (Hf eq_refl) |]; cb_split; repeat split; lia.
Qed.

Lemma to_list_pop_back cnt b :
  wf b -> 1 <= cnt ->
  to_list (pop_back cnt b) = firstn (Z.to_nat (size b - cnt)) (to_list b).
Proof.
  intros Hwf Hc.
  destruct (Z.le_gt_cases (size b) cnt) as [Hall | Hsome].
  - rewrite to_list_empty by (rewrite pop_back_all; lia).
    replace (Z.to_nat (size b - cnt)) with 0%nat by lia. reflexivity.
  - destruct (pop_back_fields cnt b Hwf ltac:(lia)) as (Hsz & Hhd & Hbuf & Hlen).
    rewrite !to_list_slots, Hsz, firstn_map, take_seq.
    replace (Nat.min (Z.to_nat (size b - cnt)) (Z.to_nat (size b)))
      with (Z.to_nat (size b - cnt)) by lia.
    apply map_ext. intros k. unfold slot_at. rewrite Hhd, Hbuf, Hlen. reflexivity.
Qed.


Lemma checkIndex_slot b i :
  wf b -> 0 <= i < _bufferLen b ->
  checkIndex b ((_bufferHead b + i) mod _bufferLen b) = (i <? size b).
Proof.
  intros Hwf Hi. pose proof Hwf as (Hl & Hb & Hh & Ht & Hf).
  rewrite mod_2range by lia.
  destruct (Z.ltb_spec (_bufferHead b + i) (_bufferLen b)).
  all: unfold checkIndex, size.
  all: destruct (_bufferFull b); [specialize (Hf eq_refl) |]; cb_split; cbn [andb orb].
  all: first [reflexivity | exfalso; lia].
Qed.

Lemma slot_index_inj b i k :
  wf b -> 0 <= i < _bufferLen b -> 0 <= k < _bufferLen b ->
  (_bufferHead b + i) mod _bufferLen b = (_bufferHead b + k) mod _bufferLen b -> i = k.
Proof.
  intros (Hl & Hb & Hh & Ht & Hf) Hi Hk. rewrite !mod_2range by lia.
  destruct (Z.ltb_spec (_bufferHead b + i) (_bufferLen b));
    destruct (Z.ltb_spec (_bufferHead b + k) (_bufferLen b)); lia.
Qed.

Lemma to_list_lookup b (k : nat) :
  to_list b !! k = if (Z.of_nat k <? size b) then Some (slot_at b k) else None.
Proof.
  rewrite to_list_slots. change (map (slot_at b)) with (fmap (M := list) (slot_at b)).
  rewrite list_lookup_fmap.
  destruct (Z.ltb_spec (Z.of_nat k) (size b)).
  - rewrite lookup_seq_lt by lia. reflexivity.
  - rewrite lookup_seq_ge by lia. reflexivity.
Qed.

Lemma get_lookup b i :
  wf b -> 0 <= i < capacity b -> get i b = to_list b !! Z.to_nat i.
Proof.
  intros Hwf Hi. pose proof Hwf as (Hl & Hb & Hh & Ht & Hf). unfold capacity in Hi.
  unfold get. rewrite rem_nonneg by lia. rewrite checkIndex_slot by auto.
  rewrite to_list_lookup, Z2Nat.id by lia.
  destruct (Z.ltb_spec i (size b)); [| reflexivity].
  unfold slot_at. rewrite Z2Nat.id by lia. reflexivity.
Qed.

Lemma get_wrap b i :
  wf b -> 0 <= i -> get (i + capacity b) b = get i b.
Proof.
  intros (Hl & Hb & Hh & Ht & Hf) Hi. unfold get, capacity.
  rewrite !rem_nonneg by lia.
  replace (_bufferHead b + (i + _bufferLen b)) with (_bufferHead b + i + 1 * _bufferLen b) by lia.
  rewrite Z.mod_add by lia. reflexivity.
Qed.

Lemma set_to_list b i v :
  wf b -> 0 <= i < size b ->
  exists b', set i v b = Some b'
    /\ wf b' /\ size b' = size b /\ capacity b' = capacity b
    /\ to_list b' = <[Z.to_nat i := Some v]> (to_list b).
Proof.
  intros Hwf Hi. pose proof Hwf as (Hl & Hb & Hh & Ht & Hf).
  pose proof (size_range b Hwf) as Hr. unfold capacity in Hr.
  unfold set. rewrite rem_nonneg by lia. rewrite checkIndex_slot by (auto; lia).
  destruct (Z.ltb_spec i (size b)); [| lia].
  pose proof (Z.mod_pos_bound (_bufferHead b + i) (_bufferLen b) Hl) as Htab.
  eexists. split; [reflexivity |].
  split; [| split; [reflexivity | split; [reflexivity |]]].
  - unfold wf. cbn [_bufferLen _buffer _bufferHead _bufferTail _bufferFull].
    rewrite array_set_length_in by lia. auto.
  - apply list_eq. intros k. rewrite to_list_lookup.
    change (size _) with (size b).
    destruct (decide (k = Z.to_nat i)) as [-> | Hne].
    + rewrite list_lookup_insert_eq by (rewrite to_list_length; lia).
      rewrite Z2Nat.id by lia. destruct (Z.ltb_spec i (size b)); [| lia].
      f_equal. unfold slot_at. cbn [_buffer _bufferHead _bufferLen].
      rewrite Z2Nat.id by lia. apply array_get_set_eq. lia.
    + rewrite list_lookup_insert_ne by auto. rewrite to_list_lookup.
      destruct (Z.ltb_spec (Z.of_nat k) (size b)); [| reflexivity].
      f_equal. unfold slot_at. cbn [_buffer _bufferHead _bufferLen].
      apply array_get_set_ne. intros Heq.
      apply (slot_index_inj b i (Z.of_nat k)) in Heq; [lia | auto | lia | lia].
Qed.

Lemma set_out b i v :
  wf b -> size b <= i < capacity b -> set i v b = None /\ get i b = None.
Proof.
  intros Hwf Hi. pose proof Hwf as (Hl & Hb & Hh & Ht & Hf). unfold capacity in Hi.
  pose proof (size_range b Hwf) as Hr.
  unfold set, get. rewrite rem_nonneg by lia. rewrite checkIndex_slot by (auto; lia).
  destruct (Z.ltb_spec i (size b)); [lia | auto].
Qed.

Lemma alloc_back_size cnt b :
  wf b -> 1 <= cnt -> size (alloc_back cnt b) = Z.min (size b + cnt) (capacity b).
Proof.
  intros Hwf Hc. pose proof Hwf as (Hl & Hb & Hh & Ht & Hf).
  pose proof (size_range b Hwf) as Hr. unfold capacity in *.
  unfold alloc_back, capacity. destruct (Z.ltb_spec cnt 1); [lia |]. cbv zeta.
  destruct (Z.ltb_spec (_bufferLen b - size b) cnt).
  - unfold size at 1. cbn [_bufferFull _bufferHead _bufferTail _bufferLen].
    rewrite Z.eqb_refl.
    assert (El : _bufferLen (pop_front (cnt - (_bufferLen b - size b)) b) = _bufferLen b)
      by (unfold pop_front; destruct (_ <? 1); reflexivity).
    lia.
  - rewrite rem_nonneg by lia. rewrite mod_2range by lia.
    unfold size in *.
    destruct (_bufferFull b); [specialize (Hf eq_refl) |]; cb_split; lia.
Qed.

Lemma alloc_front_size cnt b :
  wf b -> 1 <= cnt -> size (alloc_front cnt b) = Z.min (size b + cnt) (capacity b).
Proof.
  intros Hwf Hc. pose proof Hwf as (Hl & Hb & Hh & Ht & Hf).
  pose proof (size_range b Hwf) as Hr. unfold capacity in *.
  unfold alloc_front, capacity. destruct (Z.ltb_spec cnt 1); [lia |]. cbv zeta.
  destruct (Z.ltb_spec (_bufferLen b - size b) cnt).
  - unfold size at 1. cbn [_bufferFull _bufferHead _bufferTail _bufferLen].
    rewrite Z.eqb_refl.
    assert (El : _bufferLen (pop_back (cnt - (_bufferLen b - size b)) b) = _bufferLen b)
      by (unfold pop_back; destruct (_ <? 1); reflexivity).
    lia.
  - unfold size in *.
    destruct (_bufferFull b); [specialize (Hf eq_refl) |]; cb_split; lia.
Qed.

Lemma alloc_back_prefix cnt b :
  wf b -> 1 <= cnt -> size b + cnt <= capacity b ->
  firstn (Z.to_nat (size b)) (to_list (alloc_back cnt b)) = to_list b.
Proof.
  intros Hwf Hc Hfit. pose proof (size_range b Hwf) as Hr.
  pose proof (alloc_back_size cnt b Hwf Hc) as Hsz.
  rewrite !to_list_slots, Hsz, firstn_map, take_seq.
  replace (Nat.min (Z.to_nat (size b)) (Z.to_nat (Z.min (size b + cnt) (capacity b))))
    with (Z.to_nat (size b)) by lia.
  apply map_ext. intros k. unfold slot_at, alloc_back, capacity in *.
  destruct (Z.ltb_spec cnt 1); [lia |]. cbv zeta.
  destruct (Z.ltb_spec (_bufferLen b - size b) cnt); [lia |]. reflexivity.
Qed.

Lemma alloc_front_suffix cnt b :
  wf b -> 1 <= cnt -> size b + cnt <= capacity b ->
  skipn (Z.to_nat cnt) (to_list (alloc_front cnt b)) = to_list b.
Proof.
  intros Hwf Hc Hfit. pose proof Hwf as (Hl & Hb & Hh & Ht & Hf).
  pose proof (size_range b Hwf) as Hr.
  pose proof (alloc_front_size cnt b Hwf Hc) as Hsz.
  rewrite !to_list_slots, Hsz, skipn_map, skipn_seq. cbn [Nat.add].
  replace (Z.to_nat (Z.min (size b + cnt) (capacity b)) - Z.to_nat cnt)%nat
    with (Z.to_nat (size b)) by lia.
  rewrite (map_seq_from _ (Z.to_nat cnt)). apply map_ext. intros k.
  unfold slot_at, alloc_front, capacity in *.
  destruct (Z.ltb_spec cnt 1); [lia |]. cbv zeta.
  destruct (Z.ltb_spec (_bufferLen b - size b) cnt); [lia |].
  cbn [_buffer _bufferHead _bufferLen]. f_equal.
  destruct (Z.ltb_spec (_bufferHead b - cnt) 0).
  - replace (_bufferLen b - (cnt - _bufferHead b) + Z.of_nat (Z.to_nat cnt + k))
      with (_bufferHead b + Z.of_nat k + 1 * _bufferLen b) by lia.
    apply Z.mod_add. lia.
  - f_equal. lia.
Qed.

End CircularBufferDeque.

Section CircularBufferTheorems.
Context {T : Type}.
Import CircularBuffer.

(** Every buffer reached from [new CircularBuffer(len)], [0 < len], is a
    deque over its logical content [to_list] (front first): [isEmpty] holds
    exactly on the empty content; while the buffer is not full [push_back]
    appends and [push_front] prepends; on a non-empty buffer [front] and
    [back] are the first and the last element. *)
Theorem circular_buffer_deque (len : Z) (ops : list (@Op T)) (v : T) :
  0 < len ->
  let b := run ops (create len) in
  length (to_list b) = Z.to_nat (size b)
  /\ (isEmpty b = true <-> to_list b = [])
  /\ (isFull b = false ->
      to_list (push_back v b) = to_list b ++ [Some v]
      /\ to_list (push_front v b) = Some v :: to_list b
      /\ back (push_back v b) = Some v
      /\ front (push_front v b) = Some v)
  /\ (isEmpty b = false ->
      front b = hd None (to_list b) /\ back b = List.last (to_list b) None).
Proof.
  intros Hlen b.
  assert (Hwf : wf b) by (apply wf_run, wf_create, Hlen).
  pose proof (size_range b Hwf) as Hr.
  split; [apply to_list_length |]. split; [| split].
  - rewrite (isEmpty_size b Hwf). split; intros H.
    + apply to_list_empty. lia.
    + pose proof (to_list_length b) as Hl. rewrite H in Hl. cbn in Hl. lia.
  - intros Hnf. unfold isFull in Hnf.
    pose proof (to_list_push_back v b Hwf Hnf) as Hb.
    pose proof (to_list_push_front v b Hwf Hnf) as Hf.
    destruct (push_back_fields v b Hwf Hnf) as (Hsb & _).
    destruct (push_front_fields v b Hwf Hnf) as (Hsf & _).
    split; [exact Hb |]. split; [exact Hf |]. split.
    + rewrite back_to_list by (auto using wf_push_back; lia).
      rewrite Hb. apply last_last.
    + rewrite <- front_to_list by (auto using wf_push_front; lia).
      rewrite Hf. reflexivity.
  - intros Hne.
    assert (Hs : 1 <= size b).
    { destruct (Z.eq_dec (size b) 0) as [E | E]; [| lia].
      apply (isEmpty_size b Hwf) in E. congruence. }
    split; [symmetry; apply front_to_list; auto | apply back_to_list; auto].
Qed.

(** [pop_front(cnt)] drops the [cnt] oldest elements and [pop_back(cnt)] the
    [cnt] newest ones; a count of at least the size empties the buffer, as
    [clear] does, and a count below 1 changes nothing. *)
Theorem circular_buffer_pop (len : Z) (ops : list (@Op T)) (cnt : Z) :
  0 < len ->
  let b := run ops (create len) in
  (1 <= cnt ->
   to_list (pop_front cnt b) = skipn (Z.to_nat cnt) (to_list b)
   /\ to_list (pop_back cnt b) = firstn (Z.to_nat (size b - cnt)) (to_list b)
   /\ (size b <= cnt -> isEmpty (pop_front cnt b) = true /\ isEmpty (pop_back cnt b) = true))
  /\ (cnt < 1 -> pop_front cnt b = b /\ pop_back cnt b = b)
  /\ to_list (clear b) = []
  /\ isEmpty (clear b) = true.
Proof.
  intros Hlen b.
  assert (Hwf : wf b) by (apply wf_run, wf_create, Hlen).
  split; [| split; [| split]].
  - intros Hc. split; [apply to_list_pop_front; auto |].
    split; [apply to_list_pop_back; auto |].
    intros Hall. split.
    + apply isEmpty_size; [apply wf_pop_front, Hwf | apply pop_front_all; auto].
    + apply isEmpty_size; [apply wf_pop_back, Hwf | apply pop_back_all; auto].
  - intros Hc. unfold pop_front, pop_back.
    destruct (Z.ltb_spec cnt 1); [auto | lia].
  - reflexivity.
  - reflexivity.
Qed.

(** [get] and [set] address the logical content by position: inside the
    content [get(i)] is its [i]-th element and [set(i, v)] replaces just that
    element, so that [get(i)] then returns [v]; from the size up to the
    capacity both throw; and an index is taken modulo the capacity, so
    [get(i + capacity)] is [get(i)]. *)
Theorem circular_buffer_get_set (len : Z) (ops : list (@Op T)) (i : Z) (v : T) :
  0 < len ->
  let b := run ops (create len) in
  0 <= i < capacity b ->
  get i b = to_list b !! Z.to_nat i
  /\ (i < size b ->
      exists b', set i v b = Some b'
        /\ to_list b' = <[Z.to_nat i := Some v]> (to_list b)
        /\ size b' = size b
        /\ get i b' = Some (Some v))
  /\ (size b <= i -> set i v b = None /\ get i b = None)
  /\ get (i + capacity b) b = get i b.
Proof.
  intros Hlen b Hi.
  assert (Hwf : wf b) by (apply wf_run, wf_create, Hlen).
  split; [apply get_lookup; auto |]. split; [| split].
  - intros Hs. destruct (set_to_list b i v Hwf ltac:(lia)) as (b' & Hset & Hwf' & Hsz & Hcap & Hl).
    exists b'. split; [exact Hset |]. split; [exact Hl |]. split; [exact Hsz |].
    rewrite get_lookup by (auto; lia). rewrite Hl.
    apply list_lookup_insert_eq. rewrite to_list_length. lia.
  - intros Hs. apply set_out; auto. lia.
  - apply get_wrap; auto. lia.
Qed.

(** [alloc_back(cnt)] and [alloc_front(cnt)], [cnt >= 1], grow the size by
    [cnt], saturating at the capacity; when the [cnt] slots fit into the free
    space the content is kept, before the new slots for [alloc_back] and
    after them for [alloc_front]. *)
Theorem circular_buffer_alloc (len : Z) (ops : list (@Op T)) (cnt : Z) :
  0 < len ->
  1 <= cnt ->
  let b := run ops (create len) in
  size (alloc_back cnt b) = Z.min (size b + cnt) (capacity b)
  /\ size (alloc_front cnt b) = Z.min (size b + cnt) (capacity b)
  /\ (size b + cnt <= capacity b ->
      firstn (Z.to_nat (size b)) (to_list (alloc_back cnt b)) = to_list b
      /\ skipn (Z.to_nat cnt) (to_list (alloc_front cnt b)) = to_list b).
Proof.
  intros Hlen Hc b.
  assert (Hwf : wf b) by (apply wf_run, wf_create, Hlen).
  split; [apply alloc_back_size; auto |]. split; [apply alloc_front_size; auto |].
  intros Hfit. split; [apply alloc_back_prefix; auto | apply alloc_front_suffix; auto].
Qed.

End CircularBufferTheorems.

Lemma circular_buffer_deque_witness :
  let b := CircularBuffer.run [CircularBuffer.OpPushBack 1; CircularBuffer.OpPushBack 2;
                               CircularBuffer.OpPopFront 1; CircularBuffer.OpPushBack 3]
             (CircularBuffer.create 3) in
  CircularBuffer.to_list b = [Some 2; Some 3]
  /\ CircularBuffer.to_list (CircularBuffer.push_back 4 b) = [Some 2; Some 3; Some 4]
  /\ CircularBuffer.to_list (CircularBuffer.push_front 4 b) = [Some 4; Some 2; Some 3].
Proof.
  cbv zeta.
  pose proof (circular_buffer_deque 3
                [CircularBuffer.OpPushBack 1; CircularBuffer.OpPushBack 2;
                 CircularBuffer.OpPopFront 1; CircularBuffer.OpPushBack 3] 4 ltac:(lia)) as H.
  cbv zeta in H. destruct H as (_ & _ & Hpush & _).
  destruct (Hpush eq_refl) as (Hb & Hf & _).
  split; [reflexivity |]. split; [rewrite Hb | rewrite Hf]; reflexivity.
Defined.

Lemma circular_buffer_pop_witness :
  let b := CircularBuffer.run [CircularBuffer.OpPushBack 1; CircularBuffer.OpPushBack 2;
                               CircularBuffer.OpPushBack 3; CircularBuffer.OpPushBack 4]
             (CircularBuffer.create 3) in
  CircularBuffer.to_list b = [Some 2; Some 3; Some 4]
  /\ CircularBuffer.to_list (CircularBuffer.pop_front 2 b) = [Some 4]
  /\ CircularBuffer.to_list (CircularBuffer.pop_back 2 b) = [Some 2].
Proof.
  cbv zeta.
  pose proof (circular_buffer_pop 3
                [CircularBuffer.OpPushBack 1; CircularBuffer.OpPushBack 2;
                 CircularBuffer.OpPushBack 3; CircularBuffer.OpPushBack 4] 2 ltac:(lia)) as H.
  cbv zeta in H. destruct H as (Hpop & _).
  destruct (Hpop ltac:(lia)) as (Hf & Hb & _).
  split; [reflexivity |]. split; [rewrite Hf | rewrite Hb]; reflexivity.
Defined.

Lemma circular_buffer_get_set_witness :
  let b := CircularBuffer.run [CircularBuffer.OpPushBack 1; CircularBuffer.OpPushBack 2;
                               CircularBuffer.OpPushBack 3; CircularBuffer.OpPushBack 4;
                               CircularBuffer.OpPopBack 1]
             (CircularBuffer.create 3) in
  CircularBuffer.get 1 b = Some (Some 3)
  /\ CircularBuffer.get 2 b = None
  /\ CircularBuffer.get 4 b = Some (Some 3).
Proof.
  cbv zeta.
  pose proof (circular_buffer_get_set 3
                [CircularBuffer.OpPushBack 1; CircularBuffer.OpPushBack 2;
                 CircularBuffer.OpPushBack 3; CircularBuffer.OpPushBack 4;
                 CircularBuffer.OpPopBack 1] 1 7 ltac:(lia)) as H1.
  pose proof (circular_buffer_get_set 3
                [CircularBuffer.OpPushBack 1; CircularBuffer.OpPushBack 2;
                 CircularBuffer.OpPushBack 3; CircularBuffer.OpPushBack 4;
                 CircularBuffer.OpPopBack 1] 2 7 ltac:(lia)) as H2.
  cbv zeta in H1, H2.
  destruct (H1 ltac:(vm_compute; split; congruence)) as (Hg & _ & _ & Hw).
  destruct (H2 ltac:(vm_compute; split; congruence)) as (_ & _ & Hout & _).
  split; [rewrite Hg; reflexivity |].
  split; [apply Hout; vm_compute; congruence |].
  etransitivity; [exact Hw |]. rewrite Hg. reflexivity.
Defined.

Lemma circular_buffer_alloc_witness :
  let b := CircularBuffer.run [CircularBuffer.OpPushBack 1; CircularBuffer.OpPushBack 2]
             (CircularBuffer.create 5) in
  CircularBuffer.size (CircularBuffer.alloc_back 2 b) = 4
  /\ CircularBuffer.size (CircularBuffer.alloc_front 7 b) = 5
  /\ firstn 2 (CircularBuffer.to_list (CircularBuffer.alloc_back 2 b)) = [Some 1; Some 2].
Proof.
  cbv zeta.
  pose proof (circular_buffer_alloc 5
                [CircularBuffer.OpPushBack 1; CircularBuffer.OpPushBack 2] 2
                ltac:(lia) ltac:(lia)) as H2.
  pose proof (circular_buffer_alloc (T := Z) 5
                [CircularBuffer.OpPushBack 1; CircularBuffer.OpPushBack 2] 7
                ltac:(lia) ltac:(lia)) as H7.
  cbv zeta in H2, H7.
  destruct H2 as (Hb & _ & Hfit). destruct H7 as (_ & Hf & _).
  destruct (Hfit ltac:(vm_compute; congruence)) as (Hpre & _).
  split; [rewrite Hb; reflexivity |]. split; [rewrite Hf; reflexivity |].
  exact Hpre.
Defined.

(** ** Correlation ids ([promiseHelper.ts], [webUsbManager.ts]) *)

Section PromiseIds.
Import PromiseHelper.

Lemma ids_bounded_create : PromiseHelper.ids_bounded create.
Proof. split; [cbn; lia |]. intros j H. cbn in H. rewrite lookup_empty in H. congruence. Qed.

Lemma ids_bounded_createPromise h : PromiseHelper.ids_bounded h -> PromiseHelper.ids_bounded (createPromise h).2.
Proof.
  intros [H0 Hb]. split; cbn; [lia |]. intros j Hj.
  destruct (decide (j = _promiseMapId h + 1)) as [-> | Hne]; [lia |].
  rewrite lookup_insert_ne in Hj by congruence. specialize (Hb j Hj). lia.
Qed.

Lemma ids_bounded_deletePromise h id : PromiseHelper.ids_bounded h -> PromiseHelper.ids_bounded (deletePromise h id).
Proof.
  intros [H0 Hb]. split; cbn; [lia |]. intros j Hj. apply Hb.
  destruct (decide (j = id)) as [-> | Hne].
  - rewrite lookup_delete_eq in Hj. congruence.
  - rewrite lookup_delete_ne in Hj by congruence. exact Hj.
Qed.

Lemma ids_bounded_run ops h : PromiseHelper.ids_bounded h -> PromiseHelper.ids_bounded (run ops h).
Proof.
  revert h. induction ops as [| o ops IH]; intros h Hb; [exact Hb |].
  cbn. apply IH. destruct o; cbn.
  - apply ids_bounded_createPromise, Hb.
  - apply ids_bounded_deletePromise, Hb.
  - apply ids_bounded_create.
Qed.

Lemma createPromise_fresh h :
  PromiseHelper.ids_bounded h ->
  getPromise h (createPromise h).1 = None
  /\ getPromise (createPromise h).2 (createPromise h).1 = Some tt
  /\ (forall j, j <> (createPromise h).1 ->
        getPromise (createPromise h).2 j = getPromise h j)
  /\ (forall j, getPromise (deletePromise (createPromise h).2 (createPromise h).1) j
                = getPromise h j).
Proof.
  intros [H0 Hb]. unfold getPromise. cbn.
  assert (Hfresh : _promiseMap h !! (_promiseMapId h + 1) = None).
  { destruct (_promiseMap h !! (_promiseMapId h + 1)) eqn:E; [| reflexivity].
    assert (Hne : _promiseMap h !! (_promiseMapId h + 1) <> None) by congruence.
    specialize (Hb _ Hne). lia. }
  split; [exact Hfresh |]. split; [apply lookup_insert_eq |]. split.
  - intros j Hne. apply lookup_insert_ne. congruence.
  - intros j. destruct (decide (j = _promiseMapId h + 1)) as [-> | Hne].
    + rewrite lookup_delete_eq. symmetry. exact Hfresh.
    + rewrite lookup_delete_ne, lookup_insert_ne by congruence. reflexivity.
Qed.

(** After any sequence of [createPromise], [deletePromise] and [clear], the
    id [createPromise] returns is greater than every id of a pending promise,
    so it names no pending promise; the new promise is then pending under
    that id, no other entry changes, and [deletePromise] of the id restores
    the pending promises as they were.  [deletePromise] of an id that is not
    pending changes nothing. *)
Theorem promise_ids_fresh (ops : list Op) (j : Z) :
  let h := run ops create in
  let id := (createPromise h).1 in
  let h' := (createPromise h).2 in
  id = _promiseMapId h + 1
  /\ (getPromise h j <> None -> 1 <= j < id)
  /\ getPromise h id = None
  /\ getPromise h' id = Some tt
  /\ (j <> id -> getPromise h' j = getPromise h j)
  /\ getPromise (deletePromise h' id) j = getPromise h j
  /\ (getPromise h j = None -> _promiseMap (deletePromise h j) = _promiseMap h).
Proof.
  intros h id h'.
  assert (Hb : PromiseHelper.ids_bounded h) by (apply ids_bounded_run, ids_bounded_create).
  destruct (createPromise_fresh h Hb) as (H1 & H2 & H3 & H4).
  split; [reflexivity |]. split.
  { intros Hj. destruct Hb as [_ Hb]. specialize (Hb j Hj). subst id. cbn. lia. }
  split; [exact H1 |]. split; [exact H2 |]. split; [apply H3 |]. split; [apply H4 |].
  intros Hn. cbn. apply delete_id. exact Hn.
Qed.

End PromiseIds.

Section WorkerRoundTrip.
Import WebUsbWorkerManager.

Lemma post_helper w ty s :
  _promiseHelper (post w ty s).2 = (PromiseHelper.createPromise (_promiseHelper s)).2
  /\ (post w ty s).1 = (PromiseHelper.createPromise (_promiseHelper s)).1.
Proof. unfold post. cbn. auto. Qed.

Lemma post_bounded w ty s :
  PromiseHelper.ids_bounded (_promiseHelper s) ->
  PromiseHelper.ids_bounded (_promiseHelper (post w ty s).2).
Proof.
  intros Hb.
  change (_promiseHelper (post w ty s).2)
    with (PromiseHelper.createPromise (_promiseHelper s)).2.
  apply ids_bounded_createPromise, Hb.
Qed.

Lemma startWorker_helper_bounded s :
  PromiseHelper.ids_bounded (_promiseHelper s) ->
  PromiseHelper.ids_bounded (_promiseHelper (startWorker s).2).
Proof.
  intros Hb. unfold startWorker. apply post_bounded. cbn [_promiseHelper].
  unfold stopWorker. destruct (worker s); [apply post_bounded |]; exact Hb.
Qed.

Lemma invoke_helper_bounded c s :
  PromiseHelper.ids_bounded (_promiseHelper s) ->
  PromiseHelper.ids_bounded (_promiseHelper (invoke c s).2).
Proof.
  intros Hb.
  assert (Hpost : forall w ty (k : Z -> Result),
            PromiseHelper.ids_bounded
              (_promiseHelper (let (id, s') := post w ty s in (k id, s')).2)).
  { intros w ty k. destruct (post w ty s) as [i s0] eqn:Ep.
    replace s0 with (post w ty s).2 by (rewrite Ep; reflexivity).
    apply post_bounded, Hb. }
  assert (Hreq : forall ty, PromiseHelper.ids_bounded (_promiseHelper (request ty s).2)).
  { intros ty. unfold request. destruct (worker s); [apply Hpost | exact Hb]. }
  destruct c; cbn [invoke]; try apply Hreq.
  - unfold open. destruct vendorId, productId; try exact Hb.
    destruct (worker s) eqn:E; [apply Hpost |].
    destruct (startWorker s) as [i s0] eqn:Es.
    replace s0 with (startWorker s).2 by (rewrite Es; reflexivity).
    apply startWorker_helper_bounded, Hb.
  - unfold close. destruct (worker s); [| exact Hb].
    destruct (fd <? 0); [exact Hb | apply Hpost].
Qed.

Lemma onWorkerMessage_helper from ty id ok s :
  _promiseHelper (onWorkerMessage from ty id ok s)
  = if bool_decide (from ∈ listening s) then
      match id with
      | Some i => match PromiseHelper.getPromise (_promiseHelper s) i with
                  | Some _ => PromiseHelper.deletePromise (_promiseHelper s) i
                  | None => _promiseHelper s
                  end
      | None => _promiseHelper s
      end
    else _promiseHelper s.
Proof.
  unfold onWorkerMessage. destruct (bool_decide (from ∈ listening s)); [| reflexivity].
  assert (Hs : _promiseHelper (match ty with STOP => onStopWorker s | _ => s end)
               = _promiseHelper s).
  { destruct ty; try reflexivity. unfold onStopWorker. destruct (worker s); reflexivity. }
  cbn [_promiseHelper]. rewrite Hs. reflexivity.
Qed.

Lemma step_helper_bounded e s :
  PromiseHelper.ids_bounded (_promiseHelper s) -> PromiseHelper.ids_bounded (_promiseHelper (step e s)).
Proof.
  intros Hb. destruct e as [c | from ty id ok]; cbn [step].
  - apply invoke_helper_bounded, Hb.
  - rewrite onWorkerMessage_helper.
    destruct (bool_decide _); [| exact Hb]. destruct id as [i |]; [| exact Hb].
    destruct (PromiseHelper.getPromise _ i); [| exact Hb].
    apply ids_bounded_deletePromise, Hb.
Qed.

Lemma run_helper_bounded evs s :
  PromiseHelper.ids_bounded (_promiseHelper s) -> PromiseHelper.ids_bounded (_promiseHelper (run evs s)).
Proof.
  revert s. induction evs as [| e evs IH]; intros s Hb; [exact Hb |].
  cbn. apply IH, step_helper_bounded, Hb.
Qed.

Lemma invoke_pending c s id s' :
  invoke c s = (Pending id, s') ->
  id = (PromiseHelper.createPromise (_promiseHelper s)).1
  /\ _promiseHelper s' = (PromiseHelper.createPromise (_promiseHelper s)).2
  /\ worker s' = worker s /\ listening s' = listening s
  /\ exists w, worker s = Some w /\ posted s' = posted s ++ [(w, mkRequest (request_type c) id)].
Proof.
  assert (Hreq : forall ty, request ty s = (Pending id, s') ->
            id = (PromiseHelper.createPromise (_promiseHelper s)).1
            /\ _promiseHelper s' = (PromiseHelper.createPromise (_promiseHelper s)).2
            /\ worker s' = worker s /\ listening s' = listening s
            /\ exists w, worker s = Some w /\ posted s' = posted s ++ [(w, mkRequest ty id)]).
  { intros ty. unfold request. destruct (worker s) as [w |] eqn:E; [| discriminate].
    unfold post. cbn. intros H. injection H as <- <-. cbn. rewrite E. eauto 10. }
  destruct c; cbn [invoke request_type]; try apply Hreq.
  - unfold open. destruct vendorId, productId; try discriminate.
    destruct (worker s) as [w |] eqn:E.
    + unfold post. cbn. intros H. injection H as <- <-. cbn. rewrite E. eauto 10.
    + destruct (startWorker s). discriminate.
  - unfold close. destruct (worker s) as [w |] eqn:E; [| discriminate].
    destruct (fd <? 0); [discriminate |].
    unfold post. cbn. intros H. injection H as <- <-. cbn. rewrite E. eauto 10.
Qed.

(** A request and its response.  In every state the manager reaches, a call
    that is posted gets a correlation id under which no promise is pending;
    its promise is then pending under that id; the response with that id,
    delivered by a worker the manager listens to, settles it and leaves every
    other pending promise pending; a second response with the same id, or a
    response with an id that is not pending, settles nothing. *)
Theorem worker_request_response (evs : list Event) (c : Call) (id j : Z)
    (s' : State) (from : nat) (ty : WebUsbRequestType) (ok : bool) :
  let s := run evs initial in
  invoke c s = (Pending id, s') ->
  from ∈ listening s' ->
  let s'' := onWorkerMessage from ty (Some id) ok s' in
  PromiseHelper.getPromise (_promiseHelper s) id = None
  /\ PromiseHelper.getPromise (_promiseHelper s') id = Some tt
  /\ PromiseHelper.getPromise (_promiseHelper s'') id = None
  /\ PromiseHelper.getPromise (_promiseHelper s'') j
     = PromiseHelper.getPromise (_promiseHelper s) j
  /\ _promiseHelper (onWorkerMessage from ty (Some id) ok s'') = _promiseHelper s''.
Proof.
  intros s Hinv Hfrom s''.
  assert (Hb : PromiseHelper.ids_bounded (_promiseHelper s)).
  { apply run_helper_bounded. apply ids_bounded_create. }
  destruct (invoke_pending c s id s' Hinv) as (Hid & Hh & _ & _ & _).
  destruct (createPromise_fresh (_promiseHelper s) Hb) as (H1 & H2 & H3 & H4).
  rewrite <- Hid in *. rewrite <- Hh in *.
  assert (Hh'' : _promiseHelper s'' = PromiseHelper.deletePromise (_promiseHelper s') id).
  { unfold s''. rewrite onWorkerMessage_helper.
    rewrite bool_decide_eq_true_2 by exact Hfrom. rewrite H2. reflexivity. }
  split; [exact H1 |]. split; [exact H2 |].
  assert (Hgone : PromiseHelper.getPromise (_promiseHelper s'') id = None).
  { rewrite Hh'', H4. exact H1. }
  split; [exact Hgone |]. split; [rewrite Hh''; apply H4 |].
  rewrite onWorkerMessage_helper. rewrite Hgone.
  destruct (bool_decide _); reflexivity.
Qed.

End WorkerRoundTrip.

Lemma worker_request_response_witness :
  let s := WebUsbWorkerManager.run
             [WebUsbWorkerManager.EvCall (WebUsbWorkerManager.CallOpen (Some 0x3727) (Some 0x1011))]
             WebUsbWorkerManager.initial in
  let s' := (WebUsbWorkerManager.invoke (WebUsbWorkerManager.CallGetName 0) s).2 in
  PromiseHelper.getPromise (WebUsbWorkerManager._promiseHelper s') 2 = Some tt
  /\ PromiseHelper.getPromise
       (WebUsbWorkerManager._promiseHelper
          (WebUsbWorkerManager.onWorkerMessage 0 WebUsbWorkerManager.GET_DEV_NAME (Some 2) true s'))
       2 = None.
Proof.
  cbv zeta.
  pose proof (worker_request_response
                [WebUsbWorkerManager.EvCall (WebUsbWorkerManager.CallOpen (Some 0x3727) (Some 0x1011))]
                (WebUsbWorkerManager.CallGetName 0) 2 1
                (WebUsbWorkerManager.invoke (WebUsbWorkerManager.CallGetName 0)
                   (WebUsbWorkerManager.run
                      [WebUsbWorkerManager.EvCall
                         (WebUsbWorkerManager.CallOpen (Some 0x3727) (Some 0x1011))]
                      WebUsbWorkerManager.initial)).2
                0%nat WebUsbWorkerManager.GET_DEV_NAME true) as H.
  cbv zeta in H.
  destruct (H eq_refl ltac:(refine (bool_decide_unpack _ _); vm_compute; exact I))
    as (_ & Hp & Hg & _).
  split; [exact Hp | exact Hg].
Defined.

(** ** The registry of sessions: lookup, close and reuse *)

Section DeviceRegistry.
Import WebUsbDeviceManager.

(** The tables the registry holds: no slot, or one slot, whose session, if
    any, carries the handle 0 or -1. *)
Lemma reachable_shape (devs : Table) :
  reachable devs ->
  devs = [] \/ devs = [None]
  \/ exists d, devs = [Some d] /\ (fd d = 0 \/ fd d = -1).
Proof.
  intros Hr. pose proof (reachable_length devs Hr) as Hl.
  pose proof (reachable_handles_ok devs Hr) as Hok.
  destruct devs as [| [d |] [| x rest]]; cbn in Hl; try lia; auto.
  right. right. exists d. split; [reflexivity |]. apply (Hok 0 d). reflexivity.
Qed.

(** [open] with the class lookup named: the hash is not computed in the
    proofs below. *)
Lemma open_eq (vid pid : Z) (devs : Table) :
  open true vid pid devs
  = match find_opened vid pid devs with
    | Some dev => (AlreadyOpen dev, devs)
    | None =>
        match map_get (getDeviceHash vid pid) webUsbMap with
        | None => (Unsupported, set_slot devs (chosen_fd devs) None)
        | Some c => (Created (mkSession (chosen_fd devs) vid pid c),
                     set_slot devs (chosen_fd devs) (Some (mkSession (chosen_fd devs) vid pid c)))
        end
    end.
Proof.
  unfold open, chosen_fd, getWebUsbInstance. cbn [negb].
  destruct (find_opened vid pid devs); [reflexivity |].
  destruct (map_get (getDeviceHash vid pid) webUsbMap); reflexivity.
Qed.

Lemma chosen_fd_shape (devs : Table) :
  reachable devs -> chosen_fd devs = 0 /\ forall v, set_slot devs 0 v = [v].
Proof.
  intros Hr.
  destruct (reachable_shape devs Hr) as [-> | [-> | (d & -> & _)]]; split; reflexivity.
Qed.

Lemma open_on_shape (vid pid : Z) (devs devs' : Table) (dev : Session) :
  reachable devs ->
  open true vid pid devs = (Created dev, devs') ->
  fd dev = 0 /\ vid = WebUsbDeviceManager.vid dev /\ pid = WebUsbDeviceManager.pid dev
  /\ devs' = [Some dev].
Proof.
  intros Hr Ho. rewrite open_eq in Ho.
  destruct (chosen_fd_shape devs Hr) as (Hc & Hs). rewrite Hc, !Hs in Ho.
  destruct (find_opened vid pid devs); [discriminate |].
  destruct (map_get (getDeviceHash vid pid) webUsbMap); [| discriminate].
  injection Ho as <- <-. auto.
Qed.

(** The registry never holds more than one slot: every session it creates
    gets the handle 0 and is afterwards the only session stored, whatever was
    stored before; [getDevice] answers for the handle 0 only. *)
Theorem registry_single_slot (devs : Table) :
  reachable devs ->
  (length devs <= 1)%nat
  /\ (forall fd d, getDevice fd devs = Some d -> fd = 0)
  /\ (forall vid pid dev devs',
        open true vid pid devs = (Created dev, devs') ->
        fd dev = 0 /\ devs' = [Some dev] /\ getDevices devs' = [0]
        /\ getDevice 0 devs' = Some dev).
Proof.
  intros Hr. split; [apply reachable_length, Hr |]. split.
  - intros fd0 d. unfold getDevice.
    pose proof (reachable_length devs Hr) as Hl.
    destruct (Z.ltb_spec fd0 0); cbn [orb]; [discriminate |].
    destruct (Z.geb_spec fd0 (Z.of_nat (length devs))); [discriminate |]. lia.
  - intros vid pid dev devs' Ho.
    destruct (open_on_shape vid pid devs devs' dev Hr Ho) as (Hfd & _ & _ & ->).
    split; [exact Hfd |]. split; [reflexivity |].
    split; [cbn; rewrite Hfd; reflexivity | reflexivity].
Qed.

(** [open] stores what it returns, and is idempotent: the session it created
    is the one [getDevice] returns for its handle, and another [open] with the
    same ids returns that same session and leaves the table alone, also when
    the session's own [open] failed in between and its handle became -1. *)
Theorem open_lookup_idempotent (devs devs' : Table) (vid pid : Z) (dev : Session) :
  reachable devs ->
  open true vid pid devs = (Created dev, devs') ->
  getDevice (fd dev) devs' = Some dev
  /\ open true vid pid devs' = (AlreadyOpen dev, devs')
  /\ exists dev', slot (invalidate (fd dev) devs') 0 = Some dev'
       /\ fd dev' = -1
       /\ open true vid pid (invalidate (fd dev) devs')
          = (AlreadyOpen dev', invalidate (fd dev) devs').
Proof.
  intros Hr Ho.
  destruct (open_on_shape vid pid devs devs' dev Hr Ho) as (Hfd & Hv & Hp & ->).
  subst vid pid. rewrite Hfd. split; [reflexivity |]. split.
  - unfold open. cbn [negb find_opened].
    rewrite (Z.eqb_refl (vid dev)), (Z.eqb_refl (pid dev)). reflexivity.
  - change (invalidate 0 [Some dev])
      with [Some (mkSession (-1) (vid dev) (pid dev) (cls dev))].
    eexists. split; [reflexivity |]. split; [reflexivity |].
    unfold open. cbn [negb find_opened WebUsbDeviceManager.vid WebUsbDeviceManager.pid].
    rewrite (Z.eqb_refl (vid dev)), (Z.eqb_refl (pid dev)). reflexivity.
Qed.


(** An [open] for ids no class is registered for returns [undefined], and the
    slot it had chosen is left holding [undefined]: a session stored there
    before is no longer reported by [getDevice] or [getDevices]. *)
Theorem open_unsupported_evicts (devs devs' : Table) (vid pid : Z) :
  reachable devs ->
  open true vid pid devs = (Unsupported, devs') ->
  find_opened vid pid devs = None
  /\ map_get (getDeviceHash vid pid) webUsbMap = None
  /\ devs' = [None]
  /\ getDevices devs' = []
  /\ forall fd0, getDevice fd0 devs' = None.
Proof.
  intros Hr Ho.
  assert (Hshape : find_opened vid pid devs = None
                   /\ map_get (getDeviceHash vid pid) webUsbMap = None
                   /\ devs' = [None]).
  { rewrite open_eq in Ho.
    destruct (chosen_fd_shape devs Hr) as (Hc & Hs). rewrite Hc, !Hs in Ho.
    destruct (find_opened vid pid devs); [discriminate |].
    destruct (map_get (getDeviceHash vid pid) webUsbMap); [discriminate |].
    injection Ho as <-. auto. }
  destruct Hshape as (H1 & H2 & ->).
  split; [exact H1 |]. split; [exact H2 |]. split; [reflexivity |].
  split; [reflexivity |].
  intros fd0. unfold getDevice.
  destruct (Z.ltb_spec fd0 0); cbn [orb]; [reflexivity |].
  destruct (Z.geb_spec fd0 (Z.of_nat (length [@None Session]))); [reflexivity |].
  cbn in *. assert (fd0 = 0) by lia. subst. reflexivity.
Qed.

End DeviceRegistry.

Lemma registry_single_slot_witness :
  let devs := (WebUsbDeviceManager.open true 0x3727 0x1011 []).2 in
  (WebUsbDeviceManager.open true 0x0403 0x601f devs).2
  = [Some (WebUsbDeviceManager.mkSession 0 0x0403 0x601f WebUsbDeviceManager.WebUsbLimeSdr)].
Proof.
  cbv zeta.
  pose proof (registry_single_slot (WebUsbDeviceManager.open true 0x3727 0x1011 []).2
                (WebUsbDeviceManager.reach_open true 0x3727 0x1011 []
                   WebUsbDeviceManager.reach_new)) as (_ & _ & H).
  destruct (H 0x0403 0x601f
              (WebUsbDeviceManager.mkSession 0 0x0403 0x601f WebUsbDeviceManager.WebUsbLimeSdr)
              (WebUsbDeviceManager.open true 0x0403 0x601f
                 (WebUsbDeviceManager.open true 0x3727 0x1011 []).2).2 eq_refl)
    as (_ & Hd & _).
  exact Hd.
Defined.

Lemma open_lookup_idempotent_witness :
  let devs := (WebUsbDeviceManager.open true 0x3727 0x1011 []).2 in
  WebUsbDeviceManager.open true 0x3727 0x1011 devs
  = (WebUsbDeviceManager.AlreadyOpen
       (WebUsbDeviceManager.mkSession 0 0x3727 0x1011 WebUsbDeviceManager.WebUsbXsdr), devs).
Proof.
  cbv zeta.
  destruct (open_lookup_idempotent [] (WebUsbDeviceManager.open true 0x3727 0x1011 []).2
              0x3727 0x1011
              (WebUsbDeviceManager.mkSession 0 0x3727 0x1011 WebUsbDeviceManager.WebUsbXsdr)
              WebUsbDeviceManager.reach_new eq_refl) as (_ & H & _).
  exact H.
Defined.


Lemma open_unsupported_evicts_witness :
  let devs := (WebUsbDeviceManager.open true 0x3727 0x1011 []).2 in
  WebUsbDeviceManager.getDevices devs = [0]
  /\ WebUsbDeviceManager.getDevices (WebUsbDeviceManager.open true 0x1234 0x5678 devs).2 = [].
Proof.
  cbv zeta. split; [reflexivity |].
  destruct (open_unsupported_evicts (WebUsbDeviceManager.open true 0x3727 0x1011 []).2
              (WebUsbDeviceManager.open true 0x1234 0x5678
                 (WebUsbDeviceManager.open true 0x3727 0x1011 []).2).2
              0x1234 0x5678
              (WebUsbDeviceManager.reach_open true 0x3727 0x1011 []
                 WebUsbDeviceManager.reach_new) eq_refl) as (_ & _ & _ & H & _).
  exact H.
Defined.

(** ** The key of a device in [webUsbMap] *)

Lemma lor_shifted (m b : Z) : 0 <= b < 2 ^ 16 -> Z.lor (m * 2 ^ 16) b = m * 2 ^ 16 + b.
Proof.
  intros Hb.
  assert (Hd : Z.land (m * 2 ^ 16) b = 0).
  { apply Z.bits_inj'. intros n Hn. rewrite Z.land_spec, Z.bits_0.
    destruct (Z.lt_ge_cases n 16).
    - rewrite Z.mul_pow2_bits_low by lia. reflexivity.
    - rewrite <- (Z.mod_small b (2 ^ 16)) by lia.
      rewrite Z.mod_pow2_bits_high by lia. apply andb_false_r. }
  rewrite <- Z.lxor_lor by exact Hd. symmetry. apply Z.add_nocarry_lxor, Hd.
Qed.

Lemma band_low16 (x : Z) : JS.band x 0xffff = x mod 2 ^ 16.
Proof.
  unfold JS.band. rewrite (ToInt32_small 0xffff) by lia.
  change 0xffff with (Z.ones 16). rewrite Z.land_ones by lia.
  unfold JS.ToInt32.
  pose proof (Z.div_mod (x + 2 ^ 31) (2 ^ 32) ltac:(lia)) as Hd.
  replace ((x + 2 ^ 31) mod 2 ^ 32 - 2 ^ 31)
    with (x + (- ((x + 2 ^ 31) / 2 ^ 32) * 2 ^ 16) * 2 ^ 16) by lia.
  apply Z.mod_add. lia.
Qed.

Lemma getDeviceHash_value (v p : Z) :
  WebUsbDeviceManager.getDeviceHash v p = (v mod 2 ^ 16) * 2 ^ 16 + p mod 2 ^ 16.
Proof.
  unfold WebUsbDeviceManager.getDeviceHash. rewrite !band_low16.
  pose proof (Z.mod_pos_bound v (2 ^ 16) ltac:(lia)) as Ha.
  pose proof (Z.mod_pos_bound p (2 ^ 16) ltac:(lia)) as Hb.
  set (a := v mod 2 ^ 16) in *. set (b := p mod 2 ^ 16) in *.
  unfold JS.ToUint32 at 2 3. rewrite !(Z.mod_small _ (2 ^ 32)) by lia.
  rewrite (ToInt32_small b) by lia.
  unfold JS.shl. rewrite (ToInt32_small a) by lia.
  change (16 mod 32) with 16. rewrite Z.shiftl_mul_pow2 by lia.
  unfold JS.ToInt32, JS.ToUint32.
  pose proof (Z.div_mod (a * 2 ^ 16 + 2 ^ 31) (2 ^ 32) ltac:(lia)) as Hd.
  replace ((a * 2 ^ 16 + 2 ^ 31) mod 2 ^ 32 - 2 ^ 31)
    with ((a - ((a * 2 ^ 16 + 2 ^ 31) / 2 ^ 32) * 2 ^ 16) * 2 ^ 16) by lia.
  rewrite lor_shifted by lia.
  replace ((a - (a * 2 ^ 16 + 2 ^ 31) / 2 ^ 32 * 2 ^ 16) * 2 ^ 16 + b)
    with (a * 2 ^ 16 + b + (- ((a * 2 ^ 16 + 2 ^ 31) / 2 ^ 32)) * 2 ^ 32) by lia.
  rewrite Z.mod_add by lia. apply Z.mod_small. lia.
Qed.

(** [getDeviceHash] packs the low 16 bits of the vendor id and of the product
    id into one number, which is never negative; two devices have the same
    key exactly when they agree on these bits; and [webUsbMap] holds a class
    for exactly the five id pairs of [SDRDevicesIds]. *)
Theorem device_hash_supported (v p v' p' : Z) :
  let a := v mod 2 ^ 16 in
  let b := p mod 2 ^ 16 in
  WebUsbDeviceManager.getDeviceHash v p = a * 2 ^ 16 + b
  /\ 0 <= WebUsbDeviceManager.getDeviceHash v p < 2 ^ 32
  /\ (WebUsbDeviceManager.getDeviceHash v p = WebUsbDeviceManager.getDeviceHash v' p'
      <-> a = v' mod 2 ^ 16 /\ b = p' mod 2 ^ 16)
  /\ WebUsbDeviceManager.map_get (WebUsbDeviceManager.getDeviceHash v p)
       WebUsbDeviceManager.webUsbMap
     = (if (a =? 0x0403) && (b =? 0x601f) then Some WebUsbDeviceManager.WebUsbLimeSdr
        else if (a =? 0x3727) && (b =? 0x1011) then Some WebUsbDeviceManager.WebUsbXsdr
        else if (a =? 0x3727) && (b =? 0x1001) then Some WebUsbDeviceManager.WebUsbUsdr
        else if (a =? 0xfaef) && (b =? 0xdea9) then Some WebUsbDeviceManager.WebUsbXsdr
        else if (a =? 0xfaee) && (b =? 0xdea9) then Some WebUsbDeviceManager.WebUsbUsdr
        else None)
  /\ (WebUsbDeviceManager.map_get (WebUsbDeviceManager.getDeviceHash v p)
        WebUsbDeviceManager.webUsbMap <> None
      <-> In (a, b) WebUsbDeviceManager.SDRDevicesIds).
Proof.
  intros a b.
  pose proof (Z.mod_pos_bound v (2 ^ 16) ltac:(lia)) as Ha.
  pose proof (Z.mod_pos_bound p (2 ^ 16) ltac:(lia)) as Hb.
  pose proof (Z.mod_pos_bound v' (2 ^ 16) ltac:(lia)) as Ha'.
  pose proof (Z.mod_pos_bound p' (2 ^ 16) ltac:(lia)) as Hb'.
  rewrite !getDeviceHash_value. fold a b.
  assert (Hmap : WebUsbDeviceManager.map_get (a * 2 ^ 16 + b) WebUsbDeviceManager.webUsbMap
     = (if (a =? 0x0403) && (b =? 0x601f) then Some WebUsbDeviceManager.WebUsbLimeSdr
        else if (a =? 0x3727) && (b =? 0x1011) then Some WebUsbDeviceManager.WebUsbXsdr
        else if (a =? 0x3727) && (b =? 0x1001) then Some WebUsbDeviceManager.WebUsbUsdr
        else if (a =? 0xfaef) && (b =? 0xdea9) then Some WebUsbDeviceManager.WebUsbXsdr
        else if (a =? 0xfaee) && (b =? 0xdea9) then Some WebUsbDeviceManager.WebUsbUsdr
        else None)).
  { unfold WebUsbDeviceManager.webUsbMap.
    change (WebUsbDeviceManager.getDeviceHash 0xfaee 0xdea9) with (0xfaee * 2 ^ 16 + 0xdea9).
    change (WebUsbDeviceManager.getDeviceHash 0xfaef 0xdea9) with (0xfaef * 2 ^ 16 + 0xdea9).
    change (WebUsbDeviceManager.getDeviceHash 0x3727 0x1001) with (0x3727 * 2 ^ 16 + 0x1001).
    change (WebUsbDeviceManager.getDeviceHash 0x3727 0x1011) with (0x3727 * 2 ^ 16 + 0x1011).
    change (WebUsbDeviceManager.getDeviceHash 0x0403 0x601f) with (0x0403 * 2 ^ 16 + 0x601f).
    cbn [WebUsbDeviceManager.map_get].
    repeat match goal with
           | |- context [?x =? ?y] => destruct (Z.eqb_spec x y)
           end; cbn [andb]; try reflexivity; exfalso; lia. }
  split; [reflexivity |]. split; [lia |]. split; [| split; [exact Hmap |]].
  - split; intros H; [lia | destruct H as [-> ->]; reflexivity].
  - rewrite Hmap. unfold WebUsbDeviceManager.SDRDevicesIds. cbn [In].
    repeat match goal with
           | |- context [?x =? ?y] => destruct (Z.eqb_spec x y)
           end; cbn [andb]; split; intros H; try congruence;
      try (exfalso; intuition congruence); intuition (auto; congruence).
Qed.

(** ** [converters.ts]: clipping, and the conversions composed *)

Section ConvertersProps.
Import Converters.

Lemma clip_step_length buffer output i : length (clip_step buffer output i) = length output.
Proof.
  unfold clip_step. destruct (buffer !! i); [| reflexivity].
  destruct (clipped f); [apply length_insert | reflexivity].
Qed.

Lemma clip_step_lookup buffer output i j :
  clip_step buffer output i !! j
  = if decide (j = i) then
      match buffer !! i ≫= clipped with
      | Some y => if decide (i < length output)%nat then Some y else None
      | None => output !! j
      end
    else output !! j.
Proof.
  unfold clip_step.
  destruct (buffer !! i) as [x |] eqn:Ex; cbn [mbind option_bind];
    [destruct (clipped x) as [y |] eqn:Ec |].
  - destruct (decide (j = i)) as [-> | Hne].
    + destruct (decide (i < length output)%nat).
      * apply list_lookup_insert_eq. lia.
      * rewrite lookup_ge_None_2; [reflexivity | rewrite length_insert; lia].
    + apply list_lookup_insert_ne. congruence.
  - destruct (decide (j = i)); reflexivity.
  - destruct (decide (j = i)); reflexivity.
Qed.

Lemma fold_clip_length buffer n k out :
  length (fold_left (clip_step buffer) (seq k n) out) = length out.
Proof.
  revert k out. induction n as [| n IH]; intros k out; [reflexivity |].
  cbn [seq fold_left]. rewrite IH. apply clip_step_length.
Qed.

Lemma fold_clip_lookup buffer n k out j :
  fold_left (clip_step buffer) (seq k n) out !! j
  = if decide (k <= j < k + n)%nat then
      match buffer !! j ≫= clipped with
      | Some y => if decide (j < length out)%nat then Some y else None
      | None => out !! j
      end
    else out !! j.
Proof.
  revert k out. induction n as [| n IH]; intros k out.
  - cbn. destruct (decide _); [lia | reflexivity].
  - cbn [seq fold_left]. rewrite IH, clip_step_length, clip_step_lookup.
    destruct (decide (S k <= j < S k + n)%nat);
      destruct (decide (j = k)); destruct (decide (k <= j < k + S n)%nat);
      try lia; subst; try reflexivity.
Qed.

Lemma fold_clip_in_place buffer n k out :
  (forall j, (k <= j)%nat -> out !! j = buffer !! j) ->
  fold_left (fun o i => clip_step o o i) (seq k n) out
  = fold_left (clip_step buffer) (seq k n) out.
Proof.
  revert k out. induction n as [| n IH]; intros k out Hsame; [reflexivity |].
  cbn [seq fold_left].
  assert (E : clip_step out out k = clip_step buffer out k).
  { unfold clip_step. rewrite Hsame by lia. reflexivity. }
  rewrite E. apply IH. intros j Hj. rewrite clip_step_lookup.
  destruct (decide (j = k)); [lia |]. apply Hsame. lia.
Qed.

Lemma clip_in_place_lookup buffer j :
  clipF32Buffer buffer None !! j
  = match buffer !! j with
    | Some x => Some (default x (clipped x))
    | None => None
    end.
Proof.
  unfold clipF32Buffer. rewrite (fold_clip_in_place buffer) by auto.
  rewrite fold_clip_lookup.
  destruct (buffer !! j) as [x |] eqn:Ex.
  - pose proof (lookup_lt_Some _ _ _ Ex) as Hlt.
    destruct (decide (0 <= j < 0 + length buffer)%nat); [| lia].
    cbn [mbind option_bind]. destruct (clipped x); cbn [default from_option Datatypes.id].
    + destruct (decide (j < length buffer)%nat); [reflexivity | lia].
    + reflexivity.
  - destruct (decide _); [| reflexivity]. cbn [mbind option_bind]. reflexivity.
Qed.

Lemma clipped_twice x : clipped (default x (clipped x)) = None.
Proof.
  unfold clipped.
  destruct (gt_one x) eqn:Eg; [reflexivity |].
  destruct (lt_minus_one x) eqn:El; [reflexivity |].
  cbn [default from_option Datatypes.id]. rewrite Eg, El. reflexivity.
Qed.

Lemma clipped_None y : clipped y = None -> gt_one y = false /\ lt_minus_one y = false.
Proof.
  unfold clipped. destruct (gt_one y); [discriminate |].
  destruct (lt_minus_one y); [discriminate | auto].
Qed.

(** [clipF32Buffer] in place leaves no element above 1 or below -1: such an
    element, the infinities included, becomes 1 or -1, every other element,
    [NaN] included, stays, and clipping twice is clipping once.  With an
    [outbuf], only the positions whose input lies outside the range are
    written: at every other position the [outbuf] keeps its own value (the
    input is not copied), and its length does not change. *)
Theorem clipF32Buffer_spec (buffer outbuf : list Float) (i : nat) :
  let r := clipF32Buffer buffer None in
  let o := clipF32Buffer buffer (Some outbuf) in
  length r = length buffer
  /\ length o = length outbuf
  /\ (forall y, r !! i = Some y -> gt_one y = false /\ lt_minus_one y = false)
  /\ (forall x, buffer !! i = Some x ->
        r !! i = Some (if gt_one x then Finite 1
                       else if lt_minus_one x then Finite (-1) else x)
        /\ o !! i = (if gt_one x || lt_minus_one x
                     then (if decide (i < length outbuf)%nat then r !! i else None)
                     else outbuf !! i))
  /\ (buffer !! i = None -> o !! i = outbuf !! i)
  /\ (buffer !! i = Some NaN -> r !! i = Some NaN)
  /\ clipF32Buffer r None = r.
Proof.
  intros r o.
  assert (Hr : forall j, r !! j = match buffer !! j with
                                  | Some x => Some (default x (clipped x))
                                  | None => None
                                  end) by (intros j; apply clip_in_place_lookup).
  assert (Hlen : length r = length buffer).
  { unfold r, clipF32Buffer. rewrite (fold_clip_in_place buffer) by auto.
    apply fold_clip_length. }
  split; [exact Hlen |].
  split; [unfold o, clipF32Buffer; apply fold_clip_length |].
  split; [| split; [| split; [| split]]].
  - intros y Hy. rewrite Hr in Hy. destruct (buffer !! i) as [x |]; [| discriminate].
    injection Hy as <-. apply clipped_None, clipped_twice.
  - intros x Hx. rewrite Hr, Hx. split.
    + unfold clipped. destruct (gt_one x); [reflexivity |].
      destruct (lt_minus_one x); reflexivity.
    + unfold o, clipF32Buffer. rewrite fold_clip_lookup.
      pose proof (lookup_lt_Some _ _ _ Hx) as Hlt.
      destruct (decide (0 <= i < 0 + length buffer)%nat); [| lia].
      rewrite Hx. cbn [mbind option_bind]. unfold clipped.
      destruct (gt_one x); cbn [orb default from_option Datatypes.id];
        [reflexivity |].
      destruct (lt_minus_one x); reflexivity.
  - intros Hn. unfold o, clipF32Buffer. rewrite fold_clip_lookup, Hn.
    destruct (decide _); reflexivity.
  - intros Hn. rewrite Hr, Hn. reflexivity.
  - apply list_eq. intros j. rewrite clip_in_place_lookup, Hr.
    destruct (buffer !! j) as [x |]; [| reflexivity].
    rewrite clipped_twice. reflexivity.
Qed.

Lemma quot_round_trip (x : Z) :
  - 32768 <= x <= 32767 -> Z.quot (x * 32767) 32768 = x - Z.sgn x.
Proof.
  intros Hx. destruct (Z.lt_trichotomy x 0) as [Hneg | [-> | Hpos]].
  - rewrite <- (Z.opp_involutive (x * 32767)), Z.quot_opp_l by lia.
    rewrite Z.quot_div_nonneg by lia.
    pose proof (Z.div_mod (- (x * 32767)) 32768 ltac:(lia)) as Hd.
    pose proof (Z.mod_pos_bound (- (x * 32767)) 32768 ltac:(lia)) as Hm.
    rewrite Z.sgn_neg by lia. lia.
  - reflexivity.
  - rewrite Z.quot_div_nonneg by lia.
    pose proof (Z.div_mod (x * 32767) 32768 ltac:(lia)) as Hd.
    pose proof (Z.mod_pos_bound (x * 32767) 32768 ltac:(lia)) as Hm.
    rewrite Z.sgn_pos by lia. lia.
Qed.

Lemma F32ToI16_I16ToF32 (x : Z) :
  - 32768 <= x <= 32767 -> F32ToI16 (I16ToF32 x) = x - Z.sgn x.
Proof.
  intros Hx. unfold F32ToI16, I16ToF32, fmul, store_Int16, Qtrunc.
  cbn [Qmult Qnum Qden inject_Z]. change (Z.pos (32768 * 1)) with 32768.
  rewrite quot_round_trip by exact Hx.
  unfold JS.ToInt16. rewrite Z.mod_small; [lia |].
  destruct (Z.lt_trichotomy x 0) as [Hneg | [-> | Hpos]];
    [rewrite Z.sgn_neg by lia | cbn | rewrite Z.sgn_pos by lia]; lia.
Qed.

(** Converting 16-bit samples to float and back does not return them: every
    sample other than 0 comes back one step closer to 0 (the scale factors
    are 32768 one way and 32767 the other, and the store truncates). *)
Theorem sample_round_trip (l : list Z) (x : Z) :
  Forall (fun x => - 32768 <= x <= 32767) l ->
  - 32768 <= x <= 32767 ->
  bufferF32ToI16 (bufferI16ToF32 l None) None = map (fun x => x - Z.sgn x) l
  /\ F32ToI16 (I16ToF32 x) = x - Z.sgn x
  /\ (F32ToI16 (I16ToF32 x) = x <-> x = 0).
Proof.
  intros Hl Hx. split; [| split].
  - cbn [bufferF32ToI16 bufferI16ToF32]. rewrite map_map.
    induction Hl as [| y l Hy Hl IH]; [reflexivity |].
    cbn [map]. rewrite IH, F32ToI16_I16ToF32 by exact Hy. reflexivity.
  - apply F32ToI16_I16ToF32, Hx.
  - rewrite F32ToI16_I16ToF32 by exact Hx.
    destruct (Z.lt_trichotomy x 0) as [Hneg | [-> | Hpos]];
      [rewrite Z.sgn_neg by lia | cbn | rewrite Z.sgn_pos by lia]; lia.
Qed.

(** A float in [-1, 1] is converted without wrapping: the result is the
    product with 32767 truncated toward zero and lies in [-32767, 32767];
    1 and -1 give 32767 and -32767, and -32768 is never produced.  In the
    other direction every 16-bit sample lands in [-1, 1). *)
Theorem conversion_in_range (q : Q) (x : Z) :
  (-1 <= q)%Q -> (q <= 1)%Q ->
  - 32768 <= x <= 32767 ->
  F32ToI16 (Finite q) = Qtrunc (q * inject_Z 32767)
  /\ - 32767 <= F32ToI16 (Finite q) <= 32767
  /\ F32ToI16 (Finite 1) = 32767
  /\ F32ToI16 (Finite (-1)) = - 32767
  /\ (exists v, I16ToF32 x = Finite v /\ (-1 <= v)%Q /\ (v < 1)%Q).
Proof.
  intros Hlo Hhi Hx.
  assert (Hb : - 32767 <= Qtrunc (q * inject_Z 32767) <= 32767).
  { destruct q as [n d]. unfold Qle in Hlo, Hhi. cbn [Qnum Qden] in Hlo, Hhi.
    unfold Qtrunc. cbn [Qmult Qnum Qden inject_Z].
    rewrite Pos.mul_1_r.
    destruct (Z.le_gt_cases 0 n) as [Hn | Hn].
    - rewrite Z.quot_div_nonneg by lia. split.
      + pose proof (Z.div_pos (n * 32767) (Z.pos d) ltac:(lia) ltac:(lia)). lia.
      + apply Z.div_le_upper_bound; lia.
    - rewrite <- (Z.opp_involutive (n * 32767)), Z.quot_opp_l by lia.
      rewrite Z.quot_div_nonneg by lia.
      pose proof (Z.div_pos (- (n * 32767)) (Z.pos d) ltac:(lia) ltac:(lia)).
      assert (- (n * 32767) / Z.pos d <= 32767) by (apply Z.div_le_upper_bound; lia).
      lia. }
  assert (He : F32ToI16 (Finite q) = Qtrunc (q * inject_Z 32767)).
  { unfold F32ToI16, fmul, store_Int16, JS.ToInt16. rewrite Z.mod_small; lia. }
  split; [exact He |]. split; [rewrite He; exact Hb |].
  split; [reflexivity |]. split; [reflexivity |].
  exists (x # 32768). split; [reflexivity |].
  unfold Qle, Qlt. cbn [Qnum Qden]. lia.
Qed.

End ConvertersProps.

Lemma sample_round_trip_witness :
  Converters.bufferF32ToI16 (Converters.bufferI16ToF32 [0; 1; 32767; -32768; -5] None) None
  = [0; 0; 32766; -32767; -4].
Proof.
  destruct (sample_round_trip [0; 1; 32767; -32768; -5] 7) as (H & _).
  - repeat constructor; lia.
  - lia.
  - exact H.
Defined.

Lemma conversion_in_range_witness :
  Converters.F32ToI16 (Converters.Finite (1 # 2)) = 16383.
Proof.
  destruct (conversion_in_range (1 # 2) 0) as (H & _).
  - unfold Qle. cbn. lia.
  - unfold Qle. cbn. lia.
  - lia.
  - rewrite H. reflexivity.
Defined.

(** ** Packet geometry and the headers the encoders write *)

Lemma le_bytes_length (n : nat) (v : Z) : length (Buf.le_bytes n v) = n.
Proof. revert v. induction n as [| n IH]; intros v; cbn; [| rewrite IH]; reflexivity. Qed.

Lemma le_value_le_bytes (n : nat) (v : Z) :
  Buf.le_value (Buf.le_bytes n v) = v mod 256 ^ Z.of_nat n.
Proof.
  revert v. induction n as [| n IH]; intros v.
  - cbn. rewrite Z.mod_1_r. reflexivity.
  - cbn [Buf.le_bytes Buf.le_value]. rewrite IH.
    rewrite Nat2Z.inj_succ, Z.pow_succ_r by lia.
    symmetry. apply Z.rem_mul_r; lia.
Qed.

Lemma le_value_app (a b : list Z) :
  Buf.le_value (a ++ b) = Buf.le_value a + 256 ^ Z.of_nat (length a) * Buf.le_value b.
Proof.
  induction a as [| x a IH]; [cbn [app length Buf.le_value]; lia |].
  cbn [app length Buf.le_value]. rewrite IH, Nat2Z.inj_succ, Z.pow_succ_r by lia. lia.
Qed.

(** A buffer in which a region of 16 bytes starts at [offset]. *)
Lemma split_region (buf : Buf.ArrayBuffer) (offset : Z) :
  0 <= offset -> offset + 16 <= Buf.byteLength buf ->
  exists pre m0 m1 m2 m3 m4 m5 m6 m7 m8 m9 m10 m11 m12 m13 m14 m15 post,
    buf = pre ++ [m0; m1; m2; m3; m4; m5; m6; m7; m8; m9; m10; m11; m12; m13; m14; m15] ++ post
    /\ Z.of_nat (length pre) = offset
    /\ pre = firstn (Z.to_nat offset) buf
    /\ post = skipn (Z.to_nat offset + 16) buf.
Proof.
  intros H0 Hlen. unfold Buf.byteLength in Hlen.
  pose proof (firstn_skipn (Z.to_nat offset) buf) as Hsplit.
  assert (Hl : (16 <= length (skipn (Z.to_nat offset) buf))%nat)
    by (rewrite length_skipn; lia).
  assert (Hpost : skipn (Z.to_nat offset + 16) buf = skipn 16 (skipn (Z.to_nat offset) buf)).
  { rewrite drop_drop. reflexivity. }
  destruct (skipn (Z.to_nat offset) buf)
    as [| m0 [| m1 [| m2 [| m3 [| m4 [| m5 [| m6 [| m7 [| m8 [| m9 [| m10 [| m11
        [| m12 [| m13 [| m14 [| m15 post]]]]]]]]]]]]]]]]; cbn [length] in Hl; try lia.
  exists (firstn (Z.to_nat offset) buf), m0, m1, m2, m3, m4, m5, m6, m7, m8, m9, m10, m11,
    m12, m13, m14, m15, post.
  split; [symmetry; exact Hsplit |].
  split; [rewrite length_firstn; lia |]. split; [reflexivity | rewrite Hpost; reflexivity].
Qed.

Lemma write_bytes_shift (pre l : Buf.ArrayBuffer) (k : Z) (bs : list Z) :
  0 <= k ->
  Buf.write_bytes (pre ++ l) (Z.of_nat (length pre) + k) bs = pre ++ Buf.write_bytes l k bs.
Proof.
  intros Hk. unfold Buf.write_bytes.
  replace (Z.to_nat (Z.of_nat (length pre) + k)) with (length pre + Z.to_nat k)%nat by lia.
  rewrite take_app_add, <- Nat.add_assoc, drop_app_add, <- app_assoc. reflexivity.
Qed.

Lemma read_bytes_shift (pre l : Buf.ArrayBuffer) (k : Z) (n : nat) :
  0 <= k ->
  Buf.read_bytes (pre ++ l) (Z.of_nat (length pre) + k) n = Buf.read_bytes l k n.
Proof.
  intros Hk. unfold Buf.read_bytes.
  replace (Z.to_nat (Z.of_nat (length pre) + k)) with (length pre + Z.to_nat k)%nat by lia.
  rewrite drop_app_add. reflexivity.
Qed.

Section PacketGeometry.

(** The packet sizes of variant B.  A transmit buffer holds the payload and
    one 16-byte header per packet of up to 1020 samples; it is never larger
    than the receive buffer for the same count, and as large when the count
    is a multiple of 1020.  [getRXSamplesCount] rounds a count down to a
    multiple of 1020 and is idempotent, and a receive buffer of
    [getRXPacketSize] bytes for such a count holds exactly that many samples
    besides its headers, which is what [decodeRxData] computes from it. *)
Theorem lime_packet_geometry (n : Z) :
  0 <= n ->
  let c := WebUsbLimeSdr.getRXSamplesCount n in
  WebUsbLimeSdr.getTXPacketSize n = 4 * n + 16 * ((n + 1019) / 1020)
  /\ WebUsbLimeSdr.getRXPacketSize n = 4096 * ((n + 1019) / 1020)
  /\ WebUsbLimeSdr.getTXPacketSize n <= WebUsbLimeSdr.getRXPacketSize n
  /\ (n mod 1020 = 0 -> WebUsbLimeSdr.getTXPacketSize n = WebUsbLimeSdr.getRXPacketSize n)
  /\ c = 1020 * (n / 1020) /\ c <= n < c + 1020
  /\ WebUsbLimeSdr.getRXSamplesCount c = c
  /\ (n < 2 ^ 31 ->
      JS.div_sar0
        (WebUsbLimeSdr.getRXPacketSize c
         - WebUsbLimeSdr.HEADER_SIZE
           * JS.div_sar0 (WebUsbLimeSdr.getRXPacketSize c) WebUsbLimeSdr.PACKET_SIZE)
        COMPLEX_INT16_SIZE = c).
Proof.
  intros Hn c.
  assert (Hc : c = 1020 * (n / 1020)).
  { unfold c, WebUsbLimeSdr.getRXSamplesCount, JS.floor_div.
    change WebUsbLimeSdr.SAMPLES_PER_PACKET with 1020. lia. }
  pose proof (Z.div_mod n 1020 ltac:(lia)) as Hd.
  pose proof (Z.mod_pos_bound n 1020 ltac:(lia)) as Hm.
  pose proof (Z.div_mod (- n) 1020 ltac:(lia)) as Hd'.
  pose proof (Z.mod_pos_bound (- n) 1020 ltac:(lia)) as Hm'.
  pose proof (Z.div_mod (n + 1019) 1020 ltac:(lia)) as Hu.
  pose proof (Z.mod_pos_bound (n + 1019) 1020 ltac:(lia)) as Hum.
  assert (Hceil : JS.ceil_div n 1020 = (n + 1019) / 1020) by (unfold JS.ceil_div; lia).
  assert (Htx : WebUsbLimeSdr.getTXPacketSize n = 4 * n + 16 * ((n + 1019) / 1020)).
  { unfold WebUsbLimeSdr.getTXPacketSize, JS.rem, JS.floor_div.
    change WebUsbLimeSdr.SAMPLES_PER_PACKET with 1020.
    change WebUsbLimeSdr.PACKET_SIZE with 4096.
    change WebUsbLimeSdr.HEADER_SIZE with 16. change COMPLEX_INT16_SIZE with 4.
    rewrite Z.rem_mod_nonneg by lia.
    destruct (Z.gtb_spec (n mod 1020) 0); lia. }
  assert (Hrx : forall k, 0 <= k ->
            WebUsbLimeSdr.getRXPacketSize k = 4096 * (JS.ceil_div k 1020)).
  { intros k Hk. unfold WebUsbLimeSdr.getRXPacketSize.
    change WebUsbLimeSdr.SAMPLES_PER_PACKET with 1020.
    change WebUsbLimeSdr.PACKET_SIZE with 4096. lia. }
  split; [exact Htx |]. split; [rewrite Hrx, Hceil by lia; reflexivity |].
  split; [rewrite Htx, Hrx, Hceil by lia; lia |].
  split; [intros H0; rewrite Htx, Hrx, Hceil by lia; lia |].
  split; [exact Hc |]. split; [lia |].
  assert (Hq : 0 <= n / 1020) by (apply Z.div_pos; lia).
  assert (Hcq : c / 1020 = n / 1020).
  { rewrite Hc, Z.mul_comm. apply Z.div_mul. lia. }
  split.
  - unfold WebUsbLimeSdr.getRXSamplesCount, JS.floor_div.
    change WebUsbLimeSdr.SAMPLES_PER_PACKET with 1020. rewrite Hcq. lia.
  - assert (Hcc : JS.ceil_div c 1020 = n / 1020).
    { unfold JS.ceil_div. rewrite Hc.
      replace (- (1020 * (n / 1020))) with ((- (n / 1020)) * 1020) by lia.
      rewrite Z.div_mul by lia. lia. }
    intros Hbig. rewrite Hrx by lia. rewrite Hcc.
    change WebUsbLimeSdr.PACKET_SIZE with 4096.
    change WebUsbLimeSdr.HEADER_SIZE with 16. change COMPLEX_INT16_SIZE with 4.
    unfold JS.div_sar0.
    rewrite (Z.mul_comm 4096), Z.quot_mul by lia.
    rewrite (ToInt32_small (n / 1020)) by lia.
    replace (n / 1020 * 4096 - 16 * (n / 1020)) with (1020 * (n / 1020) * 4) by lia.
    rewrite Z.quot_mul by lia. rewrite ToInt32_small by lia. lia.
Qed.

(** The receive buffer of variant A for up to 262016 samples: the payload
    rounded up to the next multiple of 512 bytes, plus 2560 bytes; the
    transmit buffer is the payload plus one 16-byte header. *)
Theorem wsdr_rx_size_rounding (n : Z) :
  0 <= n <= 262016 ->
  let payload := WebUsbWsdr.getRXPacketSize n - WebUsbWsdr.EXTRA_RX_DATA in
  payload mod WebUsbWsdr.PACKET_ALIGN = 0
  /\ 4 * n <= payload < 4 * n + WebUsbWsdr.PACKET_ALIGN
  /\ (n mod 128 = 0 -> payload = 4 * n)
  /\ WebUsbWsdr.getTXPacketSize n = 4 * n + WebUsbWsdr.HEADER_SIZE.
Proof.
  intros Hn payload. unfold payload. rewrite wsdr_rx_size_small by exact Hn.
  change WebUsbWsdr.EXTRA_RX_DATA with 2560. change WebUsbWsdr.PACKET_ALIGN with 512.
  pose proof (Z.div_mod (n * 4 + 511) 512 ltac:(lia)) as Hd.
  pose proof (Z.mod_pos_bound (n * 4 + 511) 512 ltac:(lia)) as Hm.
  replace (512 * ((n * 4 + 511) / 512) + 2560 - 2560) with ((n * 4 + 511) / 512 * 512) by lia.
  split; [apply Z.mod_mul; lia |]. split; [lia |]. split.
  - intros H128. pose proof (Z.div_mod n 128 ltac:(lia)) as Hd2. lia.
  - unfold WebUsbWsdr.getTXPacketSize. change COMPLEX_INT16_SIZE with 4. lia.
Qed.


(** The header variant B writes, and reading it back.  When the 16 bytes fit
    and the sample count is a multiple of 4, [_fillHeader] returns normally
    and changes exactly the 16 bytes at [offset]: the flag byte (bit 4), the
    payload size in bytes as a little-endian 16-bit number (so it wraps from
    16384 samples on), five zero bytes, and the timestamp as a little-endian
    64-bit number.  [getBigUint64(8)] on a view that starts at [offset] reads
    the timestamp back, and it is the timestamp [decodeRxData] returns and
    stores for such a view whenever it succeeds. *)
Theorem lime_header_round_trip (buf : Buf.ArrayBuffer) (offset : Z) (d : bool)
    (ts samples vlen last n : Z) (opts : option WebUsb.RXDecoderOptions) :
  0 <= offset -> offset + 16 <= Buf.byteLength buf -> samples mod 4 = 0 ->
  let r := WebUsbLimeSdr._fillHeader buf offset d ts samples in
  let view := Buf.mkDataView r.2 offset vlen in
  r.1 = None
  /\ r.2 = firstn (Z.to_nat offset) buf
           ++ ([if d then 16 else 0] ++ Buf.le_bytes 2 ((samples * 4) mod 2 ^ 16)
               ++ [0; 0; 0; 0; 0] ++ Buf.le_bytes 8 (ts mod 2 ^ 64))
           ++ skipn (Z.to_nat offset + 16) buf
  /\ length r.2 = length buf
  /\ (16 <= vlen -> Buf.getBigUint64 view 8 = Some (ts mod 2 ^ 64))
  /\ (forall res ts',
        WebUsbLimeSdr.decodeRxData last view n opts = (WebUsb.Decoded res, ts') ->
        WebUsb.rx_timestamp res = ts mod 2 ^ 64 /\ ts' = ts mod 2 ^ 64).
Proof.
  intros H0 Hfit Hs r view.
  destruct (split_region buf offset H0 Hfit)
    as (pre & m0 & m1 & m2 & m3 & m4 & m5 & m6 & m7 & m8 & m9 & m10 & m11 & m12 & m13
        & m14 & m15 & post & Hbuf & Hpre & Epre & Epost).
  assert (Hlen : Buf.byteLength buf = offset + 16 + Z.of_nat (length post)).
  { unfold Buf.byteLength. rewrite Hbuf, length_app. cbn [length app]. lia. }
  assert (Hr : r = (None, pre ++ ([if d then 16 else 0]
                                  ++ Buf.le_bytes 2 ((samples * 4) mod 2 ^ 16)
                                  ++ [0; 0; 0; 0; 0] ++ Buf.le_bytes 8 (ts mod 2 ^ 64))
                          ++ post)).
  { unfold r, WebUsbLimeSdr._fillHeader.
    change WebUsbLimeSdr.HEADER_SIZE with 16.
    destruct (Z.ltb_spec (Buf.byteLength buf - offset) 16); [lia |].
    assert (Hrem : JS.rem samples 4 = 0).
    { unfold JS.rem. apply Z.rem_divide; [lia |]. apply Z.mod_divide; [lia | exact Hs]. }
    rewrite Hrem. cbn [Z.eqb negb].
    unfold Buf.data_view_ok.
    destruct (Z.leb_spec 0 offset); [| lia].
    destruct (Z.leb_spec offset (Buf.byteLength buf)); [| lia].
    destruct (Z.leb_spec (offset + 16) (Buf.byteLength buf)); [| lia].
    cbn [Z.leb andb negb]. cbv zeta. f_equal.
    rewrite Hbuf. rewrite <- Hpre.
    rewrite <- (Z.add_0_r (Z.of_nat (length pre))) at 1.
    rewrite !write_bytes_shift by lia. f_equal.
    unfold JS.ToUint16, JS.ToBigUint64. change COMPLEX_INT16_SIZE with 4.
    destruct d; reflexivity. }
  assert (Hget : 16 <= vlen -> Buf.getBigUint64 view 8 = Some (ts mod 2 ^ 64)).
  { intros Hv. unfold Buf.getBigUint64, view. cbn [Buf.viewLength Buf.buffer Buf.byteOffset].
    destruct (Z.leb_spec (8 + 8) vlen); [| lia]. cbn [Z.leb andb]. f_equal.
    rewrite Hr. cbn [snd]. rewrite <- Hpre. rewrite read_bytes_shift by lia.
    change (Buf.read_bytes _ 8 8) with (Buf.le_bytes 8 (ts mod 2 ^ 64)).
    rewrite le_value_le_bytes. change (256 ^ Z.of_nat 8) with (2 ^ 64).
    apply Z.mod_mod. lia. }
  split; [rewrite Hr; reflexivity |]. split; [rewrite Hr, Epre, Epost; reflexivity |].
  split.
  { rewrite Hr. cbn [snd]. rewrite Hbuf, !length_app. reflexivity. }
  split; [exact Hget |].
  intros res ts' Hdec. unfold WebUsbLimeSdr.decodeRxData in Hdec.
  destruct (_ <? n); [discriminate |].
  destruct (Buf.getBigUint64 view 8) as [t |] eqn:Et; [| discriminate].
  assert (Ht : t = ts mod 2 ^ 64).
  { destruct (Z.le_gt_cases 16 vlen) as [Hv | Hv].
    - specialize (Hget Hv). congruence.
    - unfold Buf.getBigUint64, view in Et. cbn [Buf.viewLength] in Et.
      destruct (Z.leb_spec (8 + 8) vlen); [lia |]. discriminate. }
  destruct (match WebUsb.opt_data opts with Some _ => false | None => _ end);
    [discriminate |].
  destruct (WebUsbLimeSdr.decode_loop _ _ _ _ _ _); [| discriminate].
  injection Hdec as <- <-. cbn [WebUsb.rx_timestamp]. auto.
Qed.

Lemma band_small (x : Z) : 0 <= x < 2 ^ 15 -> JS.band x 0x7fff = x.
Proof.
  intros Hx. unfold JS.band. rewrite !ToInt32_small by lia.
  change 0x7fff with (Z.ones 15). rewrite Z.land_ones by lia. apply Z.mod_small. lia.
Qed.

(** The header variant A writes.  When the 16 bytes fit, the two typed views
    can be made and the sample count is within [128, 8192], [_fillHeader]
    returns normally and changes exactly the 16 bytes at [offset]: the low 48
    bits of the timestamp in bytes 0 to 5, then a 16-bit field holding the
    sample count minus one in its low 15 bits and the discard flag in bit 15,
    then eight zero bytes.  Read as one little-endian 64-bit word the first
    eight bytes are [timestamp mod 2^48 + 2^48 * (32768 * flag + samples - 1)]. *)
Theorem wsdr_header_layout (buf : Buf.ArrayBuffer) (offset : Z) (d : bool) (ts samples : Z) :
  WebUsbWsdr.views_fit buf offset ->
  offset + 16 <= Buf.byteLength buf ->
  128 <= samples <= 8192 ->
  let r := WebUsbWsdr._fillHeader buf offset d ts samples in
  let field := (if d then 32768 else 0) + (samples - 1) in
  r.1 = None
  /\ r.2 = firstn (Z.to_nat offset) buf
           ++ (Buf.le_bytes 6 (ts mod 2 ^ 48) ++ Buf.le_bytes 2 field
               ++ [0; 0; 0; 0; 0; 0; 0; 0])
           ++ skipn (Z.to_nat offset + 16) buf
  /\ length r.2 = length buf
  /\ Buf.le_value (Buf.read_bytes r.2 offset 8) = ts mod 2 ^ 48 + 2 ^ 48 * field
  /\ Buf.le_value (Buf.read_bytes r.2 (offset + 8) 8) = 0.
Proof.
  intros Hv Hfit Hs r field. pose proof Hv as (H0 & Ho8 & Hb8).
  destruct (split_region buf offset H0 Hfit)
    as (pre & m0 & m1 & m2 & m3 & m4 & m5 & m6 & m7 & m8 & m9 & m10 & m11 & m12 & m13
        & m14 & m15 & post & Hbuf & Hpre & Epre & Epost).
  assert (Hmask : Z.land ts 0x0000ffffffffffff = ts mod 2 ^ 48).
  { change 0x0000ffffffffffff with (Z.ones 48). apply Z.land_ones. lia. }
  pose proof (Z.mod_pos_bound ts (2 ^ 48) ltac:(lia)) as Ht.
  assert (Hfield : JS.ToUint16 (JS.shl (if d then 1 else 0) 15 + JS.band (samples - 1) 0x7fff)
                   = field).
  { rewrite band_small by lia. unfold field, JS.ToUint16.
    destruct d; [change (JS.shl 1 15) with 32768 | change (JS.shl 0 15) with 0];
      apply Z.mod_small; lia. }
  assert (Hr : r = (None, pre ++ (Buf.le_bytes 6 (ts mod 2 ^ 48) ++ Buf.le_bytes 2 field
                                  ++ [0; 0; 0; 0; 0; 0; 0; 0]) ++ post)).
  { unfold r, WebUsbWsdr._fillHeader.
    change WebUsbWsdr.HEADER_SIZE with 16. change WebUsbWsdr.MIN_SAMPLES_IN_PKT with 128.
    change WebUsbWsdr.MAX_SAMPLES_IN_PKT with 8192.
    destruct (Z.ltb_spec (Buf.byteLength buf - offset) 16); [lia |].
    destruct (Z.ltb_spec samples 128); [lia |].
    destruct (Z.gtb_spec samples 8192); [lia |]. cbn [orb].
    assert (Hviews : Buf.typed_view_ok 2 buf offset && Buf.typed_view_ok 8 buf offset = true).
    { apply typed_views_fit; [change WebUsbWsdr.HEADER_SIZE with 16; lia | exact Hv]. }
    apply andb_true_iff in Hviews. destruct Hviews as [-> ->]. cbn [negb]. cbv zeta.
    f_equal. rewrite Hfield, Hmask.
    unfold JS.ToBigUint64. rewrite (Z.mod_small (ts mod 2 ^ 48)) by lia.
    rewrite Hbuf. rewrite <- Hpre.
    rewrite <- (Z.add_0_r (Z.of_nat (length pre))) at 1.
    rewrite !write_bytes_shift by lia. f_equal. }
  split; [rewrite Hr; reflexivity |]. split; [rewrite Hr, Epre, Epost; reflexivity |].
  split.
  { rewrite Hr. cbn [snd]. rewrite Hbuf, !length_app. reflexivity. }
  rewrite Hr. cbn [snd]. rewrite <- Hpre.
  rewrite <- (Z.add_0_r (Z.of_nat (length pre))) at 1.
  rewrite !read_bytes_shift by lia.
  split.
  - change (Buf.read_bytes _ 0 8)
      with (Buf.le_bytes 6 (ts mod 2 ^ 48) ++ Buf.le_bytes 2 field).
    rewrite le_value_app, !le_value_le_bytes, le_bytes_length.
    change (256 ^ Z.of_nat 6) with (2 ^ 48). change (256 ^ Z.of_nat 2) with (2 ^ 16).
    rewrite Z.mod_mod by lia.
    rewrite (Z.mod_small field) by (unfold field; destruct d; lia). reflexivity.
  - reflexivity.
Qed.

End PacketGeometry.

Lemma lime_packet_geometry_witness :
  WebUsbLimeSdr.getTXPacketSize 2500 = 10048
  /\ WebUsbLimeSdr.getRXPacketSize 2500 = 12288
  /\ WebUsbLimeSdr.getRXSamplesCount 2500 = 2040.
Proof.
  pose proof (lime_packet_geometry 2500 ltac:(lia)) as H. cbv zeta in H.
  destruct H as (Htx & Hrx & _ & _ & Hc & _).
  split; [rewrite Htx; reflexivity |]. split; [rewrite Hrx | rewrite Hc]; reflexivity.
Defined.

Lemma wsdr_rx_size_rounding_witness :
  (WebUsbWsdr.getRXPacketSize 8192 - WebUsbWsdr.EXTRA_RX_DATA) = 32768.
Proof.
  pose proof (wsdr_rx_size_rounding 8192 ltac:(lia)) as H. cbv zeta in H.
  destruct H as (_ & _ & H & _). apply H. reflexivity.
Defined.

Lemma lime_header_round_trip_witness :
  Buf.getBigUint64
    (Buf.mkDataView (WebUsbLimeSdr._fillHeader (repeat 0 (Z.to_nat 4096)) 0 false 123456789 1020).2
       0 4096) 8 = Some 123456789.
Proof.
  pose proof (lime_header_round_trip (repeat 0 (Z.to_nat 4096)) 0 false 123456789 1020 4096
                0 1020 None ltac:(lia) ltac:(vm_compute; congruence) eq_refl) as H.
  cbv zeta in H. destruct H as (_ & _ & _ & Hg & _). apply Hg. lia.
Defined.

Lemma wsdr_header_layout_witness :
  Buf.le_value
    (Buf.read_bytes (WebUsbWsdr._fillHeader (repeat 0 (Z.to_nat 32)) 8 true 7 128).2 8 8)
  = 7 + 2 ^ 48 * (32768 + 127).
Proof.
  pose proof (wsdr_header_layout (repeat 0 (Z.to_nat 32)) 8 true 7 128
                ltac:(vm_compute; repeat split; congruence)
                ltac:(vm_compute; congruence) ltac:(lia)) as H.
  cbv zeta in H. destruct H as (_ & _ & _ & Hw & _). exact Hw.
Defined.

(** ** The transmit pipeline: its counters, and the callers that wait *)

Section TxPipelineMore.
Import TxPipeline.

Lemma set_cnt_others (val : Z) (s : State) :
  out_ (set_sendDataReqCnt val s) = out_ s
  /\ in_ (set_sendDataReqCnt val s) = in_ s
  /\ finished (set_sendDataReqCnt val s) = finished s
  /\ dropped (set_sendDataReqCnt val s) = dropped s
  /\ next_id (set_sendDataReqCnt val s) = next_id s
  /\ _onChangeSendDataReq (set_sendDataReqCnt val s) = None.
Proof. unfold set_sendDataReqCnt. destruct (_onChangeSendDataReq s); cbn; auto 10. Qed.

Lemma start_counters (id : nat) (s : State) :
  out_ (start id s) = out_ s + 1 /\ in_ (start id s) = in_ s
  /\ finished (start id s) = finished s
  /\ _sendDataReqCnt (start id s) = _sendDataReqCnt s + 1.
Proof.
  unfold start. cbn [out_ in_ finished _sendDataReqCnt].
  destruct (set_cnt_others (_sendDataReqCnt s + 1) s) as (-> & -> & -> & _).
  destruct (set_cnt_fields (_sendDataReqCnt s + 1) s) as [-> _]. auto.
Qed.

Lemma step_counters (e : Event) (s : State) :
  out_ s - in_ s = _sendDataReqCnt s /\ in_ s = Z.of_nat (length (finished s)) ->
  out_ (step e s) - in_ (step e s) = _sendDataReqCnt (step e s)
  /\ in_ (step e s) = Z.of_nat (length (finished (step e s))).
Proof.
  intros [Hd Hf].
  assert (Hstart : forall id s0,
            out_ s0 = out_ s -> in_ s0 = in_ s -> finished s0 = finished s ->
            _sendDataReqCnt s0 = _sendDataReqCnt s ->
            out_ (start id s0) - in_ (start id s0) = _sendDataReqCnt (start id s0)
            /\ in_ (start id s0) = Z.of_nat (length (finished (start id s0)))).
  { intros id s0 Ho Hi Hfi Hc.
    destruct (start_counters id s0) as (-> & -> & -> & ->). rewrite Ho, Hi, Hfi, Hc. lia. }
  assert (Hwait : forall id s0,
            out_ s0 = out_ s -> in_ s0 = in_ s -> finished s0 = finished s ->
            _sendDataReqCnt s0 = _sendDataReqCnt s ->
            out_ (wait_or_start id s0) - in_ (wait_or_start id s0)
            = _sendDataReqCnt (wait_or_start id s0)
            /\ in_ (wait_or_start id s0) = Z.of_nat (length (finished (wait_or_start id s0)))).
  { intros id s0 Ho Hi Hfi Hc. unfold wait_or_start.
    destruct (_ >=? _); [cbn; rewrite Ho, Hi, Hfi, Hc; lia | apply Hstart; auto]. }
  destruct e as [allowDrop | id | id ok]; cbn [step].
  - destruct (_ >=? _); [destruct allowDrop |]; [cbn; lia | apply Hwait | apply Hstart];
      reflexivity.
  - destruct (suspended s !! id) as [[] |]; [lia | apply Hwait; reflexivity | lia].
  - destruct (bool_decide (id ∈ inflight s)); [| lia].
    cbn [out_ in_ finished _sendDataReqCnt].
    destruct (set_cnt_others (_sendDataReqCnt s - 1) s) as (-> & -> & -> & _).
    destruct (set_cnt_fields (_sendDataReqCnt s - 1) s) as [-> _].
    rewrite length_app. cbn [length]. lia.
Qed.

Lemma run_counters (evs : list Event) (s : State) :
  out_ s - in_ s = _sendDataReqCnt s /\ in_ s = Z.of_nat (length (finished s)) ->
  out_ (run evs s) - in_ (run evs s) = _sendDataReqCnt (run evs s)
  /\ in_ (run evs s) = Z.of_nat (length (finished (run evs s))).
Proof.
  revert s. induction evs as [| e evs IH]; intros s H; [exact H |].
  cbn [run fold_left]. apply (IH (step e s)), step_counters, H.
Qed.

(** The two statistics counters of a session: [out] counts the transfers
    started and [in] the transfers ended, successful or not, so that their
    difference is the counter of outstanding transfers, which is the number
    of transfers in flight; a submission that is dropped or made to wait is
    counted by neither. *)
Theorem tx_counters (evs : list Event) :
  let s := run evs init in
  out_ s - in_ s = _sendDataReqCnt s
  /\ in_ s = Z.of_nat (length (finished s))
  /\ out_ s = Z.of_nat (length (finished s) + length (inflight s))
  /\ 0 <= in_ s <= out_ s.
Proof.
  intros s.
  assert (Hc : out_ s - in_ s = _sendDataReqCnt s /\ in_ s = Z.of_nat (length (finished s))).
  { apply run_counters. cbn. lia. }
  assert (Hinv : tx_inv s)
    by (apply run_inv; split; [reflexivity | vm_compute; congruence]).
  destruct Hc as [Hd Hf]. destruct Hinv as [Hn _]. repeat split; lia.
Qed.

(** What keeps a waiting caller waiting: nothing but the installed callback
    resolves its promise. *)
Lemma step_keeps_waiting (a : nat) (e : Event) (s : State) :
  suspended s !! a = Some Waiting ->
  _onChangeSendDataReq s <> Some a ->
  (a < next_id s)%nat ->
  suspended (step e s) !! a = Some Waiting
  /\ _onChangeSendDataReq (step e s) <> Some a
  /\ (a < next_id (step e s))%nat.
Proof.
  intros Hw Hcb Hlt.
  assert (Hset : forall val s0,
            suspended s0 !! a = Some Waiting -> _onChangeSendDataReq s0 <> Some a ->
            suspended (set_sendDataReqCnt val s0) !! a = Some Waiting).
  { intros val s0 Hw0 Hcb0. unfold set_sendDataReqCnt.
    destruct (_onChangeSendDataReq s0) as [w |] eqn:E; cbn [suspended]; [| exact Hw0].
    rewrite lookup_insert_ne by congruence. exact Hw0. }
  assert (Hstart : forall id s0,
            id <> a -> suspended s0 !! a = Some Waiting ->
            _onChangeSendDataReq s0 <> Some a -> (a < next_id s0)%nat ->
            suspended (start id s0) !! a = Some Waiting
            /\ _onChangeSendDataReq (start id s0) <> Some a
            /\ (a < next_id (start id s0))%nat).
  { intros id s0 Hne Hw0 Hcb0 Hlt0. unfold start.
    cbn [suspended _onChangeSendDataReq next_id].
    destruct (set_cnt_others (_sendDataReqCnt s0 + 1) s0) as (_ & _ & _ & _ & -> & ->).
    rewrite lookup_delete_ne by congruence.
    split; [apply Hset; auto |]. split; [discriminate | exact Hlt0]. }
  assert (Hwait : forall id s0,
            id <> a -> suspended s0 !! a = Some Waiting ->
            _onChangeSendDataReq s0 <> Some a -> (a < next_id s0)%nat ->
            suspended (wait_or_start id s0) !! a = Some Waiting
            /\ _onChangeSendDataReq (wait_or_start id s0) <> Some a
            /\ (a < next_id (wait_or_start id s0))%nat).
  { intros id s0 Hne Hw0 Hcb0 Hlt0. unfold wait_or_start.
    destruct (_ >=? _); [| apply Hstart; auto].
    cbn [suspended _onChangeSendDataReq next_id].
    rewrite lookup_insert_ne by congruence.
    split; [exact Hw0 |]. split; [congruence | exact Hlt0]. }
  destruct e as [allowDrop | id | id ok]; cbn [step].
  - destruct (_ >=? _); [destruct allowDrop |].
    + cbn. auto with lia.
    + apply Hwait; cbn; auto with lia.
    + apply Hstart; cbn; auto with lia.
  - destruct (suspended s !! id) as [[] |] eqn:E; auto.
    apply Hwait; auto. congruence.
  - destruct (bool_decide (id ∈ inflight s)); auto.
    cbn [suspended _onChangeSendDataReq next_id].
    destruct (set_cnt_others (_sendDataReqCnt s - 1) s) as (_ & _ & _ & _ & -> & ->).
    split; [apply Hset; auto |]. split; [discriminate | exact Hlt].
Qed.

Lemma run_keeps_waiting (a : nat) (evs : list Event) (s : State) :
  suspended s !! a = Some Waiting ->
  _onChangeSendDataReq s <> Some a ->
  (a < next_id s)%nat ->
  suspended (run evs s) !! a = Some Waiting.
Proof.
  revert s. induction evs as [| e evs IH]; intros s Hw Hcb Hlt; [exact Hw |].
  destruct (step_keeps_waiting a e s Hw Hcb Hlt) as (H1 & H2 & H3).
  cbn [run fold_left]. apply (IH (step e s)); assumption.
Qed.

Lemma submit_full (s : State) :
  _sendDataReqCnt s >= WebUsb.MAX_SEND_DATA_REQUEST ->
  step (Submit false) s
  = mk (_sendDataReqCnt s) (Some (next_id s)) (out_ s) (in_ s)
       (<[next_id s := Waiting]> (suspended s)) (inflight s) (dropped s) (finished s)
       (S (next_id s)).
Proof.
  intros H. cbn [step].
  destruct (Z.geb_spec (_sendDataReqCnt s) WebUsb.MAX_SEND_DATA_REQUEST); [| lia].
  unfold wait_or_start. cbn [_sendDataReqCnt].
  destruct (Z.geb_spec (_sendDataReqCnt s) WebUsb.MAX_SEND_DATA_REQUEST); [reflexivity | lia].
Qed.

(** Only one waiting caller can be woken.  [waitForChangeSendDataReq]
    installs its callback over the one installed before, so when two
    submissions wait at full capacity, the end of a transfer wakes the second
    one, which then starts its transfer, while the promise of the first is
    never resolved: it is still waiting after any further sequence of
    submissions, completions and resumptions. *)
Theorem tx_overtaken_waiter (s : State) (id : nat) (ok : bool) (evs : list Event) :
  _sendDataReqCnt s = WebUsb.MAX_SEND_DATA_REQUEST ->
  id ∈ inflight s ->
  let a := next_id s in
  let b := S (next_id s) in
  let s2 := run [Submit false; Submit false] s in
  let s3 := step (Complete id ok) s2 in
  let s4 := step (Resume b) s3 in
  suspended s2 !! a = Some Waiting
  /\ suspended s2 !! b = Some Waiting
  /\ suspended s3 !! b = Some Woken
  /\ suspended s3 !! a = Some Waiting
  /\ b ∈ inflight s4
  /\ suspended (run evs s4) !! a = Some Waiting.
Proof.
  intros Hfull Hin a b s2 s3 s4.
  assert (E2 : s2 = mk (_sendDataReqCnt s) (Some b) (out_ s) (in_ s)
                       (<[b := Waiting]> (<[a := Waiting]> (suspended s)))
                       (inflight s) (dropped s) (finished s) (S b)).
  { unfold s2, run. cbn [fold_left].
    rewrite (submit_full s) by lia. rewrite submit_full by (cbn; lia). reflexivity. }
  assert (Hab : a <> b) by (unfold a, b; lia).
  assert (E3 : s3 = mk (_sendDataReqCnt s - 1) None (out_ s) (in_ s + 1)
                       (<[b := Woken]> (<[b := Waiting]> (<[a := Waiting]> (suspended s))))
                       (remove_first id (inflight s)) (dropped s)
                       (finished s ++ [(id, ok)]) (S b)).
  { unfold s3. rewrite E2. cbn [step inflight].
    rewrite bool_decide_eq_true_2 by exact Hin. reflexivity. }
  assert (E4 : s4 = start b s3).
  { unfold s4. rewrite E3 at 1. cbn [step suspended]. rewrite lookup_insert_eq.
    unfold wait_or_start. rewrite <- E3.
    replace (_sendDataReqCnt s3) with (_sendDataReqCnt s - 1) by (rewrite E3; reflexivity).
    rewrite Hfull. reflexivity. }
  assert (H3a : suspended s3 !! a = Some Waiting).
  { rewrite E3. cbn [suspended]. rewrite !lookup_insert_ne by congruence.
    apply lookup_insert_eq. }
  split; [rewrite E2; cbn [suspended]; rewrite lookup_insert_ne by congruence;
          apply lookup_insert_eq |].
  split; [rewrite E2; apply lookup_insert_eq |].
  split; [rewrite E3; apply lookup_insert_eq |].
  split; [exact H3a |].
  split.
  - rewrite E4. destruct (start_fields b s3) as [_ ->].
    apply elem_of_app. right. apply list_elem_of_here.
  - apply run_keeps_waiting.
    + rewrite E4. unfold start. cbn [suspended].
      rewrite lookup_delete_ne by congruence.
      assert (Hcb3 : _onChangeSendDataReq s3 = None) by (rewrite E3; reflexivity).
      unfold set_sendDataReqCnt. rewrite Hcb3. cbn [suspended]. exact H3a.
    + rewrite E4. unfold start. cbn [_onChangeSendDataReq].
      destruct (set_cnt_others (_sendDataReqCnt s3 + 1) s3) as (_ & _ & _ & _ & _ & ->).
      discriminate.
    + rewrite E4. unfold start. cbn [next_id].
      destruct (set_cnt_others (_sendDataReqCnt s3 + 1) s3) as (_ & _ & _ & _ & -> & _).
      rewrite E3. cbn [next_id]. unfold a, b. lia.
Qed.

End TxPipelineMore.

Lemma tx_overtaken_waiter_witness :
  let s := TxPipeline.run (repeat (TxPipeline.Submit false) 128) TxPipeline.init in
  let a := TxPipeline.next_id s in
  let b := S (TxPipeline.next_id s) in
  let s2 := TxPipeline.run [TxPipeline.Submit false; TxPipeline.Submit false] s in
  let s3 := TxPipeline.step (TxPipeline.Complete 5 true) s2 in
  let s4 := TxPipeline.step (TxPipeline.Resume b) s3 in
  TxPipeline._sendDataReqCnt s = WebUsb.MAX_SEND_DATA_REQUEST
  /\ TxPipeline.suspended
       (TxPipeline.run [TxPipeline.Complete 6 true; TxPipeline.Resume a] s4) !! a
     = Some TxPipeline.Waiting.
Proof.
  assert (Hfull : TxPipeline._sendDataReqCnt
                    (TxPipeline.run (repeat (TxPipeline.Submit false) 128) TxPipeline.init)
                  = WebUsb.MAX_SEND_DATA_REQUEST) by (vm_compute; reflexivity).
  pose proof (tx_overtaken_waiter
                (TxPipeline.run (repeat (TxPipeline.Submit false) 128) TxPipeline.init)
                5 true
                [TxPipeline.Complete 6 true;
                 TxPipeline.Resume
                   (TxPipeline.next_id
                      (TxPipeline.run (repeat (TxPipeline.Submit false) 128)
                         TxPipeline.init))]
                Hfull
                ltac:(refine (bool_decide_unpack _ _); vm_compute; exact I)) as H.
  split; [exact Hfull |]. exact (proj2 (proj2 (proj2 (proj2 (proj2 H))))).
Defined.

(** ** The command channel used one command at a time, without a device, and
    on [close] *)

Section CommandChannel.
Import CommandPool.

Lemma pool_loop_empty fuel k s :
  CircularBuffer.isEmpty (_commands s) = true ->
  pool_loop fuel k s
  = mk (_commands s) false (module_device s) (delete k (pools s))
       (next_pool s) (next_cmd s) (log s).
Proof. intros He. destruct fuel; cbn [pool_loop]; rewrite He; reflexivity. Qed.


Lemma pop_front_1_empty (q : CircularBuffer.t CommandRequest) :
  CircularBuffer.wf q -> CircularBuffer.size q <= 1 ->
  CircularBuffer.isEmpty (CircularBuffer.pop_front 1 q) = true.
Proof.
  intros Hwf Hs. apply isEmpty_size; [apply wf_pop_front, Hwf |].
  apply pop_front_all; lia.
Qed.




Lemma init_idle md : idle (init md).
Proof.
  split; [apply wf_create; lia |]. split; reflexivity.
Qed.




(** [close] drops what is queued.  The first piece of [close] empties the
    queue and settles nothing.  The reply to a command in flight still
    settles that command, after which its loop ends with the flag off.  A
    request that was issued and that no activation of the loop holds, that is
    every request waiting in the queue, is neither sent nor settled at any
    later time, whatever happens next. *)
Theorem close_drops_queued (s : State) (i : nat) (evs : list Event) :
  CircularBuffer.wf (_commands s) ->
  (i < next_cmd s)%nat ->
  (forall k a, pools s !! k = Some a -> cmd_id (kont_req a) <> i) ->
  let s1 := close_begin s in
  queued s1 = []
  /\ log s1 = log s
  /\ (exists l, log (run evs s1) = log s ++ l /\ Forall (fun o => obs_id o <> i) l)
  /\ (forall k c rep,
        pools s !! k = Some (AwaitNative c) ->
        log (run (reply k rep) s1)
        = log s ++ [NativeEnd (cmd_id c); settle c (Some rep)]
        /\ queued (run (reply k rep) s1) = []
        /\ _sendCommandInProcess (run (reply k rep) s1) = false
        /\ pools (run (reply k rep) s1) !! k = None).
Proof.
  intros Hwf Hi Hp s1.
  assert (Hwfc : CircularBuffer.wf (_commands s1)) by (apply wf_clear, Hwf).
  assert (Hq1 : queued s1 = []) by (apply to_list_empty; cbn; lia).
  split; [exact Hq1 |]. split; [reflexivity |]. split.
  - assert (Hg : gone i s1).
    { unfold gone. rewrite Hq1. split; [exact Hwfc |].
      split; [intros c [] |]. split; [exact Hp | exact Hi]. }
    destruct (run_after i evs s1 Hg) as (_ & l & E & F). exists l. split; [exact E | exact F].
  - intros k c rep Hk.
    assert (He2 : CircularBuffer.isEmpty (CircularBuffer.pop_front 1 (_commands s1)) = true)
      by (apply pop_front_1_empty; [exact Hwfc | cbn; lia]).
    assert (Hq2 : CircularBuffer.to_list (CircularBuffer.pop_front 1 (_commands s1)) = []).
    { apply to_list_empty. rewrite pop_front_all; [lia | lia | cbn; lia]. }
    assert (E2 : run (reply k rep) s1
                 = mk (CircularBuffer.pop_front 1 (_commands s1)) false (module_device s1)
                      (delete k (<[k := AwaitSend c (Some rep)]>
                                   (<[k := AwaitParse c rep]> (pools s1))))
                      (next_pool s1) (next_cmd s1)
                      (log s1 ++ [NativeEnd (cmd_id c)] ++ [settle c (Some rep)])).
    { unfold reply. rewrite (reply_settles k c rep s1 Hk). cbv zeta.
      rewrite pool_loop_empty by (cbn [_commands]; exact He2). reflexivity. }
    rewrite E2. unfold queued. cbn [log _commands _sendCommandInProcess pools].
    split; [reflexivity |]. split; [exact Hq2 |]. split; [reflexivity |].
    apply lookup_delete_eq.
Qed.

Lemma close_drops_queued_witness :
  let s := run [EvSendCommand 1; EvSendCommand 2; EvSendCommand 3] (init true) in
  queued s = [Some (mkReq 0 1); Some (mkReq 1 2); Some (mkReq 2 3)]
  /\ queued (close_begin s) = []
  /\ log (run (reply 0 (ReplyOk 7)) (close_begin s))
     = log s ++ [NativeEnd 0; Resolve 0 7].
Proof.
  cbv zeta.
  set (s := run [EvSendCommand 1; EvSendCommand 2; EvSendCommand 3] (init true)).
  assert (Hwf : CircularBuffer.wf (_commands s)).
  { vm_compute. repeat split; intros; try discriminate; reflexivity. }
  assert (Hp : forall k a, pools s !! k = Some a -> cmd_id (kont_req a) <> 1%nat).
  { intros k a Hk. change (pools s) with (<[0%nat := AwaitNative (mkReq 0 1)]> (∅ : gmap nat Kont)) in Hk.
    apply lookup_insert_Some in Hk as [[_ <-] | [_ Hk]]; [discriminate |].
    rewrite lookup_empty in Hk. discriminate. }
  pose proof (close_drops_queued s 1 [] Hwf ltac:(vm_compute; lia) Hp) as H.
  cbv zeta in H. destruct H as (Hq & _ & _ & Hrep).
  destruct (Hrep 0%nat (mkReq 0 1) (ReplyOk 7) ltac:(vm_compute; reflexivity)) as (Hlog & _).
  split; [vm_compute; reflexivity |]. split; [exact Hq | exact Hlog].
Defined.

End CommandChannel.

(** ** [ControlWebUsb]: the stream status and the request objects *)

Section StreamCommands.
Import ControlWebUsb.

Lemma wait_not_pending_PENDING fuel : wait_not_pending fuel PENDING = None.
Proof. induction fuel as [| fuel IH]; [reflexivity | exact IH]. Qed.

Lemma wait_not_pending_other fuel st :
  is_pending st = false -> wait_not_pending fuel st = Some st.
Proof. intros H. destruct fuel; cbn [wait_not_pending]; rewrite H; reflexivity. Qed.

Lemma template_insert table h cmd a t r :
  h !! a = Some t ->
  template table (<[a := r]> h) cmd
  = match template table h cmd with
    | Some (a', t') => Some (a', if decide (a' = a) then r else t')
    | None => None
    end.
Proof.
  intros Ha. unfold template. destruct (table !! cmd) as [a' |]; [| reflexivity].
  destruct (decide (a' = a)) as [-> | Hne].
  - rewrite lookup_insert_eq, Ha. destruct (decide (a = a)); [reflexivity | contradiction].
  - rewrite lookup_insert_ne by congruence.
    destruct (h !! a'); [| reflexivity].
    destruct (decide (a' = a)); [contradiction | reflexivity].
Qed.

Lemma template_heap table h cmd a t : template table h cmd = Some (a, t) -> h !! a = Some t.
Proof.
  unfold template. destruct (table !! cmd) as [a' |]; [| discriminate].
  destruct (h !! a') as [t' |] eqn:E; [| discriminate]. intros [= <- <-]. exact E.
Qed.

Lemma is_stream_cases cmd args :
  is_stream cmd args = true ->
  cmd = "START_STREAMING" \/ cmd = "STOP_STREAMING"
  \/ (cmd = "CONTROL_STREAMING" /\ param_is_0 args = true).
Proof.
  unfold is_stream. intros H.
  apply orb_true_iff in H as [H | H]; [apply orb_true_iff in H as [H | H] |].
  - left. apply String.eqb_eq, H.
  - right; left. apply String.eqb_eq, H.
  - right; right. apply andb_true_iff in H as [H1 H2]. split; [apply String.eqb_eq, H1 | exact H2].
Qed.

(** A stream command whose raw command is rejected.  The call has written
    [PENDING] before sending and throws without writing the status again; from
    then on every stream command that runs alone polls for ever, whatever the
    number of rounds it is given, while the other commands are still sent. *)
Theorem stream_command_failure_blocks (table : gmap string Z) (fuel : nat) (cmd : string)
    (args ext_args : gmap string Z) (c : Control) (a : Z) (t : Request) :
  0 <= fd c ->
  template table (heap c) cmd = Some (a, t) ->
  is_stream cmd args = true ->
  streamStatus c <> PENDING ->
  already (streamStatus c) cmd args = false ->
  exists c1,
    sendCommand table fuel cmd args ext_args RawRejected c = Some (Throws, c1)
    /\ streamStatus c1 = PENDING
    /\ raw c1 = raw c ++ [a]
    /\ (forall fuel' cmd' args' ext_args' reply,
          template table (heap c) cmd' <> None ->
          is_stream cmd' args' = true ->
          sendCommand table fuel' cmd' args' ext_args' reply c1 = None)
    /\ (forall fuel' cmd' args' ext_args' reply a',
          table !! cmd' = Some a' -> is_Some (heap c !! a') ->
          is_stream cmd' args' = false ->
          exists r c2, sendCommand table fuel' cmd' args' ext_args' reply c1 = Some (r, c2)
                       /\ raw c2 = raw c1 ++ [a'] /\ streamStatus c2 = PENDING).
Proof.
  intros Hfd Ht Hs Hnp Hal.
  assert (Hfd' : (fd c <? 0) = false) by (apply Z.ltb_ge; exact Hfd).
  assert (Hip : is_pending (streamStatus c) = false)
    by (destruct (streamStatus c); try reflexivity; contradiction).
  pose proof (template_heap _ _ _ _ _ Ht) as Hha.
  eexists. split.
  { unfold sendCommand. rewrite Hfd', Ht, Hs, (wait_not_pending_other _ _ Hip), Hal.
    unfold send_request. reflexivity. }
  cbn [streamStatus raw fd heap].
  split; [reflexivity |]. split; [reflexivity |]. split.
  - intros fuel' cmd' args' ext' reply Htm Hs'.
    unfold sendCommand. cbn [fd heap streamStatus]. rewrite Hfd'.
    rewrite (template_insert _ _ _ _ _ _ Hha).
    destruct (template table (heap c) cmd') as [[a' t'] |]; [| contradiction].
    rewrite Hs', wait_not_pending_PENDING. reflexivity.
  - intros fuel' cmd' args' ext' reply a' Hta [t' Hh'] Hs'.
    unfold sendCommand. cbn [fd heap streamStatus]. rewrite Hfd'.
    rewrite (template_insert _ _ _ _ _ _ Hha).
    unfold template at 1. rewrite Hta, Hh'. rewrite Hs'.
    unfold send_request. rewrite Hs'. cbn [fd heap streamStatus raw].
    destruct reply; eexists _, _; (split; [reflexivity |]); cbn [raw streamStatus]; auto.
Qed.

(** A stream command whose raw command succeeds, then the same command
    again.  The first call hands its request to [sendRawCommand] and writes
    the status of its command; the second one returns [{}] at once: it sends
    nothing and leaves the request object as it is. *)
Theorem stream_command_repeated (table : gmap string Z) (fuel fuel' : nat) (cmd : string)
    (args ext_args args' ext_args' : gmap string Z) (reply : Raw) (c : Control)
    (a : Z) (t : Request) :
  0 <= fd c ->
  template table (heap c) cmd = Some (a, t) ->
  is_stream cmd args = true ->
  is_stream cmd args' = true ->
  streamStatus c <> PENDING ->
  already (streamStatus c) cmd args = false ->
  exists c1,
    sendCommand table fuel cmd args ext_args (RawData false) c = Some (ReturnsData, c1)
    /\ raw c1 = raw c ++ [a]
    /\ heap c1 = <[a := getRequest t args ext_args]> (heap c)
    /\ streamStatus c1
       = (if String.eqb cmd "START_STREAMING" then PREPARED
          else if String.eqb cmd "STOP_STREAMING" then STOPPED else STARTED)
    /\ sendCommand table fuel' cmd args' ext_args' reply c1 = Some (ReturnsEmpty, c1).
Proof.
  intros Hfd Ht Hs Hs' Hnp Hal.
  assert (Hfd' : (fd c <? 0) = false) by (apply Z.ltb_ge; exact Hfd).
  assert (Hip : is_pending (streamStatus c) = false)
    by (destruct (streamStatus c); try reflexivity; contradiction).
  pose proof (template_heap _ _ _ _ _ Ht) as Hha.
  assert (Hst : exists st, status_after cmd args PENDING = st /\ is_pending st = false
                           /\ already st cmd args' = true
                           /\ st = (if String.eqb cmd "START_STREAMING" then PREPARED
                                    else if String.eqb cmd "STOP_STREAMING" then STOPPED
                                    else STARTED)).
  { destruct (is_stream_cases _ _ Hs) as [-> | [-> | [-> Hp]]].
    - exists PREPARED. repeat split.
    - exists STOPPED. repeat split.
    - destruct (is_stream_cases _ _ Hs') as [E | [E | [_ Hp']]]; try discriminate E.
      exists STARTED. unfold status_after. cbn [String.eqb Ascii.eqb Bool.eqb andb].
      rewrite Hp. cbn [already String.eqb Ascii.eqb Bool.eqb andb]. rewrite Hp'. repeat split. }
  destruct Hst as (st & E & Hp & Hal' & Hst).
  eexists. split.
  { unfold sendCommand. rewrite Hfd', Ht, Hs, (wait_not_pending_other _ _ Hip), Hal.
    unfold send_request. rewrite Hs. reflexivity. }
  cbn [streamStatus raw fd heap].
  split; [reflexivity |]. split; [reflexivity |]. split; [rewrite E; exact Hst |].
  unfold sendCommand. cbn [fd heap streamStatus]. rewrite Hfd'.
  rewrite (template_insert _ _ _ _ _ _ Hha), Ht, Hs'. rewrite E.
  rewrite (wait_not_pending_other _ _ Hp), Hal'. reflexivity.
Qed.

End StreamCommands.

Lemma stream_command_failure_blocks_witness :
  let table : gmap string Z := {[ "START_STREAMING" := 1; "STOP_STREAMING" := 2 ]} in
  let h : gmap Z (gmap string ControlWebUsb.Value) := {[ 1 := ∅; 2 := ∅ ]} in
  let c := ControlWebUsb.mkControl 0 h ControlWebUsb.STOPPED [] in
  exists c1,
    ControlWebUsb.sendCommand table 3 "START_STREAMING" ∅ ∅ ControlWebUsb.RawRejected c
    = Some (ControlWebUsb.Throws, c1)
    /\ ControlWebUsb.streamStatus c1 = ControlWebUsb.PENDING
    /\ ControlWebUsb.sendCommand table 1000 "STOP_STREAMING" ∅ ∅
         (ControlWebUsb.RawData false) c1 = None.
Proof.
  intros table h c.
  destruct (stream_command_failure_blocks table 3 "START_STREAMING" ∅ ∅ c 1 ∅
              ltac:(cbn; lia) eq_refl eq_refl ltac:(discriminate) eq_refl)
    as (c1 & E & Hst & _ & Hblock & _).
  exists c1. split; [exact E |]. split; [exact Hst |].
  apply Hblock; [discriminate | reflexivity].
Defined.

Lemma stream_command_repeated_witness :
  let table : gmap string Z := {[ "START_STREAMING" := 1; "STOP_STREAMING" := 2 ]} in
  let h : gmap Z (gmap string ControlWebUsb.Value) := {[ 1 := ∅; 2 := ∅ ]} in
  let c := ControlWebUsb.mkControl 0 h ControlWebUsb.STOPPED [] in
  exists c1,
    ControlWebUsb.sendCommand table 3 "START_STREAMING" ∅ ∅ (ControlWebUsb.RawData false) c
    = Some (ControlWebUsb.ReturnsData, c1)
    /\ ControlWebUsb.raw c1 = [1]
    /\ ControlWebUsb.sendCommand table 3 "START_STREAMING" ∅ ∅ (ControlWebUsb.RawData false) c1
       = Some (ControlWebUsb.ReturnsEmpty, c1).
Proof.
  intros table h c.
  destruct (stream_command_repeated table 3 3 "START_STREAMING" ∅ ∅ ∅ ∅
              (ControlWebUsb.RawData false) c 1 ∅
              ltac:(cbn; lia) eq_refl eq_refl eq_refl ltac:(discriminate) eq_refl)
    as (c1 & E & Hraw & _ & _ & Hagain).
  exists c1. split; [exact E |]. split; [exact Hraw | exact Hagain].
Defined.

(** ** [ControlWebUsb.sendCommand] in single mode: the request object is the
    template *)

Section SingleMode.
Import ControlWebUsb.

Lemma entered_same_log (d d' : CommandPool.State) :
  CommandPool.log d' = CommandPool.log d -> CommandPool.entered d d' = None.
Proof. intros E. unfold CommandPool.entered. rewrite E, Nat.ltb_irrefl. reflexivity. Qed.

Lemma entered_begin (d d' : CommandPool.State) (l : list CommandPool.Obs) (i : nat) :
  CommandPool.log d' = CommandPool.log d ++ l ++ [CommandPool.NativeBegin i] ->
  CommandPool.entered d d' = CircularBuffer.front (CommandPool._commands d').
Proof.
  intros E. unfold CommandPool.entered. rewrite E, app_assoc, last_last.
  rewrite !length_app. cbn [length].
  destruct (Nat.ltb_spec (length (CommandPool.log d))
              (length (CommandPool.log d) + length l + 1)); [reflexivity | lia].
Qed.

Lemma entered_end (d d' : CommandPool.State) (i : nat) :
  CommandPool.log d' = CommandPool.log d ++ [CommandPool.NativeEnd i] ->
  CommandPool.entered d d' = None.
Proof.
  intros E. unfold CommandPool.entered. rewrite E, last_last.
  destruct (_ <? _)%nat; reflexivity.
Qed.

(** A reply that parses, piece by piece, when a second request waits behind
    the front of the queue: the one native call entered is the call for that
    request, and it reads the request object as the store holds it then. *)
Lemma single_reply (table : gmap string Z) (s : Single) (d : CommandPool.State) (k : nat)
    (c : CommandPool.CommandRequest) (x : option CommandPool.CommandRequest)
    (y : CommandPool.CommandRequest) (rest : list (option CommandPool.CommandRequest))
    (rep : CommandPool.Reply) :
  device s = Some d ->
  CircularBuffer.wf (CommandPool._commands d) ->
  CommandPool.queued d = x :: Some y :: rest ->
  CommandPool.module_device d = true ->
  CommandPool.pools d !! k = Some (CommandPool.AwaitNative c) ->
  single_run table (reply_events k rep) s
  = mkSingle (ctl_fd s) (requests s) (Some (CommandPool.run (CommandPool.reply k rep) d))
             (wire s ++ [(CommandPool.cmd_id y, requests s !! CommandPool.req y)]).
Proof.
  intros Hd Hwf Hq Hmd Hk.
  destruct (reply_next d k c x y rest rep Hwf Hq Hmd Hk) as (E & Hq').
  set (dA := CommandPool.step (CommandPool.EvNativeDone k 0 (CommandPool.Parsed rep)) d).
  set (dB := CommandPool.step (CommandPool.EvResume k) dA).
  set (dC := CommandPool.step (CommandPool.EvResume k) dB).
  assert (EC : CommandPool.run (CommandPool.reply k rep) d = dC) by reflexivity.
  assert (EA : dA = CommandPool.mk (CommandPool._commands d)
                      (CommandPool._sendCommandInProcess d) (CommandPool.module_device d)
                      (<[k := CommandPool.AwaitParse c rep]> (CommandPool.pools d))
                      (CommandPool.next_pool d) (CommandPool.next_cmd d)
                      (CommandPool.log d ++ [CommandPool.NativeEnd (CommandPool.cmd_id c)])).
  { unfold dA. cbn [CommandPool.step]. rewrite Hk. reflexivity. }
  assert (EB : dB = CommandPool.mk (CommandPool._commands d) false
                      (CommandPool.module_device d)
                      (<[k := CommandPool.AwaitSend c (Some rep)]>
                         (<[k := CommandPool.AwaitParse c rep]> (CommandPool.pools d)))
                      (CommandPool.next_pool d) (CommandPool.next_cmd d)
                      (CommandPool.log d ++ [CommandPool.NativeEnd (CommandPool.cmd_id c)])).
  { unfold dB. rewrite EA. cbn [CommandPool.step CommandPool.pools].
    rewrite lookup_insert_eq. reflexivity. }
  assert (HA : CommandPool.entered d dA = None).
  { apply (entered_end _ _ (CommandPool.cmd_id c)). rewrite EA. reflexivity. }
  assert (HB : CommandPool.entered dA dB = None).
  { apply entered_same_log. rewrite EB, EA. reflexivity. }
  assert (Hf : CircularBuffer.front (CircularBuffer.pop_front 1 (CommandPool._commands d))
               = Some y).
  { rewrite E in Hq'. unfold CommandPool.queued in Hq'. cbn [CommandPool._commands] in Hq'.
    pose proof (to_list_length (CircularBuffer.pop_front 1 (CommandPool._commands d))) as Hl.
    rewrite Hq' in Hl. cbn [length] in Hl.
    rewrite <- front_to_list; [rewrite Hq'; reflexivity | apply wf_pop_front, Hwf | lia]. }
  rewrite EC in E.
  assert (HC : CommandPool.entered dB dC = Some y).
  { rewrite (entered_begin dB dC [CommandPool.settle c (Some rep)] (CommandPool.cmd_id y)).
    - rewrite E. cbn [CommandPool._commands]. exact Hf.
    - rewrite E, EB. cbn [CommandPool.log]. rewrite <- !app_assoc. reflexivity. }
  unfold reply_events, single_run. cbn [fold_left single_step].
  unfold pool_step at 3. rewrite Hd. cbv zeta. fold dA. rewrite HA, app_nil_r.
  unfold pool_step at 2. cbn [device ctl_fd requests wire]. fold dB. rewrite HB, app_nil_r.
  unfold pool_step at 1. cbn [device ctl_fd requests wire]. fold dC. rewrite HC.
  reflexivity.
Qed.

Lemma single_call (table : gmap string Z) (cmd : string) (args ext_args : gmap string Z)
    (s : Single) (d : CommandPool.State) (a : Z) (t : Request) :
  0 <= ctl_fd s ->
  table !! cmd = Some a ->
  requests s !! a = Some t ->
  is_stream cmd args = false ->
  device s = Some d ->
  let h := <[a := getRequest t args ext_args]> (requests s) in
  let d' := CommandPool.step (CommandPool.EvSendCommand a) d in
  sendCommand_begin table cmd args ext_args s
  = mkSingle (ctl_fd s) h (Some d')
      (wire s ++ match CommandPool.entered d d' with
                 | Some c => [(CommandPool.cmd_id c, h !! CommandPool.req c)]
                 | None => []
                 end).
Proof.
  intros Hfd Ht Hh Hs Hd. cbv zeta. unfold sendCommand_begin, template.
  destruct (Z.ltb_spec (ctl_fd s) 0); [lia |].
  rewrite Ht, Hh, Hs. unfold pool_step. cbn [device ctl_fd requests wire]. rewrite Hd.
  reflexivity.
Qed.

(** A push onto a queue that is not full appends. *)
Lemma queued_push (q : CircularBuffer.t CommandPool.CommandRequest)
    (c : CommandPool.CommandRequest) (l : list (option CommandPool.CommandRequest)) :
  CircularBuffer.wf q -> CircularBuffer.to_list q = l ->
  Z.of_nat (length l) < CircularBuffer.capacity q ->
  CircularBuffer.wf (CircularBuffer.push_back c q)
  /\ CircularBuffer.to_list (CircularBuffer.push_back c q) = l ++ [Some c]
  /\ CircularBuffer.capacity (CircularBuffer.push_back c q) = CircularBuffer.capacity q.
Proof.
  intros Hwf Hl Hcap.
  split; [apply wf_push_back, Hwf |]. split; [| apply capacity_push_back].
  rewrite to_list_push_back_any by exact Hwf.
  destruct (CircularBuffer._bufferFull q) eqn:E; [| rewrite Hl; reflexivity].
  apply (full_size q Hwf) in E. pose proof (to_list_length q) as H. rewrite Hl in H. lia.
Qed.

(** Three calls for one command key, made before the reply to the first.
    Each call writes its arguments into the one request object of the key
    and queues that object.  The first native call is entered at once and
    reads the arguments of the first call; the second request is read when
    its native call is entered, after the reply to the first, and by then
    the object holds the arguments of the third call: the second and the
    third native call carry the same request, and the arguments of the
    second call are sent only where the third call did not set them. *)
Theorem queued_command_reads_template (table : gmap string Z) (cmd : string) (a : Z)
    (t : Request) (a1 e1 a2 e2 a3 e3 : gmap string Z) (rep1 rep2 : CommandPool.Reply)
    (s : Single) (d : CommandPool.State) :
  0 <= ctl_fd s ->
  table !! cmd = Some a ->
  requests s !! a = Some t ->
  is_stream cmd a1 = false -> is_stream cmd a2 = false -> is_stream cmd a3 = false ->
  device s = Some d ->
  CommandPool.idle d ->
  CommandPool.module_device d = true ->
  3 <= CircularBuffer.capacity (CommandPool._commands d) ->
  let k := CommandPool.next_pool d in
  let n := CommandPool.next_cmd d in
  let r1 := getRequest t a1 e1 in
  let r3 := getRequest (getRequest r1 a2 e2) a3 e3 in
  let calls := [EvCommand cmd a1 e1; EvCommand cmd a2 e2; EvCommand cmd a3 e3] in
  wire (single_run table calls s) = wire s ++ [(n, Some r1)]
  /\ requests (single_run table calls s) = <[a := r3]> (requests s)
  /\ wire (single_run table (calls ++ reply_events k rep1) s)
     = wire s ++ [(n, Some r1); (S n, Some r3)]
  /\ wire (single_run table (calls ++ reply_events k rep1 ++ reply_events k rep2) s)
     = wire s ++ [(n, Some r1); (S n, Some r3); (S (S n), Some r3)].
Proof.
  intros Hfd Ht Hh Hs1 Hs2 Hs3 Hd (Hwf & He & Hflag) Hmd Hcap k n r1 r3 calls.
  set (c0 := CommandPool.mkReq n a). set (c1 := CommandPool.mkReq (S n) a).
  set (c2 := CommandPool.mkReq (S (S n)) a).
  set (r2 := getRequest r1 a2 e2).
  set (q0 := CommandPool._commands d) in *.
  assert (Hl0 : CircularBuffer.to_list q0 = []).
  { apply (isEmpty_size q0 Hwf) in He. pose proof (to_list_length q0) as Hl. rewrite He in Hl.
    destruct (CircularBuffer.to_list q0); [reflexivity | discriminate]. }
  destruct (queued_push q0 c0 [] Hwf Hl0 ltac:(cbn [length]; lia)) as (Hwf1 & Hl1 & Hc1).
  set (q1 := CircularBuffer.push_back c0 q0) in *.
  destruct (queued_push q1 c1 _ Hwf1 Hl1 ltac:(cbn [length app]; lia)) as (Hwf2 & Hl2 & Hc2).
  set (q2 := CircularBuffer.push_back c1 q1) in *.
  destruct (queued_push q2 c2 _ Hwf2 Hl2 ltac:(cbn [length app]; lia)) as (Hwf3 & Hl3 & Hc3).
  set (q3 := CircularBuffer.push_back c2 q2) in *.
  cbn [app] in Hl1, Hl2, Hl3.
  (* the device after each call *)
  set (d1 := CommandPool.mk q1 true true
               (<[k := CommandPool.AwaitNative c0]> (CommandPool.pools d)) (S k) (S n)
               (CommandPool.log d ++ [CommandPool.NativeBegin n])).
  assert (Hf1 : CircularBuffer.front q1 = Some c0).
  { pose proof (to_list_length q1) as Hl. rewrite Hl1 in Hl. cbn [length] in Hl.
    rewrite <- front_to_list by (auto; lia). rewrite Hl1. reflexivity. }
  assert (He1 : CircularBuffer.isEmpty q1 = false).
  { destruct (CircularBuffer.isEmpty q1) eqn:E; [| reflexivity].
    apply (isEmpty_size q1 Hwf1) in E. pose proof (to_list_length q1) as Hl.
    rewrite Hl1, E in Hl. discriminate. }
  assert (E1 : CommandPool.step (CommandPool.EvSendCommand a) d = d1).
  { cbn [CommandPool.step]. unfold CommandPool.sendCommand, CommandPool.runCommandPool.
    cbn [CommandPool._sendCommandInProcess]. rewrite Hflag. cbv zeta.
    rewrite (pool_loop_front _ k _ c0); [| exact He1 | exact Hf1 | exact Hmd].
    reflexivity. }
  set (d2 := CommandPool.mk q2 true true
               (<[k := CommandPool.AwaitNative c0]> (CommandPool.pools d)) (S k) (S (S n))
               (CommandPool.log d ++ [CommandPool.NativeBegin n])).
  assert (E2 : CommandPool.step (CommandPool.EvSendCommand a) d1 = d2).
  { cbn [CommandPool.step]. rewrite sendCommand_busy by reflexivity. reflexivity. }
  set (d3 := CommandPool.mk q3 true true
               (<[k := CommandPool.AwaitNative c0]> (CommandPool.pools d)) (S k) (S (S (S n)))
               (CommandPool.log d ++ [CommandPool.NativeBegin n])).
  assert (E3 : CommandPool.step (CommandPool.EvSendCommand a) d2 = d3).
  { cbn [CommandPool.step]. rewrite sendCommand_busy by reflexivity. reflexivity. }
  assert (H01 : CommandPool.entered d d1 = Some c0).
  { rewrite (entered_begin d d1 [] n) by reflexivity. exact Hf1. }
  assert (H12 : CommandPool.entered d1 d2 = None) by (apply entered_same_log; reflexivity).
  assert (H23 : CommandPool.entered d2 d3 = None) by (apply entered_same_log; reflexivity).
  (* the control object after the three calls *)
  set (h1 := <[a := r1]> (requests s)).
  set (h2 := <[a := r2]> h1).
  set (h3 := <[a := r3]> h2).
  set (s3 := mkSingle (ctl_fd s) h3 (Some d3) (wire s ++ [(n, Some r1)])).
  assert (Ecalls : single_run table calls s = s3).
  { unfold calls, single_run. cbn [fold_left single_step].
    rewrite (single_call table cmd a1 e1 s d a t Hfd Ht Hh Hs1 Hd). cbv zeta.
    rewrite E1, H01. fold r1 h1. cbn [CommandPool.req CommandPool.cmd_id c0].
    replace (h1 !! a) with (Some r1) by (symmetry; apply lookup_insert_eq).
    rewrite (single_call table cmd a2 e2 _ d1 a r1); cbn [ctl_fd requests device wire];
      [| exact Hfd | exact Ht | apply lookup_insert_eq | exact Hs2 | reflexivity].
    cbv zeta. rewrite E2, H12, app_nil_r. fold r2 h2.
    rewrite (single_call table cmd a3 e3 _ d2 a r2); cbn [ctl_fd requests device wire];
      [| exact Hfd | exact Ht | apply lookup_insert_eq | exact Hs3 | reflexivity].
    cbv zeta. rewrite E3, H23, app_nil_r. reflexivity. }
  assert (Hh3 : h3 = <[a := r3]> (requests s)).
  { unfold h3, h2, h1. rewrite !insert_insert_eq. reflexivity. }
  (* the first reply *)
  assert (Hk3 : CommandPool.pools d3 !! k = Some (CommandPool.AwaitNative c0))
    by apply lookup_insert_eq.
  pose proof (single_reply table s3 d3 k c0 (Some c0) c1 [Some c2] rep1 eq_refl Hwf3 Hl3
                eq_refl Hk3) as R1.
  destruct (reply_next d3 k c0 (Some c0) c1 [Some c2] rep1 Hwf3 Hl3 eq_refl Hk3) as (Ed4 & Hq4).
  set (d4 := CommandPool.run (CommandPool.reply k rep1) d3) in *.
  cbn [ctl_fd requests wire s3] in R1.
  replace (h3 !! CommandPool.req c1) with (Some r3) in R1
    by (symmetry; apply lookup_insert_eq).
  change (CommandPool.cmd_id c1) with (S n) in R1.
  (* the second reply *)
  assert (Hwf4 : CircularBuffer.wf (CommandPool._commands d4))
    by (rewrite Ed4; apply wf_pop_front, Hwf3).
  assert (Hk4 : CommandPool.pools d4 !! k = Some (CommandPool.AwaitNative c1))
    by (rewrite Ed4; apply lookup_insert_eq).
  assert (Hmd4 : CommandPool.module_device d4 = true) by (rewrite Ed4; reflexivity).
  set (s4 := mkSingle (ctl_fd s) h3 (Some d4) ((wire s ++ [(n, Some r1)]) ++ [(S n, Some r3)])).
  pose proof (single_reply table s4 d4 k c1 (Some c1) c2 [] rep2 eq_refl Hwf4 Hq4 Hmd4 Hk4)
    as R2.
  cbn [ctl_fd requests wire s4] in R2.
  replace (h3 !! CommandPool.req c2) with (Some r3) in R2
    by (symmetry; apply lookup_insert_eq).
  change (CommandPool.cmd_id c2) with (S (S n)) in R2.
  split; [rewrite Ecalls; reflexivity |].
  split; [rewrite Ecalls; exact Hh3 |].
  split.
  - unfold single_run. rewrite fold_left_app. fold (single_run table calls s).
    rewrite Ecalls. fold (single_run table (reply_events k rep1) s3). rewrite R1.
    cbn [wire]. rewrite <- app_assoc. reflexivity.
  - unfold single_run. rewrite !fold_left_app. fold (single_run table calls s).
    rewrite Ecalls. fold (single_run table (reply_events k rep1) s3). rewrite R1.
    match goal with
    | |- wire (fold_left _ _ ?x) = _ => fold (single_run table (reply_events k rep2) x)
    end.
    fold s4. rewrite R2. cbn [wire]. rewrite <- !app_assoc. reflexivity.
Qed.

End SingleMode.

Lemma queued_command_reads_template_witness :
  let table : gmap string Z := {[ "SET_PARAMETER" := 1 ]} in
  let t : gmap string ControlWebUsb.Value :=
    {[ "req_params" := ControlWebUsb.VObj {[ "path" := 0; "value" := 0 ]} ]} in
  let s := ControlWebUsb.mkSingle 0 {[ 1 := t ]} (Some (CommandPool.init true)) [] in
  let a1 : gmap string Z := {[ "path" := 1; "value" := 10 ]} in
  let a2 : gmap string Z := {[ "path" := 2; "value" := 20 ]} in
  let a3 : gmap string Z := {[ "path" := 3; "value" := 30 ]} in
  let r1 := ControlWebUsb.getRequest t a1 ∅ in
  let r3 := ControlWebUsb.getRequest
              (ControlWebUsb.getRequest r1 a2 ∅) a3 ∅ in
  ControlWebUsb.wire
    (ControlWebUsb.single_run table
       ([ControlWebUsb.EvCommand "SET_PARAMETER" a1 ∅;
         ControlWebUsb.EvCommand "SET_PARAMETER" a2 ∅;
         ControlWebUsb.EvCommand "SET_PARAMETER" a3 ∅]
        ++ ControlWebUsb.reply_events 0 (CommandPool.ReplyOk 0)
        ++ ControlWebUsb.reply_events 0 (CommandPool.ReplyOk 0)) s)
  = [] ++ [(0%nat, Some r1); (1%nat, Some r3); (2%nat, Some r3)]
  /\ ControlWebUsb.req_params r3 = Some a3.
Proof.
  intros table t s a1 a2 a3 r1 r3.
  split; [| vm_compute; reflexivity].
  refine (proj2 (proj2 (proj2
    (queued_command_reads_template table "SET_PARAMETER" 1 t a1 ∅ a2 ∅ a3 ∅
       (CommandPool.ReplyOk 0) (CommandPool.ReplyOk 0) s (CommandPool.init true)
       _ eq_refl eq_refl eq_refl eq_refl eq_refl eq_refl (init_idle true) eq_refl _)))).
  - cbn. lia.
  - vm_compute. discriminate.
Defined.

(** ** [getRequest]: what stays in the template, and the timers of
    [setParameter] *)

Section RequestTemplate.
Import ControlWebUsb.

Lemma getRequest_lookup_params (t : Request) (p a e : gmap string Z) :
  t !! "req_params" = Some (VObj p) ->
  e !! "req_params" = None ->
  getRequest t a e !! "req_params" = Some (VObj (a ∪ p)).
Proof.
  intros Ht He. unfold getRequest. rewrite Ht. cbv zeta.
  rewrite lookup_union_r by (rewrite lookup_fmap, He; reflexivity).
  apply lookup_insert_eq.
Qed.

Lemma getRequest_lookup_ext (t : Request) (a e : gmap string Z) (key : string) (v : Z) :
  e !! key = Some v -> getRequest t a e !! key = Some (VNum v).
Proof.
  intros He. unfold getRequest. cbv zeta.
  apply lookup_union_Some_l. rewrite lookup_fmap, He. reflexivity.
Qed.

Lemma getRequest_lookup_other (t : Request) (a e : gmap string Z) (key : string) :
  key <> "req_params" -> e !! key = None -> getRequest t a e !! key = t !! key.
Proof.
  intros Hk He. unfold getRequest. cbv zeta.
  rewrite lookup_union_r by (rewrite lookup_fmap, He; reflexivity).
  destruct (t !! "req_params") as [[n | p] |]; try reflexivity.
  apply lookup_insert_ne. congruence.
Qed.

(** The arguments of a call stay in the template.  [getRequest] writes into
    the request object it is given and returns that object, so on the second
    of two calls for one template the request holds, besides the arguments of
    this call, every argument of the first call that this call does not set
    again, in [req_params] and among the properties set by [ext_args]; what
    neither call sets is as in the template. *)
Theorem getRequest_accumulates (t : Request) (p a1 e1 a2 e2 : gmap string Z) :
  t !! "req_params" = Some (VObj p) ->
  e1 !! "req_params" = None ->
  e2 !! "req_params" = None ->
  let r1 := getRequest t a1 e1 in
  let r2 := getRequest r1 a2 e2 in
  req_params r1 = Some (a1 ∪ p)
  /\ req_params r2 = Some (a2 ∪ (a1 ∪ p))
  /\ (forall key v, a2 !! key = Some v -> (a2 ∪ (a1 ∪ p)) !! key = Some v)
  /\ (forall key v, a1 !! key = Some v -> a2 !! key = None ->
        (a2 ∪ (a1 ∪ p)) !! key = Some v)
  /\ (forall key v, e2 !! key = Some v -> r2 !! key = Some (VNum v))
  /\ (forall key v, e1 !! key = Some v -> e2 !! key = None -> r2 !! key = Some (VNum v))
  /\ (forall key, key <> "req_params" -> e1 !! key = None -> e2 !! key = None ->
        r2 !! key = t !! key).
Proof.
  intros Ht He1 He2 r1 r2.
  assert (H1 : r1 !! "req_params" = Some (VObj (a1 ∪ p)))
    by (apply getRequest_lookup_params; assumption).
  assert (H2 : r2 !! "req_params" = Some (VObj (a2 ∪ (a1 ∪ p))))
    by (apply getRequest_lookup_params; assumption).
  split; [unfold req_params; rewrite H1; reflexivity |].
  split; [unfold req_params; rewrite H2; reflexivity |].
  split; [intros key v Hk; apply lookup_union_Some_l; exact Hk |].
  split.
  { intros key v Hk1 Hk2. rewrite lookup_union_r by exact Hk2.
    apply lookup_union_Some_l. exact Hk1. }
  split; [intros key v Hk; apply getRequest_lookup_ext; exact Hk |].
  split.
  { intros key v Hk1 Hk2.
    assert (key <> "req_params") by (intros ->; congruence).
    unfold r2. rewrite getRequest_lookup_other by assumption.
    apply getRequest_lookup_ext. exact Hk1. }
  intros key Hk Hk1 Hk2. unfold r2, r1. rewrite !getRequest_lookup_other by assumption.
  reflexivity.
Qed.

End RequestTemplate.

Lemma getRequest_accumulates_witness :
  let p : gmap string Z := {[ "chans" := 1; "frequency" := 100 ]} in
  let t : gmap string ControlWebUsb.Value := {[ "req_params" := ControlWebUsb.VObj p ]} in
  let a1 : gmap string Z := {[ "chans" := 3 ]} in
  let a2 : gmap string Z := {[ "frequency" := 7 ]} in
  ControlWebUsb.req_params
    (ControlWebUsb.getRequest (ControlWebUsb.getRequest t a1 ∅) a2 ∅)
  = Some (a2 ∪ (a1 ∪ p)).
Proof.
  intros p t a1 a2.
  assert (Ht : t !! "req_params" = Some (ControlWebUsb.VObj p)) by reflexivity.
  exact (proj1 (proj2 (getRequest_accumulates t p a1 ∅ a2 ∅ Ht eq_refl eq_refl))).
Defined.

Section ParameterTimers.
Import ControlWebUsb.


End ParameterTimers.
